(** * SimpleServer (spidey): request parsing, path and mime resolution,
      dispatch and error responses.

    A shallow embedding of [request.c], [utils.c], [handler.c],
    [single.c] and the option parser of [spidey.c].

    C strings live in [char] buffers and are addressed by offsets; the
    byte [NUL] ends a string.  A call that the C standard leaves undefined
    (passing a null pointer to [strdup], [strchr] or to a [%s] conversion,
    writing past a buffer) is an explicit [Undefined] outcome. *)

From Stdlib Require Import Ascii String.
From Stdlib Require Import List ZArith Lia Bool Arith.
From Stdlib Require Import Sorted Permutation.
Import ListNotations.

Local Open Scope char_scope.
Local Open Scope nat_scope.
Local Open Scope list_scope.

(** ** Characters and C strings *)

Definition NUL : ascii := "000".
Definition TAB : ascii := "009".
Definition LF : ascii := "010".
Definition CR : ascii := "013".
Definition DQUOTE : ascii := "034".

(** A C string without its terminator. *)
Definition cstring := list ascii.

(** String literals of the source, written as Rocq strings. *)
Definition cs (s : string) : cstring := list_ascii_of_string s.

Definition CRLF : cstring := [CR; LF].

Definition is_nul (c : ascii) : bool := Ascii.eqb c NUL.

(** [c] is one of the characters of the set [cset]. *)
Definition char_in (c : ascii) (cset : cstring) : bool :=
  existsb (Ascii.eqb c) cset.

Module CString.

(** A [char] array; a pointer into it is an offset. *)
Abbreviation array := (list ascii).
Abbreviation ptr := nat.

(** The bytes of [b] from offset [p] on. *)
Definition from (b : array) (p : ptr) : list ascii := skipn p b.

(** The C string that starts a run of bytes: everything before the first
    [NUL] (the end of the array counts as a terminator). *)
Fixpoint c_str (l : list ascii) : cstring :=
  match l with
  | [] => []
  | c :: l' => if is_nul c then [] else c :: c_str l'
  end.

(** The C string a pointer designates. *)
Definition str_at (b : array) (p : ptr) : cstring := c_str (from b p).

Definition peek (b : array) (p : ptr) : ascii := nth p b NUL.

(** [b[p] = c]. *)
Definition poke (b : array) (p : ptr) (c : ascii) : array :=
  firstn p b ++ match skipn p b with [] => [] | _ :: t => c :: t end.

Definition strlen (b : array) (p : ptr) : nat := length (str_at b p).

(** [strspn]: length of the initial run of bytes that are in [accept]. *)
Fixpoint strspn (l : list ascii) (accept : cstring) : nat :=
  match l with
  | [] => 0
  | c :: l' =>
      if negb (is_nul c) && char_in c accept then S (strspn l' accept) else 0
  end.

(** [strcspn]: length of the initial run of bytes that are not in
    [reject]. *)
Fixpoint strcspn (l : list ascii) (reject : cstring) : nat :=
  match l with
  | [] => 0
  | c :: l' =>
      if is_nul c || char_in c reject then 0 else S (strcspn l' reject)
  end.

(** [strchr(s, c)] for [c <> NUL]: offset of the first [c] of the string
    that starts [l], or a null pointer. *)
Fixpoint index_of (c : ascii) (l : list ascii) : option nat :=
  match l with
  | [] => None
  | x :: l' =>
      if is_nul x then None
      else if Ascii.eqb x c then Some 0
      else option_map S (index_of c l')
  end.

Definition strchr (b : array) (p : ptr) (c : ascii) : option ptr :=
  option_map (Nat.add p) (index_of c (from b p)).

(** [strrchr(s, c)] for [c <> NUL]: the last [c] of the string. *)
Fixpoint rindex_of (c : ascii) (l : list ascii) : option nat :=
  match l with
  | [] => None
  | x :: l' =>
      if is_nul x then None
      else match rindex_of c l' with
           | Some i => Some (S i)
           | None => if Ascii.eqb x c then Some 0 else None
           end
  end.

Definition strrchr (b : array) (p : ptr) (c : ascii) : option ptr :=
  option_map (Nat.add p) (rindex_of c (from b p)).

(** [strtok] keeps a pointer between calls; the state is the array it
    works on together with that pointer. *)
Record tok_state := TokState { tok_buf : array; tok_save : ptr }.

(** [strtok(str, delim)]: [str = None] is the call with a null first
    argument, which resumes at the saved pointer.  Leading delimiters
    are skipped; the token found is terminated in place by a [NUL]. *)
Definition strtok (str : option ptr) (delim : cstring) (st : tok_state)
  : option ptr * tok_state :=
  let b := tok_buf st in
  let s := match str with Some p => p | None => tok_save st end in
  let s1 := s + strspn (from b s) delim in
  if is_nul (peek b s1) then (None, TokState b s1)
  else
    let e := s1 + strcspn (from b s1) delim in
    if is_nul (peek b e) then (Some s1, TokState b e)
    else (Some s1, TokState (poke b e NUL) (S e)).

(** [strcmp(a, b) == 0] on two C strings. *)
Definition streq_str (a b : cstring) : bool :=
  if list_eq_dec ascii_dec a b then true else false.

End CString.

Import CString.

(** ** Outcomes

    A C function either returns or runs into behaviour the C standard does
    not define. *)

Inductive fault : Type :=
| NullArgument      (* a null pointer given to strdup, strchr or %s *)
| BufferOverflow.   (* sprintf past the end of its array *)

Inductive outcome (A : Type) : Type :=
| Ret (a : A)
| Undefined (f : fault).

Arguments Ret {A} a.
Arguments Undefined {A} f.

Definition bind {A B : Type} (m : outcome A) (k : A -> outcome B) : outcome B :=
  match m with
  | Ret a => k a
  | Undefined f => Undefined f
  end.

Notation "x <- m ;; k" := (bind m (fun x => k))
  (at level 61, m at next level, right associativity).
Notation "' pat <- m ;; k" := (bind m (fun x => match x with pat => k end))
  (at level 61, pat pattern, m at next level, right associativity).

(** A pointer to [char]: into the function's local array, or to a string
    literal. *)
Inductive char_ptr : Type :=
| InBuffer (p : ptr)
| Literal (s : cstring).

Definition load (b : array) (cp : char_ptr) : cstring :=
  match cp with
  | InBuffer p => str_at b p
  | Literal s => s
  end.

(** [strdup]: a copy of the string pointed to; a null argument is
    undefined.  Allocation is taken to succeed. *)
Definition strdup (b : array) (s : option char_ptr) : outcome cstring :=
  match s with
  | Some cp => Ret (load b cp)
  | None => Undefined NullArgument
  end.

(** ** Streams and requests *)

(** A stream: what is left to read, as the sequence of arrays that
    successive [fgets(buffer, BUFSIZ, stream)] calls fill (a line with its
    terminator, or a [BUFSIZ - 1] byte piece of a longer line), and the
    bytes written to it so far. *)
Record FILE_ : Type := MkFILE {
  pending : list cstring;
  written : list ascii
}.

(** [fgets(buffer, BUFSIZ, stream)]: null at end of stream, else the array
    holds the line read and its terminator. *)
Definition fgets (f : FILE_) : option (array * FILE_) :=
  match pending f with
  | [] => None
  | l :: rest => Some (l ++ [NUL], MkFILE rest (written f))
  end.

(** [fputs] and the [fprintf] calls, whose formats are expanded where they
    are used. *)
Definition fputs (s : cstring) (f : FILE_) : FILE_ :=
  MkFILE (pending f) (written f ++ s).

Record Header : Type := MkHeader {
  h_name : cstring;
  h_data : cstring
}.

(** [struct request]; a null string field is [None], the linked list of
    headers is a list. *)
Record Request : Type := MkRequest {
  r_host : cstring;
  r_port : cstring;
  r_stream : FILE_;
  r_method : option cstring;
  r_uri : option cstring;
  r_path : option cstring;
  r_query : option cstring;
  r_headers : list Header
}.

Definition set_stream (r : Request) (f : FILE_) : Request :=
  MkRequest (r_host r) (r_port r) f (r_method r) (r_uri r) (r_path r)
    (r_query r) (r_headers r).
Definition set_method (r : Request) (m : option cstring) : Request :=
  MkRequest (r_host r) (r_port r) (r_stream r) m (r_uri r) (r_path r)
    (r_query r) (r_headers r).
Definition set_uri (r : Request) (u : option cstring) : Request :=
  MkRequest (r_host r) (r_port r) (r_stream r) (r_method r) u (r_path r)
    (r_query r) (r_headers r).
Definition set_path (r : Request) (p : option cstring) : Request :=
  MkRequest (r_host r) (r_port r) (r_stream r) (r_method r) (r_uri r) p
    (r_query r) (r_headers r).
Definition set_query (r : Request) (q : option cstring) : Request :=
  MkRequest (r_host r) (r_port r) (r_stream r) (r_method r) (r_uri r)
    (r_path r) q (r_headers r).
Definition set_headers (r : Request) (h : list Header) : Request :=
  MkRequest (r_host r) (r_port r) (r_stream r) (r_method r) (r_uri r)
    (r_path r) (r_query r) h.

(** The request [accept_request] returns: [calloc]ed, so every string is
    null and the header list empty, with the client's address and the
    socket stream filled in. *)
Definition accept_request (host port : cstring) (input : list cstring) : Request :=
  MkRequest host port (MkFILE input []) None None None None [].

(** [skip_whitespace] of utils.c: advance over blanks, tabs, carriage
    returns and line feeds. *)
Fixpoint whitespace_run (l : list ascii) : nat :=
  match l with
  | [] => 0
  | c :: l' =>
      if Ascii.eqb c " " || Ascii.eqb c CR || Ascii.eqb c TAB || Ascii.eqb c LF
      then S (whitespace_run l') else 0
  end.

Definition skip_whitespace (b : array) (s : ptr) : ptr :=
  s + whitespace_run (from b s).

Section Parser.

(** The [WHITESPACE] delimiter set and the [chomp] macro come from
    spidey.h, which is not among the sources: both are parameters, [chomp]
    as its effect on the string it is applied to. *)
Variable WHITESPACE : cstring.
Variable chomp : cstring -> cstring.

(** [parse_request_method]: 0 on success, -1 on failure. *)
Definition parse_request_method (r : Request) : outcome (Z * Request) :=
  (* Read line from socket *)
  match fgets (r_stream r) with
  | None => Ret (-1, r)%Z
  | Some (buffer, stream) =>
      let r := set_stream r stream in
      (* Parse method and uri *)
      let (method, st) := strtok (Some 0) WHITESPACE (TokState buffer 0) in
      m <- strdup (tok_buf st) (option_map InBuffer method) ;;
      let r := set_method r (Some m) in
      let (uri, st) := strtok None WHITESPACE st in
      match uri with
      | None => Ret (-1, r)%Z
      | Some uri =>
          (* Parse query from uri *)
          let '(query, realURI, st) :=
            match strchr (tok_buf st) uri "?" with
            | None => (Literal [], Some uri, st)
            | Some q =>
                let st := TokState (poke (tok_buf st) q NUL) (tok_save st) in
                let (realURI, st) := strtok (Some uri) ["?"] st in
                (InBuffer (S q), realURI, st)
            end in
          u <- strdup (tok_buf st) (option_map InBuffer realURI) ;;
          let r := set_uri r (Some u) in
          q <- strdup (tok_buf st) (Some query) ;;
          let r := set_query r (Some q) in
          Ret (0, r)%Z
      end
  end.

(** What one turn of the header loop does with the line in [buffer]:
    the header it builds, or [None] at [goto fail]. *)
Definition parse_header_line (buffer : array) : option Header :=
  let (name, st) := strtok (Some 0) [":"] (TokState buffer 0) in
  match name with
  | None => None
  | Some name =>
      let (data, st) := strtok None [":"] st in
      match data with
      | None => None
      | Some data =>
          let data := skip_whitespace (tok_buf st) data in
          Some (MkHeader (str_at (tok_buf st) name)
                         (chomp (str_at (tok_buf st) data)))
      end
  end.

(** The [while] loop of [parse_request_headers].  [trailer] is the number
    of nodes before the link [trailer] points to; [*trailer = curr] cuts
    the list there and hangs the new node.  The result is [true] when the
    loop ended and [false] at [goto fail]. *)
Fixpoint parse_headers_loop (lines : list cstring) (written : list ascii)
  (trailer : nat) (headers : list Header)
  : bool * FILE_ * list Header :=
  match lines with
  | [] => (true, MkFILE [] written, headers)
  | l :: rest =>
      let buffer := l ++ [NUL] in
      if 2 <? strlen buffer 0 then
        match parse_header_line buffer with
        | None => (false, MkFILE rest written, headers)
        | Some curr =>
            parse_headers_loop rest written (S trailer)
              (firstn trailer headers ++ [curr])
        end
      else (true, MkFILE rest written, headers)
  end.

(** [parse_request_headers]: 0 on success, -1 on failure. *)
Definition parse_request_headers (r : Request) : Z * Request :=
  let '(ended, stream, headers) :=
    parse_headers_loop (pending (r_stream r)) (written (r_stream r)) 0
      (r_headers r) in
  let r := set_headers (set_stream r stream) headers in
  if ended then
    match r_headers r with
    | [] => (-1, r)%Z
    | _ :: _ => (0, r)%Z
    end
  else (-1, r)%Z.

(** [parse_request]. *)
Definition parse_request (r : Request) : outcome (Z * Request) :=
  '(ret, r) <- parse_request_method r ;;
  if (ret <? 0)%Z then Ret (-1, r)%Z
  else
    let (ret, r) := parse_request_headers r in
    if (ret <? 0)%Z then Ret (-1, r)%Z else Ret (0, r)%Z.

End Parser.

(** ** utils.c *)

(** Modelled from the spec: the [Status] enumeration of spidey.h, which is
    not among the sources.  The enumerators are those of the specification,
    in its order; their [int] values are the case labels 0, 1, 2, 3 of
    [http_status_string], which index [StatusStrings] (C numbers
    enumerators from 0; the 200, 400, 404 and 500 of the specification are
    the codes of the status lines). *)
Inductive Status : Type :=
| HTTP_STATUS_OK
| HTTP_STATUS_BAD_REQUEST
| HTTP_STATUS_NOT_FOUND
| HTTP_STATUS_INTERNAL_SERVER_ERROR.

Definition Status_value (s : Status) : Z :=
  match s with
  | HTTP_STATUS_OK => 0
  | HTTP_STATUS_BAD_REQUEST => 1
  | HTTP_STATUS_NOT_FOUND => 2
  | HTTP_STATUS_INTERNAL_SERVER_ERROR => 3
  end.

Definition Status_eqb (a b : Status) : bool :=
  (Status_value a =? Status_value b)%Z.

Definition StatusStrings : list cstring :=
  [ cs "200 OK";
    cs "400 Bad Request";
    cs "404 Not Found";
    cs "500 Internal Server Error";
    cs "418 I'm A Teapot" ].

(** [http_status_string]: the table entry, or a null pointer. *)
Definition http_status_string (status : Z) : option cstring :=
  match status with
  | 0%Z => nth_error StatusStrings 0
  | 1%Z => nth_error StatusStrings 1
  | 2%Z => nth_error StatusStrings 2
  | 3%Z => nth_error StatusStrings 3
  | _ => None
  end.

(** [strncmp(s1, s2, n)]: the difference of the first bytes that differ
    among the first [n], 0 when there is none. *)
Fixpoint strncmp (s1 s2 : cstring) (n : nat) : Z :=
  match n with
  | 0 => 0%Z
  | S n' =>
      let c1 := hd NUL s1 in
      let c2 := hd NUL s2 in
      if Ascii.eqb c1 c2
      then if is_nul c1 then 0%Z else strncmp (tl s1) (tl s2) n'
      else (Z.of_nat (nat_of_ascii c1) - Z.of_nat (nat_of_ascii c2))%Z
  end.

(** Modelled from the spec: the [streq] macro of spidey.h, which is not
    among the sources: the two strings are exactly the same,
    [strcmp(a, b) == 0]. *)
Definition streq (a b : cstring) : bool := streq_str a b.

(** [strcmp]: the difference of the first bytes that differ, taken as
    [unsigned char]; the end of a string counts as the byte 0. *)
Fixpoint strcmp (s1 s2 : cstring) : Z :=
  match s1, s2 with
  | [], [] => 0%Z
  | [], c2 :: _ => (0 - Z.of_nat (nat_of_ascii c2))%Z
  | c1 :: _, [] => Z.of_nat (nat_of_ascii c1)
  | c1 :: s1', c2 :: s2' =>
      if Ascii.eqb c1 c2 then strcmp s1' s2'
      else (Z.of_nat (nat_of_ascii c1) - Z.of_nat (nat_of_ascii c2))%Z
  end.

(** <dirent.h>: [alphasort] compares two entries by [strcoll] on their
    names.  The program never calls [setlocale], so it runs in the "C"
    locale, where [strcoll] is [strcmp]. *)
Definition alphasort (a b : cstring) : Z := strcmp a b.

(** <stdlib.h>: [qsort] puts the array in ascending order of [compar].
    Names that compare equal are the same name, so the order of the
    result does not depend on how the sort is done. *)
Fixpoint qsort_insert (compar : cstring -> cstring -> Z) (x : cstring)
  (sorted : list cstring) : list cstring :=
  match sorted with
  | [] => [x]
  | y :: sorted' =>
      if (compar x y <=? 0)%Z then x :: y :: sorted'
      else y :: qsort_insert compar x sorted'
  end.

Definition qsort (compar : cstring -> cstring -> Z) (base : list cstring)
  : list cstring :=
  fold_right (qsort_insert compar) [] base.

Section Server.

Variable WHITESPACE : cstring.
Variable chomp : cstring -> cstring.

(** <stdio.h> *)
Variable BUFSIZ : nat.

(** The globals of spidey.c, as they stand while requests are served. *)
Variable RootPath : cstring.
Variable MimeTypesPath : cstring.
Variable DefaultMimeType : cstring.

(** The file system and the process table, as the library calls of the
    handlers see them: [realpath] (null on failure), [stat] (the [st_mode]
    it stores, [None] when it returns -1), [access(path, X_OK) == 0],
    [readdir] (the names of the entries of a directory in the order in
    which the directory stream yields them, [None] when the directory
    cannot be opened), [fopen(path, "r")] and [popen(path, "r")] under a
    given environment. *)
Variable realpath : cstring -> option cstring.
Variable stat : cstring -> option Z.
Variable access_X_OK : cstring -> bool.
Variable readdir : cstring -> option (list cstring).
Variable fopen : cstring -> option FILE_.
Variable popen : list (cstring * cstring) -> cstring -> option FILE_.

(** What [path_stat.st_mode] holds when [stat] failed and left the
    structure as it was. *)
Variable indeterminate_mode : Z.

(** The scan of the rules file in [determine_mimetype]: the mime type of
    the first line that matches, or [None] at end of file. *)
Fixpoint scan_mimetypes (lines : list cstring) (ext : cstring)
  : outcome (option cstring) :=
  match lines with
  | [] => Ret None
  | l :: rest =>
      let buffer := l ++ [NUL] in
      if Ascii.eqb (peek buffer 0) "#" || Ascii.eqb (peek buffer 0) LF
      then scan_mimetypes rest ext
      else
        let (token, st) := strtok (Some 0) WHITESPACE (TokState buffer 0) in
        let (token, st) := strtok None WHITESPACE st in
        match token with
        | Some token =>
            if streq (str_at (tok_buf st) token) ext then
              let (first, st) := strtok (Some 0) WHITESPACE st in
              m <- strdup (tok_buf st) (option_map InBuffer first) ;;
              Ret (Some m)
            else scan_mimetypes rest ext
        | None => scan_mimetypes rest ext
        end
  end.

(** [determine_mimetype]. *)
Definition determine_mimetype (path : cstring) : outcome cstring :=
  (* Find file extension *)
  match strrchr path 0 "/" with
  | None => Undefined NullArgument              (* strchr(NULL, '.') *)
  | Some ext =>
      match strchr path ext "." with
      | None => Ret DefaultMimeType
      | Some ext =>
          let ext := S ext in
          (* Open MimeTypesPath file *)
          match fopen MimeTypesPath with
          | None => Ret DefaultMimeType
          | Some fs =>
              (* Scan file for matching file extensions *)
              found <- scan_mimetypes (pending fs) (str_at path ext) ;;
              match found with
              | Some m => Ret m
              | None => Ret DefaultMimeType
              end
          end
      end
  end.

(** [determine_request_path]: the real path, or a null pointer.  The two
    arrays hold [BUFSIZ] bytes. *)
Definition determine_request_path (uri : cstring) : outcome (option cstring) :=
  if BUFSIZ <=? length RootPath + length uri then Undefined BufferOverflow
  else
    let buffer := RootPath ++ uri in
    match realpath buffer with
    | None => Ret None
    | Some path =>
        if BUFSIZ <=? length path then Undefined BufferOverflow
        else if (strncmp RootPath path (length RootPath) =? 0)%Z
        then Ret (Some path)
        else Ret None
    end.

(** ** handler.c *)

(** A [%s] conversion: a null argument is undefined. *)
Definition percent_s (s : option cstring) : outcome cstring :=
  match s with
  | Some s => Ret s
  | None => Undefined NullArgument
  end.

Definition write (s : cstring) (r : Request) : Request :=
  set_stream r (fputs s (r_stream r)).

(** [handle_error]. *)
Definition handle_error (r : Request) (status : Status)
  : outcome (Status * Request) :=
  let status_string := http_status_string (Status_value status) in
  (* Write HTTP Header *)
  s <- percent_s status_string ;;
  let r := write (cs "HTTP/1.0 " ++ s ++ CRLF) r in
  let r := write (cs "Content-Type: text/html" ++ CRLF) r in
  let r := write CRLF r in
  (* Write HTML Description of Error *)
  let r := write (cs "<html><body>") r in
  let r := write (cs "<h1><strong>" ++ s
                  ++ cs "</strong></h1><h2>Good Try!</h2>") r in
  let r := write (cs "<center><img src=" ++ [DQUOTE]
                  ++ cs "https://www.dailydot.com/wp-content/uploads/2019/04/winnie-the-pooh-1024x512.jpg"
                  ++ [DQUOTE] ++ cs "></center>") r in
  let r := write (cs "</html></body>") r in
  Ret (status, r).

(** <dirent.h>: [scandir(dirp, &namelist, filter, compar)] collects the
    entries of the directory that [filter] selects (all of them for a null
    [filter]) and sorts them with [qsort] and [compar] (no sort for a null
    [compar]); the count is negative, here [None], when the directory
    cannot be read. *)
Definition scandir (dirp : cstring) (filter : option (cstring -> bool))
  (compar : option (cstring -> cstring -> Z)) : option (list cstring) :=
  match readdir dirp with
  | None => None
  | Some names =>
      let selected :=
        match filter with
        | Some f => List.filter f names
        | None => names
        end in
      Some match compar with
           | Some c => qsort c selected
           | None => selected
           end
  end.

(** The list item [handle_browse_request] prints for an entry, given the
    text of its [href]. *)
Definition list_item (href d_name : cstring) : cstring :=
  cs "<li><a href=" ++ [DQUOTE] ++ href ++ [DQUOTE] ++ cs ">" ++ d_name
  ++ cs "</a></li>" ++ [LF].

(** The [for] loop of [handle_browse_request]. *)
Fixpoint browse_entries (uri : cstring) (entries : list cstring) (r : Request)
  : Request :=
  match entries with
  | [] => r
  | d_name :: rest =>
      let r :=
        if negb (streq d_name (cs ".")) && negb (streq uri (cs "/")) then
          write (list_item (uri ++ cs "/" ++ d_name) d_name) r
        else if streq uri (cs "/") then
          if negb (streq d_name (cs ".")) then
            write (list_item (cs "/" ++ d_name) d_name) r
          else r
        else r in
      browse_entries uri rest r
  end.

(** [handle_browse_request]. *)
Definition handle_browse_request (r : Request) : outcome (Status * Request) :=
  path <- percent_s (r_path r) ;;
  (* Open a directory for reading or scanning *)
  match scandir path None (Some alphasort) with
  | None => Ret (HTTP_STATUS_NOT_FOUND, r)
  | Some entries =>
      (* Write HTTP Header with OK Status and text/html Content-Type *)
      let r := write (cs "HTTP/1.0 200 OK" ++ CRLF) r in
      let r := write (cs "Content-Type: text/html" ++ CRLF) r in
      let r := write CRLF r in
      (* For each entry in directory, emit HTML list item *)
      let r := write (cs "<ul>" ++ [LF]) r in
      uri <- percent_s (r_uri r) ;;
      let r := browse_entries uri entries r in
      let r := write (cs "</ul>" ++ [LF]) r in
      Ret (HTTP_STATUS_OK, r)
  end.

(** [handle_file_request]; the [fread]/[fwrite] loop copies the whole
    file. *)
Definition handle_file_request (r : Request) : outcome (Status * Request) :=
  path <- percent_s (r_path r) ;;
  (* Open file for reading *)
  match fopen path with
  | None => Ret (HTTP_STATUS_NOT_FOUND, r)
  | Some fs =>
      (* Determine mimetype *)
      mimetype <- determine_mimetype path ;;
      (* Write HTTP Headers with OK status and determined Content-Type *)
      let r := write (cs "HTTP/1.0 200 OK" ++ CRLF) r in
      let r := write (cs "Content-Type: " ++ mimetype ++ CRLF) r in
      let r := write CRLF r in
      (* Read from file and write to socket in chunks *)
      let r := write (concat (pending fs)) r in
      Ret (HTTP_STATUS_OK, r)
  end.

(** [handle_cgi_request]: the [setenv] calls in order, then the output of
    the script copied line by line with [fputs]. *)
Definition handle_cgi_request (r : Request) : outcome (Status * Request) :=
  uri <- percent_s (r_uri r) ;;
  method <- percent_s (r_method r) ;;
  path <- percent_s (r_path r) ;;
  let env :=
    match r_query r with
    | Some query => [(cs "QUERY_STRING", query)]
    | None => []
    end
    ++ [ (cs "SCRIPT_FILENAME", uri);
         (cs "REQUEST_METHOD", method);
         (cs "REMOTE_ADDR", r_host r);
         (cs "REQUEST_URI", uri);
         (cs "REMOTE_PORT", r_port r);
         (cs "DOCUMENT_ROOT", path);
         (cs "SERVER_PORT", r_port r);
         (cs "HTTP_HOST", r_host r);
         (cs "HTTP_USER_AGENT", uri) ] in
  (* POpen CGI Script *)
  match popen env path with
  | None => Ret (HTTP_STATUS_INTERNAL_SERVER_ERROR, r)
  | Some pfs =>
      (* Copy data from popen to socket *)
      let r := fold_left (fun r l => write (c_str (l ++ [NUL])) r)
                 (pending pfs) r in
      Ret (HTTP_STATUS_OK, r)
  end.

(** <sys/stat.h>: the file type bits of [st_mode]. *)
Definition S_IFMT : Z := 0xF000.     (* 0170000 *)
Definition S_IFDIR : Z := 0x4000.    (* 0040000 *)
Definition S_IFREG : Z := 0x8000.    (* 0100000 *)
Definition S_ISDIR (m : Z) : Z :=
  if (Z.land m S_IFMT =? S_IFDIR)%Z then 1%Z else 0%Z.
Definition S_ISREG (m : Z) : Z :=
  if (Z.land m S_IFMT =? S_IFREG)%Z then 1%Z else 0%Z.

(** The handler the [if] chain of [handle_request] selects. *)
Inductive strategy : Type := Browse | Cgi | StaticFile | BadKind.

Definition select_handler (path : cstring) (st_mode : Z) : strategy :=
  if (S_ISDIR st_mode =? 1)%Z then Browse
  else if access_X_OK path then Cgi
  else if (S_ISREG st_mode =? 1)%Z then StaticFile
  else BadKind.

(** A handler's status is passed to [handle_error] when it is not OK; the
    status is the result either way. *)
Definition check_status (sr : Status * Request) : outcome (Status * Request) :=
  let (result, r) := sr in
  if negb (Status_eqb result HTTP_STATUS_OK) then
    '(_, r) <- handle_error r result ;; Ret (result, r)
  else Ret (result, r).

(** [handle_request]. *)
Definition handle_request (r : Request) : outcome (Status * Request) :=
  (* Parse request *)
  '(ret, r) <- parse_request WHITESPACE chomp r ;;
  if (ret <? 0)%Z then
    '(_, r) <- handle_error r HTTP_STATUS_BAD_REQUEST ;;
    Ret (HTTP_STATUS_BAD_REQUEST, r)
  else
    (* Determine request path *)
    uri <- percent_s (r_uri r) ;;
    path <- determine_request_path uri ;;
    let r := set_path r path in
    match path with
    | None =>
        '(_, r) <- handle_error r HTTP_STATUS_NOT_FOUND ;;
        Ret (HTTP_STATUS_NOT_FOUND, r)
    | Some path =>
        (* Dispatch to appropriate request handler type based on file type *)
        '(st_mode, r) <-
          match stat path with
          | Some m => Ret (m, r)
          | None =>
              '(_, r) <- handle_error r HTTP_STATUS_NOT_FOUND ;;
              Ret (indeterminate_mode, r)
          end ;;
        match select_handler path st_mode with
        | Browse => sr <- handle_browse_request r ;; check_status sr
        | Cgi => sr <- handle_cgi_request r ;; check_status sr
        | StaticFile => sr <- handle_file_request r ;; check_status sr
        | BadKind =>
            '(_, r) <- handle_error r HTTP_STATUS_BAD_REQUEST ;;
            Ret (HTTP_STATUS_BAD_REQUEST, r)
        end
    end.

End Server.

(** * Specification-side definitions *)

(** The reason phrase the specification attaches to each status. *)
Definition status_line_of (s : Status) : cstring :=
  match s with
  | HTTP_STATUS_OK => cs "200 OK"
  | HTTP_STATUS_BAD_REQUEST => cs "400 Bad Request"
  | HTTP_STATUS_NOT_FOUND => cs "404 Not Found"
  | HTTP_STATUS_INTERNAL_SERVER_ERROR => cs "500 Internal Server Error"
  end.

(** The response of the specification for a status line: status line,
    content type, blank line and the page that names the status. *)
Definition error_response (reason : cstring) : cstring :=
  cs "HTTP/1.0 " ++ reason ++ CRLF
  ++ cs "Content-Type: text/html" ++ CRLF
  ++ CRLF
  ++ cs "<html><body><h1><strong>" ++ reason
  ++ cs "</strong></h1><h2>Good Try!</h2><center><img src=" ++ [DQUOTE]
  ++ cs "https://www.dailydot.com/wp-content/uploads/2019/04/winnie-the-pooh-1024x512.jpg"
  ++ [DQUOTE] ++ cs "></center></html></body>".

(** The link of the specification for an entry: [/<entry>] at the root URI,
    [<uri>/<entry>] elsewhere. *)
Definition href (uri d_name : cstring) : cstring :=
  if streq uri (cs "/") then cs "/" ++ d_name else uri ++ cs "/" ++ d_name.

Definition not_dot (d_name : cstring) : bool := negb (streq d_name (cs ".")).

(** The listing of the specification: one item per entry other than [.],
    in the order of the scan. *)
Definition listing (uri : cstring) (entries : list cstring) : cstring :=
  concat (map (fun d => list_item (href uri d) d) (filter not_dot entries)).

(** The order of the specification for a listing: lexicographic, byte by
    byte, a name coming before every name it starts. *)
Inductive lexicographic : cstring -> cstring -> Prop :=
| lex_end (b : cstring) : lexicographic [] b
| lex_less (c1 c2 : ascii) (a b : cstring) :
    nat_of_ascii c1 < nat_of_ascii c2 -> lexicographic (c1 :: a) (c2 :: b)
| lex_same (c : ascii) (a b : cstring) :
    lexicographic a b -> lexicographic (c :: a) (c :: b).

(** The headers the lines of a header block give, one per line, up to the
    first blank line, the first line that does not parse, or the end of
    the stream. *)
Fixpoint collected_headers (chomp : cstring -> cstring) (lines : list cstring)
  : list Header :=
  match lines with
  | [] => []
  | l :: rest =>
      if 2 <? strlen (l ++ [NUL]) 0 then
        match parse_header_line chomp (l ++ [NUL]) with
        | Some h => h :: collected_headers chomp rest
        | None => []
        end
      else []
  end.

(** ** Paths *)

(** The pieces of [l] between the separators. *)
Fixpoint split_on (sep : ascii) (cur l : cstring) : list cstring :=
  match l with
  | [] => [cur]
  | c :: l' =>
      if Ascii.eqb c sep then cur :: split_on sep [] l'
      else split_on sep (cur ++ [c]) l'
  end.

(** The names a path is made of. *)
Definition path_components (p : cstring) : list cstring :=
  filter (fun c => negb (streq c [])) (split_on "/" [] p).

Fixpoint starts_with {A : Type} (eqb : A -> A -> bool) (pre l : list A) : bool :=
  match pre, l with
  | [], _ => true
  | _ :: _, [] => false
  | x :: pre', y :: l' => eqb x y && starts_with eqb pre' l'
  end.

(** [p] is [root] or lies below it: the names of [root] start those of
    [p]. *)
Definition descendant (root p : cstring) : bool :=
  starts_with streq (path_components root) (path_components p).

(** * A sample site

    A configuration and a small file system without symbolic links, to run
    the handlers on. *)

Module Sample.

Definition WHITESPACE : cstring := [" "; TAB; LF].

(** Drops the line terminators that end a string. *)
Fixpoint chomp (s : cstring) : cstring :=
  match s with
  | [] => []
  | c :: s' =>
      match chomp s' with
      | [] => if Ascii.eqb c CR || Ascii.eqb c LF then [] else [c]
      | t => c :: t
      end
  end.

Definition BUFSIZ : nat := 8 * 1024.
Definition RootPath : cstring := cs "/srv/www".
Definition MimeTypesPath : cstring := cs "/etc/mime.types".
Definition DefaultMimeType : cstring := cs "text/plain".

(** Each file: its path, its [st_mode], and its lines (the names it holds,
    for a directory, in the order in which the directory yields them). *)
Definition files : list (cstring * (Z * list cstring)) :=
  [ (cs "/srv/www",
      (0x41ED, [cs "notes"; cs "."; cs "index.html"; cs "locked.txt";
                cs "hello.cgi"; cs ".."; cs "archive.tar.gz"]))%Z;
    (cs "/srv/www/index.html", (0x81A4, [cs "<h1>Hello</h1>" ++ [LF]]))%Z;
    (cs "/srv/www/hello.cgi", (0x81ED, [cs "#!/bin/sh" ++ [LF]]))%Z;
    (cs "/srv/www/archive.tar.gz", (0x81A4, [cs "gzip"]))%Z;
    (cs "/srv/www/locked.txt", (0x8000, [cs "private" ++ [LF]]))%Z;
    (cs "/srv/www/notes", (0x41ED, [cs "."; cs ".."; cs "todo.txt"]))%Z;
    (cs "/srv/www/notes/todo.txt", (0x81A4, [cs "milk" ++ [LF]]))%Z;
    (cs "/srv/www-private", (0x41ED, [cs "."; cs ".."; cs "key.pem"]))%Z;
    (cs "/srv/www-private/key.pem", (0x81A4, [cs "secret" ++ [LF]]))%Z;
    (cs "/etc/mime.types",
      (0x81A4, [cs "# MIME types" ++ [LF];
                [LF];
                cs "text/html" ++ [TAB; TAB] ++ cs "html htm" ++ [LF];
                cs "application/gzip" ++ [TAB] ++ cs "gz" ++ [LF];
                cs "text/plain txt" ++ [LF]]))%Z ].

Fixpoint lookup (p : cstring) (l : list (cstring * (Z * list cstring)))
  : option (Z * list cstring) :=
  match l with
  | [] => None
  | (q, n) :: l' => if streq p q then Some n else lookup p l'
  end.

(** Names resolved from left to right: [.] stays, [..] goes up. *)
Fixpoint resolve (above : list cstring) (names : list cstring) : list cstring :=
  match names with
  | [] => rev above
  | n :: names' =>
      if streq n (cs ".") then resolve above names'
      else if streq n (cs "..") then resolve (tl above) names'
      else resolve (n :: above) names'
  end.

Definition canonical (p : cstring) : cstring :=
  match resolve [] (path_components p) with
  | [] => cs "/"
  | names => concat (map (fun n => "/" :: n) names)
  end.

Definition realpath (p : cstring) : option cstring :=
  match lookup (canonical p) files with
  | Some _ => Some (canonical p)
  | None => None
  end.

Definition stat (p : cstring) : option Z := option_map fst (lookup p files).

(** Execute permission for anyone. *)
Definition access_X_OK (p : cstring) : bool :=
  match lookup p files with
  | Some (m, _) => negb (Z.land m 0x49 =? 0)%Z
  | None => false
  end.

Definition readdir (p : cstring) : option (list cstring) :=
  match lookup p files with
  | Some (m, names) => if (S_ISDIR m =? 1)%Z then Some names else None
  | None => None
  end.

(** A regular file that someone may read. *)
Definition fopen (p : cstring) : option FILE_ :=
  match lookup p files with
  | Some (m, lines) =>
      if (S_ISREG m =? 1)%Z && negb (Z.land m 0x124 =? 0)%Z
      then Some (MkFILE lines []) else None
  | None => None
  end.

(** The script prints a complete response. *)
Definition popen (env : list (cstring * cstring)) (p : cstring) : option FILE_ :=
  if access_X_OK p then
    Some (MkFILE [cs "HTTP/1.0 200 OK" ++ CRLF;
                  cs "Content-Type: text/plain" ++ CRLF;
                  CRLF;
                  cs "hello" ++ [LF]] [])
  else None.

Definition indeterminate_mode : Z := 0.

(** A connection from 127.0.0.1:50000 that sends the given lines. *)
Definition connection (lines : list cstring) : Request :=
  accept_request (cs "127.0.0.1") (cs "50000") lines.

Definition determine_request_path' : cstring -> outcome (option cstring) :=
  determine_request_path BUFSIZ RootPath realpath.

Definition determine_mimetype' : cstring -> outcome cstring :=
  determine_mimetype WHITESPACE MimeTypesPath DefaultMimeType fopen.

Definition handle_request' : Request -> outcome (Status * Request) :=
  handle_request WHITESPACE chomp BUFSIZ RootPath MimeTypesPath DefaultMimeType
    realpath stat access_X_OK readdir fopen popen indeterminate_mode.

End Sample.

(** ** Tokens *)

(** A run of characters of a token: none is a delimiter (or [NUL]). *)
Definition token_chars (delim s : cstring) : Prop :=
  Forall (fun c => is_nul c = false /\ char_in c delim = false) s.

(** A run of delimiters. *)
Definition delim_chars (delim s : cstring) : Prop :=
  Forall (fun c => is_nul c = false /\ char_in c delim = true) s.

(** The bytes [tl] start with the terminator of a string. *)
Definition ends_string (tl : list ascii) : Prop :=
  match tl with
  | [] => True
  | c :: _ => c = NUL
  end.

(** The tokens of a string: its maximal runs of characters that are not
    delimiters, from left to right. *)
Fixpoint tokens_from (delim cur s : cstring) : list cstring :=
  match s with
  | [] => match cur with [] => [] | _ :: _ => [cur] end
  | c :: s' =>
      if char_in c delim then
        match cur with
        | [] => tokens_from delim [] s'
        | _ :: _ => cur :: tokens_from delim [] s'
        end
      else tokens_from delim (cur ++ [c]) s'
  end.

Definition tokens (delim s : cstring) : list cstring := tokens_from delim [] s.

(** Where [strtok] starts: at its argument, or at the saved pointer. *)
Definition strtok_start (str : option ptr) (st : tok_state) : ptr :=
  match str with
  | Some p => p
  | None => tok_save st
  end.

(** ** Mime types, as the specification words them *)

(** The last name of a path: what follows its last [/]. *)
Definition basename (path : cstring) : cstring :=
  last (split_on "/" [] path) [].

(** The extension: what follows the last [.] after the last [/], if there
    is a [.] there. *)
Definition spec_extension (path : cstring) : option cstring :=
  match rev (split_on "." [] (basename path)) with
  | ext :: _ :: _ => Some ext
  | _ => None
  end.

(** A rules line is neither a comment nor blank. *)
Definition rules_line (l : cstring) : bool :=
  negb (Ascii.eqb (hd NUL l) "#" || Ascii.eqb (hd NUL l) LF).

(** The line is a rule whose second token is [ext]. *)
Definition rule_for (WHITESPACE ext l : cstring) : bool :=
  rules_line l &&
  match tokens WHITESPACE (c_str l) with
  | _ :: e :: _ => streq e ext
  | _ => false
  end.

(** The mime type of a rule: its first token. *)
Definition rule_mimetype (WHITESPACE l : cstring) : option cstring :=
  hd_error (tokens WHITESPACE (c_str l)).

(** The mime type of the first rule for an extension. *)
Definition lookup_mimetype (WHITESPACE : cstring) (lines : list cstring)
  (ext : cstring) : option cstring :=
  match find (rule_for WHITESPACE ext) lines with
  | Some l => rule_mimetype WHITESPACE l
  | None => None
  end.

(** The content type of the specification: the default when the path has
    no extension, the rules file cannot be opened or no rule matches. *)
Definition spec_mimetype (WHITESPACE DefaultMimeType : cstring)
  (rules : option (list cstring)) (path : cstring) : cstring :=
  match spec_extension path, rules with
  | Some ext, Some lines =>
      match lookup_mimetype WHITESPACE lines ext with
      | Some m => m
      | None => DefaultMimeType
      end
  | _, _ => DefaultMimeType
  end.

(** The shape of a string under [strtok]: delimiters only; delimiters and
    a last token; or delimiters, a token, a delimiter and the rest. *)
Inductive token_view (delim s : cstring) : Prop :=
| NoToken :
    delim_chars delim s -> tokens delim s = [] -> token_view delim s
| LastToken (pre tok : cstring) :
    s = pre ++ tok -> delim_chars delim pre -> token_chars delim tok ->
    tok <> [] -> tokens delim s = [tok] -> token_view delim s
| MoreTokens (pre tok s' : cstring) (c : ascii) :
    s = pre ++ tok ++ c :: s' -> delim_chars delim pre ->
    token_chars delim tok -> tok <> [] ->
    is_nul c = false -> char_in c delim = true ->
    Forall (fun c => is_nul c = false) s' ->
    tokens delim s = tok :: tokens delim s' -> token_view delim s.

(** A value without the whitespace that starts it. *)
Definition trim_leading_whitespace (v : cstring) : cstring :=
  skipn (whitespace_run v) v.

(** * The rest of utils.c, the sequential server and the options *)

(** [skip_nonwhitespace] of utils.c: the loop advances while the byte
    pointed to is not a blank; it tests for a blank only, not for the
    terminator.  [blank_offset] is the
    distance to the first blank of the array, [None] when the scan leaves
    the array. *)
Fixpoint blank_offset (l : list ascii) : option nat :=
  match l with
  | [] => None
  | c :: l' => if Ascii.eqb c " " then Some 0 else option_map S (blank_offset l')
  end.

Definition skip_nonwhitespace (b : array) (s : ptr) : outcome ptr :=
  match blank_offset (from b s) with
  | Some n => Ret (s + n)
  | None => Undefined BufferOverflow      (* read past the end of the array *)
  end.

(** <stdlib.h> *)
Definition EXIT_SUCCESS : Z := 0.
Definition EXIT_FAILURE : Z := 1.

(** [fclose] on the stream of a connection: what the client receives.
    [accept_request] opens the stream with [fdopen(fd, "w+")], for reading
    and writing, and the program calls neither [fflush] nor a positioning
    function between its reads and its writes.  On such a stream <stdio.h>
    allows output after input only when the input met the end of the file.
    On a socket, what was written is flushed to the client when the reads
    have used up the input the stream holds, and is discarded when a read
    has left input behind in the buffer of the stream.  How much of the
    input still to come the stream had already taken into its buffer is
    not part of [FILE_], so with input left unread the result is [None]:
    the program does not determine what the client receives. *)
Definition fclose (f : FILE_) : option (list ascii) :=
  match pending f with
  | [] => Some (written f)
  | _ :: _ => None
  end.

(** [free_request] closes the stream and releases the request; what is
    left of it is what [fclose] sent to the client. *)
Definition free_request (r : Request) : option (list ascii) :=
  fclose (r_stream r).

Section Single.

Variable WHITESPACE : cstring.
Variable chomp : cstring -> cstring.
Variable BUFSIZ : nat.
Variables RootPath MimeTypesPath DefaultMimeType : cstring.
Variable realpath : cstring -> option cstring.
Variable stat : cstring -> option Z.
Variable access_X_OK : cstring -> bool.
Variable readdir : cstring -> option (list cstring).
Variable fopen : cstring -> option FILE_.
Variable popen : list (cstring * cstring) -> cstring -> option FILE_.
Variable indeterminate_mode : Z.

(** [single_server], run on the results of its successive
    [accept_request] calls ([None] for a null pointer).  The result is the
    exit status, [None] while the server is still waiting in [accept] for
    a connection the list does not hold, together with what the client of
    each connection received when it was closed, in the order of the
    connections. *)
Fixpoint single_server (accepted : list (option Request))
  : outcome (option Z * list (option (list ascii))) :=
  match accepted with
  | [] => Ret (None, [])
  | None :: _ => Ret (Some EXIT_FAILURE, [])
  | Some r :: later =>
      '(_, r) <- handle_request WHITESPACE chomp BUFSIZ RootPath MimeTypesPath
                   DefaultMimeType realpath stat access_X_OK readdir fopen
                   popen indeterminate_mode r ;;
      let sent := free_request r in
      '(status, served) <- single_server later ;;
      Ret (status, sent :: served)
  end.

End Single.

Module Options.

(** Modelled from the spec: the [ServerMode] enumeration of spidey.h, which
    is not among the sources: the two concurrency strategies. *)
Inductive ServerMode : Type := SINGLE | FORKING.

(** The globals of spidey.c that [parse_options] assigns, and the mode of
    [main].  A string may be a null pointer. *)
Record Globals : Type := MkGlobals {
  Port : option cstring;
  MimeTypesPath : option cstring;
  DefaultMimeType : option cstring;
  RootPath : option cstring;
  mode : ServerMode
}.

(** The initial values of the globals, and [mode] as [main] sets it. *)
Definition initial : Globals :=
  MkGlobals (Some (cs "9898")) (Some (cs "/etc/mime.types"))
    (Some (cs "text/plain")) (Some (cs "www")) SINGLE.

Definition set_Port (g : Globals) (v : option cstring) : Globals :=
  MkGlobals v (MimeTypesPath g) (DefaultMimeType g) (RootPath g) (mode g).
Definition set_MimeTypesPath (g : Globals) (v : option cstring) : Globals :=
  MkGlobals (Port g) v (DefaultMimeType g) (RootPath g) (mode g).
Definition set_DefaultMimeType (g : Globals) (v : option cstring) : Globals :=
  MkGlobals (Port g) (MimeTypesPath g) v (RootPath g) (mode g).
Definition set_RootPath (g : Globals) (v : option cstring) : Globals :=
  MkGlobals (Port g) (MimeTypesPath g) (DefaultMimeType g) v (mode g).
Definition set_mode (g : Globals) (m : ServerMode) : Globals :=
  MkGlobals (Port g) (MimeTypesPath g) (DefaultMimeType g) (RootPath g) m.

(** A call returns, or ends the process through [exit]. *)
Inductive ending (A : Type) : Type :=
| Returns (a : A)
| Exits (status : Z).

Arguments Returns {A} a.
Arguments Exits {A} status.

(** [usage] prints the help text and calls [exit]. *)
Definition usage {A : Type} (status : Z) : ending A := Exits status.

(** The test of the [while] loop on [argv[argind]]. *)
Definition is_option (arg : cstring) : bool :=
  (1 <? length arg) && Ascii.eqb (hd NUL arg) "-".

(** [parse_options], on [argv[argind]] ... [argv[argc - 1]]; the entry
    after the last is the null pointer [argv[argc]].  The loop reads
    [arg[1]] only. *)
Fixpoint parse_options (args : list cstring) (g : Globals)
  : outcome (ending (bool * Globals)) :=
  match args with
  | [] => Ret (Returns (true, g))
  | arg :: rest =>
      if is_option arg then
        let c := nth 1 arg NUL in
        if Ascii.eqb c "c" then
          match rest with
          | [] => Undefined NullArgument            (* strcmp(NULL, "single") *)
          | v :: rest' =>
              if streq v (cs "single") then parse_options rest' (set_mode g SINGLE)
              else if streq v (cs "forking") then
                parse_options rest' (set_mode g FORKING)
              else Ret (Returns (false, g))
          end
        else if Ascii.eqb c "h" then Ret (usage EXIT_SUCCESS)
        else if Ascii.eqb c "m" then
          match rest with
          | [] => Ret (Returns (true, set_MimeTypesPath g None))
          | v :: rest' => parse_options rest' (set_MimeTypesPath g (Some v))
          end
        else if Ascii.eqb c "M" then
          match rest with
          | [] => Ret (Returns (true, set_DefaultMimeType g None))
          | v :: rest' => parse_options rest' (set_DefaultMimeType g (Some v))
          end
        else if Ascii.eqb c "p" then
          match rest with
          | [] => Ret (Returns (true, set_Port g None))
          | v :: rest' => parse_options rest' (set_Port g (Some v))
          end
        else if Ascii.eqb c "r" then
          match rest with
          | [] => Ret (Returns (true, set_RootPath g None))
          | v :: rest' => parse_options rest' (set_RootPath g (Some v))
          end
        else Ret (Returns (false, g))
      else Ret (Returns (true, g))
  end.

(** One setting of the command line, the two arguments that spell it, and
    what it does to the globals. *)
Inductive setting : Type :=
| Mode (m : ServerMode)
| MimeTypes (path : cstring)
| DefaultMime (mimetype : cstring)
| ListenPort (port : cstring)
| Root (path : cstring).

Definition spell (s : setting) : list cstring :=
  match s with
  | Mode SINGLE => [cs "-c"; cs "single"]
  | Mode FORKING => [cs "-c"; cs "forking"]
  | MimeTypes path => [cs "-m"; path]
  | DefaultMime mimetype => [cs "-M"; mimetype]
  | ListenPort port => [cs "-p"; port]
  | Root path => [cs "-r"; path]
  end.

Definition apply (g : Globals) (s : setting) : Globals :=
  match s with
  | Mode m => set_mode g m
  | MimeTypes path => set_MimeTypesPath g (Some path)
  | DefaultMime mimetype => set_DefaultMimeType g (Some mimetype)
  | ListenPort port => set_Port g (Some port)
  | Root path => set_RootPath g (Some path)
  end.

End Options.

(** The characters [skip_whitespace] steps over. *)
Definition is_space (c : ascii) : bool :=
  Ascii.eqb c " " || Ascii.eqb c CR || Ascii.eqb c TAB || Ascii.eqb c LF.

(** What a parsing step keeps of a request: the client's address, the
    resolved path, and the bytes written; it reads the stream forward. *)
Definition only_reads (r r1 : Request) : Prop :=
  r_host r1 = r_host r /\ r_port r1 = r_port r /\ r_path r1 = r_path r
  /\ written (r_stream r1) = written (r_stream r)
  /\ exists consumed, pending (r_stream r) = consumed ++ pending (r_stream r1).

(** The lines a header block is made of: longer than a line terminator,
    and with a name and a value for [strtok] to find. *)
Definition header_lines (chomp : cstring -> cstring) (lines : list cstring)
  : Prop :=
  Forall (fun l => 2 < strlen (l ++ [NUL]) 0
                   /\ parse_header_line chomp (l ++ [NUL]) <> None) lines.


(** The two parts of a request target: what precedes its first [?], and
    what follows it. *)
Fixpoint before_question (t : cstring) : cstring :=
  match t with
  | [] => []
  | c :: t' => if Ascii.eqb c "?" then [] else c :: before_question t'
  end.

Fixpoint after_question (t : cstring) : cstring :=
  match t with
  | [] => []
  | c :: t' => if Ascii.eqb c "?" then t' else after_question t'
  end.

(** * Properties *)

(** Two lists that differ by the nesting of their concatenations. *)
Ltac list_shape :=
  repeat (rewrite <- ?app_assoc; cbn [app]); rewrite ?app_nil_r; reflexivity.

Ltac list_length :=
  rewrite ?length_app; cbn [length]; rewrite ?length_app; cbn [length]; lia.

(** ** Status strings and error responses *)

Lemma http_status_string_enum (s : Status) :
  http_status_string (Status_value s) = Some (status_line_of s).
Proof. destruct s; reflexivity. Qed.

Lemma http_status_string_cases (z : Z) :
  (exists s, z = Status_value s) \/ http_status_string z = None.
Proof.
  destruct z as [|p|p]; [left; exists HTTP_STATUS_OK; reflexivity | | right; reflexivity].
  destruct p as [p|p|]; [| | left; exists HTTP_STATUS_BAD_REQUEST; reflexivity].
  - destruct p as [p|p|]; [right; reflexivity| right; reflexivity|].
    left; exists HTTP_STATUS_INTERNAL_SERVER_ERROR; reflexivity.
  - destruct p as [p|p|]; [right; reflexivity| right; reflexivity|].
    left; exists HTTP_STATUS_NOT_FOUND; reflexivity.
Qed.

(** C10: [http_status_string] gives each of the four enumerated statuses
    its own fixed string, a null pointer to every other argument, and the
    fifth entry of the table, "418 I'm A Teapot", to no argument. *)
Theorem http_status_string_total :
  (http_status_string (Status_value HTTP_STATUS_OK) = Some (cs "200 OK")
   /\ http_status_string (Status_value HTTP_STATUS_BAD_REQUEST)
      = Some (cs "400 Bad Request")
   /\ http_status_string (Status_value HTTP_STATUS_NOT_FOUND)
      = Some (cs "404 Not Found")
   /\ http_status_string (Status_value HTTP_STATUS_INTERNAL_SERVER_ERROR)
      = Some (cs "500 Internal Server Error"))
  /\ (forall z : Z,
        http_status_string z = None <-> ~ exists s, z = Status_value s)
  /\ (forall z : Z, http_status_string z <> nth_error StatusStrings 4)
  /\ nth_error StatusStrings 4 = Some (cs "418 I'm A Teapot").
Proof.
  split; [repeat split|].
  split; [|split; [|reflexivity]].
  - intros z; split.
    + intros Hn [s ->]. rewrite http_status_string_enum in Hn. discriminate.
    + intros Hn. destruct (http_status_string_cases z) as [Hs|Hs]; [contradiction|exact Hs].
  - intros z. destruct (http_status_string_cases z) as [[s ->]|Hs].
    + rewrite http_status_string_enum. destruct s; discriminate.
    + rewrite Hs. discriminate.
Qed.

Lemma write_write (a b : cstring) (r : Request) :
  write b (write a r) = write (a ++ b) r.
Proof.
  unfold write, set_stream, fputs; simpl. now rewrite app_assoc.
Qed.

Lemma written_write (x : cstring) (r : Request) :
  written (r_stream (write x r)) = written (r_stream r) ++ x.
Proof. reflexivity. Qed.

Lemma handle_error_enum (r : Request) (s : Status) :
  handle_error r s = Ret (s, write (error_response (status_line_of s)) r).
Proof.
  unfold handle_error. rewrite http_status_string_enum. cbn [percent_s bind].
  rewrite !write_write. unfold error_response.
  do 2 f_equal. f_equal.
  repeat (rewrite <- ?app_assoc; cbn [app cs list_ascii_of_string]).
  reflexivity.
Qed.

(** C9: for each of BAD_REQUEST, NOT_FOUND and INTERNAL_SERVER_ERROR,
    [handle_error] returns the status it was given and adds to what the
    stream holds exactly this: the status line [HTTP/1.0 <code> <reason>]
    with the fixed reason phrase of the status, the header
    [Content-Type: text/html], a blank line, and an HTML body that names
    the status.  Nothing else of the request changes. *)
Theorem handle_error_response (r : Request) (status : Status) (reason : string)
  (Hstatus :
     In (status, reason)
       [(HTTP_STATUS_BAD_REQUEST, "400 Bad Request"%string);
        (HTTP_STATUS_NOT_FOUND, "404 Not Found"%string);
        (HTTP_STATUS_INTERNAL_SERVER_ERROR,
         "500 Internal Server Error"%string)]) :
  exists r',
    handle_error r status = Ret (status, r')
    /\ written (r_stream r')
       = written (r_stream r)
         ++ list_ascii_of_string "HTTP/1.0 " ++ list_ascii_of_string reason
         ++ ["013"; "010"]
         ++ list_ascii_of_string "Content-Type: text/html" ++ ["013"; "010"]
         ++ ["013"; "010"]
         ++ list_ascii_of_string "<html><body><h1><strong>"
         ++ list_ascii_of_string reason
         ++ list_ascii_of_string "</strong></h1><h2>Good Try!</h2>"
         ++ list_ascii_of_string "<center><img src=" ++ ["034"]
         ++ list_ascii_of_string
              "https://www.dailydot.com/wp-content/uploads/2019/04/winnie-the-pooh-1024x512.jpg"
         ++ ["034"] ++ list_ascii_of_string "></center></html></body>"
    /\ pending (r_stream r') = pending (r_stream r)
    /\ r_host r' = r_host r /\ r_port r' = r_port r
    /\ r_method r' = r_method r /\ r_uri r' = r_uri r
    /\ r_path r' = r_path r /\ r_query r' = r_query r
    /\ r_headers r' = r_headers r.
Proof.
  exists (write (error_response (status_line_of status)) r).
  split; [apply handle_error_enum|].
  split; [|repeat split].
  rewrite written_write. f_equal.
  destruct Hstatus as [E|[E|[E|[]]]]; injection E as <- <-; reflexivity.
Qed.

(** ** Directory listings *)

Lemma browse_entries_listing (uri : cstring) (entries : list cstring) :
  forall r, browse_entries uri entries r = write (listing uri entries) r.
Proof.
  induction entries as [|d rest IH]; intros r.
  - unfold listing, write, fputs, set_stream; simpl.
    rewrite app_nil_r. now destruct r as [? ? [? ?] ? ? ? ? ?].
  - cbn [browse_entries]. rewrite IH. unfold listing. cbn [filter].
    assert (Hh : href uri d = if streq uri (cs "/") then cs "/" ++ d
                              else uri ++ cs "/" ++ d) by reflexivity.
    unfold not_dot at 2.
    destruct (streq d (cs ".")), (streq uri (cs "/")); cbn [negb andb map concat];
      rewrite ?write_write, ?Hh; reflexivity.
Qed.

Lemma streq_true (a b : cstring) : streq a b = true <-> a = b.
Proof.
  unfold streq, streq_str. destruct (list_eq_dec ascii_dec a b); split; congruence.
Qed.

(** *** The order of a listing *)

Lemma lexicographic_trans (a b c : cstring) :
  lexicographic a b -> lexicographic b c -> lexicographic a c.
Proof.
  intros H1. revert c.
  induction H1 as [b|c1 c2 a b Hlt|x a b H IH]; intros c H2.
  - constructor.
  - inversion H2; subst.
    + apply lex_less. lia.
    + now apply lex_less.
  - inversion H2; subst.
    + now apply lex_less.
    + apply lex_same. now apply IH.
Qed.

Lemma lexicographic_antisym (a b : cstring) :
  lexicographic a b -> lexicographic b a -> a = b.
Proof.
  intros H1.
  induction H1 as [b|c1 c2 a b Hlt|x a b H IH]; intros H2.
  - now inversion H2.
  - inversion H2; subst; lia.
  - inversion H2; subst; [lia|]. f_equal. now apply IH.
Qed.

Lemma nat_of_ascii_inj (a b : ascii) : nat_of_ascii a = nat_of_ascii b -> a = b.
Proof.
  intros H. rewrite <- (ascii_nat_embedding a), <- (ascii_nat_embedding b).
  now f_equal.
Qed.

(** [strcmp] orders strings lexicographically. *)
Lemma strcmp_lexicographic (a b : cstring) :
  ~ In NUL a -> ~ In NUL b ->
  if (strcmp a b <=? 0)%Z then lexicographic a b else lexicographic b a.
Proof.
  revert b. induction a as [|x a IH]; intros [|y b] Ha Hb; cbn [strcmp].
  - constructor.
  - destruct (Z.leb_spec (0 - Z.of_nat (nat_of_ascii y)) 0); [constructor|lia].
  - destruct (Z.leb_spec (Z.of_nat (nat_of_ascii x)) 0); [|constructor].
    exfalso. apply Ha. left. symmetry. apply nat_of_ascii_inj. cbn. lia.
  - assert (Ha' : ~ In NUL a) by (intros H; apply Ha; now right).
    assert (Hb' : ~ In NUL b) by (intros H; apply Hb; now right).
    destruct (Ascii.eqb_spec x y) as [->|Hne].
    + specialize (IH b Ha' Hb').
      destruct (strcmp a b <=? 0)%Z; now apply lex_same.
    + assert (Hc : nat_of_ascii x <> nat_of_ascii y)
        by (intros E; apply Hne; now apply nat_of_ascii_inj).
      destruct (Z.leb_spec (Z.of_nat (nat_of_ascii x) - Z.of_nat (nat_of_ascii y)) 0);
        apply lex_less; lia.
Qed.

Lemma qsort_insert_permutation (compar : cstring -> cstring -> Z) (x : cstring)
  (l : list cstring) :
  Permutation (qsort_insert compar x l) (x :: l).
Proof.
  induction l as [|y l IH]; cbn [qsort_insert]; [reflexivity|].
  destruct (compar x y <=? 0)%Z; [reflexivity|].
  rewrite IH. apply perm_swap.
Qed.

Lemma qsort_permutation (compar : cstring -> cstring -> Z) (l : list cstring) :
  Permutation (qsort compar l) l.
Proof.
  induction l as [|x l IH]; cbn [qsort fold_right]; [reflexivity|].
  fold (qsort compar l). rewrite qsort_insert_permutation. now constructor.
Qed.

Lemma qsort_insert_sorted (x : cstring) (l : list cstring) :
  ~ In NUL x -> Forall (fun d => ~ In NUL d) l ->
  StronglySorted lexicographic l ->
  StronglySorted lexicographic (qsort_insert alphasort x l).
Proof.
  intros Hx Hl Hs. induction Hs as [|y l Hs IH Hy]; cbn [qsort_insert].
  - repeat constructor.
  - pose proof (strcmp_lexicographic x y Hx (Forall_inv Hl)) as Hc.
    unfold alphasort. destruct (strcmp x y <=? 0)%Z.
    + constructor; [now constructor|]. constructor; [exact Hc|].
      eapply Forall_impl; [|exact Hy]. intros z Hz.
      now apply (lexicographic_trans x y z).
    + constructor; [exact (IH (Forall_inv_tail Hl))|].
      apply (Permutation_Forall (Permutation_sym (qsort_insert_permutation _ x l))).
      now constructor.
Qed.

Lemma qsort_sorted (l : list cstring) :
  Forall (fun d => ~ In NUL d) l ->
  StronglySorted lexicographic (qsort alphasort l).
Proof.
  induction l as [|x l IH]; intros Hl; cbn [qsort fold_right]; [constructor|].
  fold (qsort alphasort l).
  apply qsort_insert_sorted;
    [exact (Forall_inv Hl)| |exact (IH (Forall_inv_tail Hl))].
  exact (Permutation_Forall (Permutation_sym (qsort_permutation _ l))
           (Forall_inv_tail Hl)).
Qed.

Lemma filter_sorted (f : cstring -> bool) (l : list cstring) :
  StronglySorted lexicographic l -> StronglySorted lexicographic (filter f l).
Proof.
  induction 1 as [|x l Hs IH Hx]; cbn [filter]; [constructor|].
  destruct (f x); [|exact IH].
  constructor; [exact IH|].
  rewrite Forall_forall in *. intros y Hy. apply Hx.
  now apply filter_In in Hy.
Qed.

Lemma filter_permutation (f : cstring -> bool) (l l' : list cstring) :
  Permutation l l' -> Permutation (filter f l) (filter f l').
Proof.
  induction 1 as [|x l l' H IH|x y l|l l' l'' H1 IH1 H2 IH2]; cbn [filter].
  - constructor.
  - destruct (f x); [now constructor|exact IH].
  - destruct (f x), (f y); try reflexivity. apply perm_swap.
  - now transitivity (filter f l').
Qed.

(** A list has one sorted arrangement. *)
Lemma sorted_permutation_unique (l1 l2 : list cstring) :
  StronglySorted lexicographic l1 -> StronglySorted lexicographic l2 ->
  Permutation l1 l2 -> l1 = l2.
Proof.
  intros H1. revert l2.
  induction H1 as [|x l1 Hs1 IH Hx]; intros l2 H2 Hp.
  - apply Permutation_nil in Hp. now subst.
  - destruct H2 as [|y l2 Hs2 Hy].
    + apply Permutation_sym, Permutation_nil in Hp. discriminate.
    + assert (Exy : x = y).
      { assert (Hin1 : In x (y :: l2))
          by (apply (Permutation_in _ Hp); now left).
        assert (Hin2 : In y (x :: l1))
          by (apply (Permutation_in _ (Permutation_sym Hp)); now left).
        destruct Hin1 as [E|Hin1]; [now symmetry|].
        destruct Hin2 as [E|Hin2]; [exact E|].
        rewrite Forall_forall in Hx, Hy.
        apply lexicographic_antisym; [now apply Hx|now apply Hy]. }
      subst y. f_equal. apply IH; [exact Hs2|].
      now apply Permutation_cons_inv in Hp.
Qed.

Section Browse.

Variable readdir : cstring -> option (list cstring).

(** What [scandir] with [alphasort] returns: the names of the directory in
    lexicographic order. *)
Lemma scandir_alphasort (path : cstring) (names : list cstring) :
  readdir path = Some names -> Forall (fun d => ~ In NUL d) names ->
  exists entries,
    scandir readdir path None (Some alphasort) = Some entries
    /\ Permutation entries names
    /\ StronglySorted lexicographic entries.
Proof.
  intros Hdir Hnames. exists (qsort alphasort names).
  unfold scandir. rewrite Hdir.
  split; [reflexivity|]. split; [apply qsort_permutation|].
  now apply qsort_sorted.
Qed.

(** C8: when the directory can be read, [handle_browse_request] returns OK
    and writes the 200 status line, the content type [text/html], a blank
    line and a list with one anchor for each entry of the directory other
    than [.], in lexicographic order of the names, whatever the order in
    which the directory yields them.  The link of an anchor is [/] and the
    name when the request URI is [/], so that it begins with one slash
    only, and the URI, [/] and the name otherwise.  Nothing else of the
    request changes. *)
Theorem handle_browse_request_listing
  (r : Request) (path uri : cstring) (names shown : list cstring)
  (Hpath : r_path r = Some path) (Huri : r_uri r = Some uri)
  (Hdir : readdir path = Some names)
  (Hnames : Forall (fun d => ~ In NUL d) names)
  (Hshown : Permutation shown
              (filter (fun d => if list_eq_dec ascii_dec d ["."]
                                then false else true) names))
  (Hsorted : StronglySorted lexicographic shown) :
  exists r',
    handle_browse_request readdir r = Ret (HTTP_STATUS_OK, r')
    /\ written (r_stream r')
       = written (r_stream r)
         ++ list_ascii_of_string "HTTP/1.0 200 OK" ++ ["013"; "010"]
         ++ list_ascii_of_string "Content-Type: text/html" ++ ["013"; "010"]
         ++ ["013"; "010"]
         ++ list_ascii_of_string "<ul>" ++ ["010"]
         ++ flat_map
              (fun d =>
                 list_ascii_of_string "<li><a href=" ++ ["034"]
                 ++ (if list_eq_dec ascii_dec uri ["/"]
                     then "/" :: d else uri ++ "/" :: d)
                 ++ ["034"] ++ list_ascii_of_string ">" ++ d
                 ++ list_ascii_of_string "</a></li>" ++ ["010"])
              shown
         ++ list_ascii_of_string "</ul>" ++ ["010"]
    /\ pending (r_stream r') = pending (r_stream r)
    /\ r_host r' = r_host r /\ r_port r' = r_port r
    /\ r_method r' = r_method r /\ r_uri r' = r_uri r
    /\ r_path r' = r_path r /\ r_query r' = r_query r
    /\ r_headers r' = r_headers r.
Proof.
  destruct (scandir_alphasort path names Hdir Hnames)
    as (entries & Hscan & Hperm & Hsort).
  assert (Hsame : filter not_dot entries = shown).
  { apply sorted_permutation_unique;
      [now apply filter_sorted|exact Hsorted|].
    rewrite Hshown. erewrite filter_ext; [apply filter_permutation, Hperm|].
    intros d. unfold not_dot, streq, streq_str.
    now destruct (list_eq_dec ascii_dec d (cs ".")), (list_eq_dec ascii_dec d ["."]). }
  assert (Hrun : handle_browse_request readdir r
                 = Ret (HTTP_STATUS_OK,
                        write (cs "HTTP/1.0 200 OK" ++ CRLF
                               ++ cs "Content-Type: text/html" ++ CRLF ++ CRLF
                               ++ cs "<ul>" ++ [LF]
                               ++ listing uri entries
                               ++ cs "</ul>" ++ [LF]) r)).
  { unfold handle_browse_request. rewrite Hpath. cbn [percent_s bind].
    rewrite Hscan, !write_write.
    assert (Hu : forall x, r_uri (write x r) = r_uri r) by reflexivity.
    rewrite Hu, Huri. cbn [percent_s bind].
    rewrite browse_entries_listing, !write_write. reflexivity. }
  eexists. split; [exact Hrun|].
  split; [|repeat split].
  rewrite written_write. f_equal. unfold listing. rewrite Hsame.
  rewrite <- flat_map_concat_map.
  erewrite flat_map_ext; [reflexivity|].
  intros d. unfold list_item, href, streq, streq_str.
  change (cs "/") with ["/"].
  destruct (list_eq_dec ascii_dec uri ["/"]); reflexivity.
Qed.

End Browse.

(** ** Headers *)

Section ParserFacts.

Variable chomp : cstring -> cstring.

(** The loop appends the headers it collects after the link [trailer]
    points to. *)
Lemma parse_headers_loop_collects (lines : list cstring) (written : list ascii) :
  forall trailer headers,
    length headers = trailer ->
    snd (parse_headers_loop chomp lines written trailer headers)
    = headers ++ collected_headers chomp lines.
Proof.
  induction lines as [|l rest IH]; intros trailer headers Hlen;
    cbn [parse_headers_loop collected_headers].
  - cbn. now rewrite app_nil_r.
  - destruct (2 <? strlen (l ++ [NUL]) 0); [|cbn; now rewrite app_nil_r].
    destruct (parse_header_line chomp (l ++ [NUL])) as [curr|];
      [|cbn; now rewrite app_nil_r].
    rewrite IH.
    + rewrite firstn_all2 by lia. now rewrite <- app_assoc.
    + rewrite length_app, firstn_all2 by lia. cbn. lia.
Qed.

(** C7: on a request as [accept_request] makes it (no header yet),
    [parse_request_headers] fails with -1 whenever the header block gives
    no header: at end of stream, at a blank line, and in general whenever
    the list is still empty after the loop; it returns 0 only with at least
    one header collected. *)
Theorem parse_request_headers_requires_header
  (r : Request) (Hnew : r_headers r = []) :
  (pending (r_stream r) = [] ->
   fst (parse_request_headers chomp r) = (-1)%Z)
  /\ (forall l rest,
        pending (r_stream r) = l :: rest -> strlen (l ++ [NUL]) 0 <= 2 ->
        fst (parse_request_headers chomp r) = (-1)%Z)
  /\ (collected_headers chomp (pending (r_stream r)) = [] ->
      fst (parse_request_headers chomp r) = (-1)%Z)
  /\ (fst (parse_request_headers chomp r) = 0%Z ->
      r_headers (snd (parse_request_headers chomp r))
      = collected_headers chomp (pending (r_stream r))
      /\ collected_headers chomp (pending (r_stream r)) <> [])
  /\ (fst (parse_request_headers chomp r) = 0%Z
      \/ fst (parse_request_headers chomp r) = (-1)%Z).
Proof.
  pose proof (parse_headers_loop_collects (pending (r_stream r))
                (written (r_stream r)) 0 [] eq_refl) as Hc.
  unfold parse_request_headers. rewrite Hnew.
  split; [|split; [|split; [|split]]].
  - intros ->. reflexivity.
  - intros l rest -> Hlen. cbn [parse_headers_loop].
    destruct (Nat.ltb_spec 2 (strlen (l ++ [NUL]) 0)); [lia|]. reflexivity.
  - destruct (parse_headers_loop _ _ _ _ _) as [[ended stream] headers].
    cbn in Hc. subst headers. intros ->.
    destruct ended; reflexivity.
  - destruct (parse_headers_loop _ _ _ _ _) as [[ended stream] headers].
    cbn in Hc. subst headers.
    destruct ended; cbn; [|discriminate].
    destruct (collected_headers chomp _); cbn; [discriminate|].
    intros _. split; [reflexivity|discriminate].
  - destruct (parse_headers_loop _ _ _ _ _) as [[ended stream] headers].
    destruct ended; cbn; [|now right].
    destruct headers; cbn; [now right|now left].
Qed.

End ParserFacts.

(** ** Path resolution *)

Lemma ascii_code_inj (a b : ascii) :
  (Z.of_nat (nat_of_ascii a) - Z.of_nat (nat_of_ascii b) = 0)%Z -> a = b.
Proof.
  intros H. rewrite <- (ascii_nat_embedding a), <- (ascii_nat_embedding b).
  f_equal. lia.
Qed.

Lemma is_nul_true (c : ascii) : is_nul c = true <-> c = NUL.
Proof. unfold is_nul. apply Ascii.eqb_eq. Qed.

Lemma is_nul_false (c : ascii) : is_nul c = false <-> c <> NUL.
Proof. unfold is_nul. apply Ascii.eqb_neq. Qed.

(** [strncmp] over the length of a C string is a prefix test. *)
Lemma strncmp_prefix (root : cstring) :
  ~ In NUL root ->
  forall path,
    strncmp root path (length root) = 0%Z <-> exists rest, path = root ++ rest.
Proof.
  induction root as [|c root IH]; intros Hnul path.
  - cbn. split; [intros _; now exists path|reflexivity].
  - assert (Hc : is_nul c = false) by (apply is_nul_false; intros ->; apply Hnul; now left).
    assert (Hroot : ~ In NUL root) by (intros Hi; apply Hnul; now right).
    cbn [length strncmp hd tl].
    destruct path as [|d path]; cbn [hd tl].
    + destruct (Ascii.eqb_spec c NUL) as [->|Hne].
      * discriminate.
      * split; [intros H; apply ascii_code_inj in H; contradiction|].
        intros [rest Hr]. discriminate.
    + destruct (Ascii.eqb_spec c d) as [<-|Hne].
      * rewrite Hc, (IH Hroot). split; intros [rest Hr]; exists rest.
        -- cbn. now f_equal.
        -- cbn in Hr. now injection Hr.
      * split; [intros H; apply ascii_code_inj in H; contradiction|].
        intros [rest Hr]. cbn in Hr. injection Hr as Hd _. congruence.
Qed.

(** Names of a path. *)
Lemma split_on_app (sep : ascii) (x y : cstring) :
  forall cur,
    split_on sep cur (x ++ sep :: y) = split_on sep cur x ++ split_on sep [] y.
Proof.
  induction x as [|c x IH]; intros cur; cbn [app split_on].
  - now rewrite Ascii.eqb_refl.
  - destruct (Ascii.eqb c sep); [now rewrite IH|apply IH].
Qed.

Lemma split_on_absent (sep : ascii) (a : cstring) :
  ~ In sep a -> forall cur, split_on sep cur a = [cur ++ a].
Proof.
  induction a as [|c a IH]; intros Hn cur; cbn.
  - now rewrite app_nil_r.
  - destruct (Ascii.eqb_spec c sep) as [->|Hne]; [exfalso; apply Hn; now left|].
    rewrite IH by (intros H; apply Hn; now right).
    now rewrite <- app_assoc.
Qed.

Lemma path_components_app (x y : cstring) :
  path_components (x ++ "/" :: y) = path_components x ++ path_components y.
Proof.
  unfold path_components. now rewrite split_on_app, filter_app.
Qed.

Lemma path_components_name (name : cstring) :
  name <> [] -> ~ In "/" name -> path_components name = [name].
Proof.
  intros Hne Hn. unfold path_components. rewrite (split_on_absent "/" name Hn).
  cbn. destruct name; [contradiction|reflexivity].
Qed.

Lemma starts_with_app (pre a b : list cstring) :
  starts_with streq (pre ++ a) (pre ++ b) = starts_with streq a b.
Proof.
  induction pre as [|x pre IH]; [reflexivity|].
  cbn [app starts_with]. rewrite IH.
  now rewrite (proj2 (streq_true x x) eq_refl).
Qed.

Section ResolverFacts.

Variable BUFSIZ : nat.
Variable RootPath : cstring.
Variable realpath : cstring -> option cstring.

Hypothesis RootPath_string : ~ In NUL RootPath.

(** What the test in [determine_request_path] is: a path that is returned
    is the real path of [RootPath] followed by the URI and begins with the
    characters of [RootPath]; when the real path does not begin with them,
    or there is none, the result is a null pointer (for a URI and a real
    path that fit the arrays). *)
Lemma determine_request_path_prefix (uri : cstring) :
  (forall path,
      determine_request_path BUFSIZ RootPath realpath uri = Ret (Some path) ->
      realpath (RootPath ++ uri) = Some path
      /\ exists rest, path = RootPath ++ rest)
  /\ (length RootPath + length uri < BUFSIZ ->
      realpath (RootPath ++ uri) = None ->
      determine_request_path BUFSIZ RootPath realpath uri = Ret None)
  /\ (forall path,
        length RootPath + length uri < BUFSIZ ->
        realpath (RootPath ++ uri) = Some path ->
        length path < BUFSIZ ->
        (~ exists rest, path = RootPath ++ rest) ->
        determine_request_path BUFSIZ RootPath realpath uri = Ret None).
Proof.
  unfold determine_request_path.
  split; [|split].
  - intros path.
    destruct (BUFSIZ <=? length RootPath + length uri); [discriminate|].
    destruct (realpath (RootPath ++ uri)) as [p|]; [|discriminate].
    destruct (BUFSIZ <=? length p); [discriminate|].
    destruct (Z.eqb_spec (strncmp RootPath p (length RootPath)) 0) as [E|E];
      [|discriminate].
    intros H. injection H as <-. split; [reflexivity|].
    now apply strncmp_prefix.
  - intros Hfit Hreal.
    destruct (Nat.leb_spec BUFSIZ (length RootPath + length uri)); [lia|].
    now rewrite Hreal.
  - intros path Hfit Hreal Hp Hout.
    destruct (Nat.leb_spec BUFSIZ (length RootPath + length uri)); [lia|].
    rewrite Hreal.
    destruct (Nat.leb_spec BUFSIZ (length path)); [lia|].
    destruct (Z.eqb_spec (strncmp RootPath path (length RootPath)) 0) as [E|E];
      [|reflexivity].
    apply strncmp_prefix in E; [contradiction|assumption].
Qed.

(** C1, where the code departs from it: the test compares characters, not
    names.  Whenever the last name of the root starts the name of another
    entry of the root's parent directory ([www] and [www-private], say), a
    URI that resolves to that entry or into it is not refused:
    [determine_request_path] returns the path although it lies outside
    the root. *)
Theorem determine_request_path_leaves_root
  (parent name more rest uri : cstring)
  (Hroot : RootPath = parent ++ "/" :: name)
  (Hname : name <> [] /\ ~ In "/" name)
  (Hmore : more <> [] /\ ~ In "/" more)
  (Hrest : rest = [] \/ exists inside, rest = "/" :: inside)
  (Hreal : realpath (RootPath ++ uri) = Some (RootPath ++ more ++ rest))
  (Hfit : length RootPath + length uri < BUFSIZ
          /\ length (RootPath ++ more ++ rest) < BUFSIZ) :
  determine_request_path BUFSIZ RootPath realpath uri
  = Ret (Some (RootPath ++ more ++ rest))
  /\ descendant RootPath (RootPath ++ more ++ rest) = false.
Proof.
  split.
  - unfold determine_request_path.
    destruct (Nat.leb_spec BUFSIZ (length RootPath + length uri)); [lia|].
    rewrite Hreal.
    destruct (Nat.leb_spec BUFSIZ (length (RootPath ++ more ++ rest))); [lia|].
    destruct (Z.eqb_spec (strncmp RootPath (RootPath ++ more ++ rest)
                            (length RootPath)) 0) as [E|E]; [reflexivity|].
    exfalso. apply E. apply strncmp_prefix; [assumption|].
    now exists (more ++ rest).
  - unfold descendant. rewrite Hroot.
    destruct Hname as [Hne Hns]. destruct Hmore as [Hme Hms].
    assert (Hlong : ~ In "/" (name ++ more)).
    { rewrite in_app_iff. tauto. }
    assert (Hpath : exists below,
               path_components ((parent ++ "/" :: name) ++ more ++ rest)
               = path_components parent ++ (name ++ more) :: below).
    { replace ((parent ++ "/" :: name) ++ more ++ rest)
        with (parent ++ "/" :: (name ++ more) ++ rest) by list_shape.
      rewrite path_components_app.
      destruct Hrest as [->|[inside ->]].
      - exists [].
        rewrite app_nil_r, (path_components_name (name ++ more));
          [reflexivity| |exact Hlong].
        destruct name; [contradiction|discriminate].
      - exists (path_components inside).
        rewrite path_components_app, (path_components_name (name ++ more));
          [reflexivity| |exact Hlong].
        destruct name; [contradiction|discriminate]. }
    destruct Hpath as [below ->].
    rewrite path_components_app, (path_components_name name Hne Hns).
    rewrite starts_with_app. cbn [starts_with].
    destruct (streq name (name ++ more)) eqn:E; [|reflexivity].
    apply streq_true in E. exfalso. apply Hme.
    apply (app_inv_head name). now rewrite app_nil_r, <- E.
Qed.

End ResolverFacts.

(** ** Dispatch *)

Lemma S_ISREG_not_DIR (m : Z) : S_ISREG m = 1%Z -> S_ISDIR m = 0%Z.
Proof.
  unfold S_ISREG, S_ISDIR.
  destruct (Z.eqb_spec (Z.land m S_IFMT) S_IFREG) as [->|]; [|discriminate].
  reflexivity.
Qed.

Section DispatchFacts.

Variable WHITESPACE : cstring.
Variable chomp : cstring -> cstring.
Variable BUFSIZ : nat.
Variables RootPath MimeTypesPath DefaultMimeType : cstring.
Variable realpath : cstring -> option cstring.
Variable stat : cstring -> option Z.
Variable access_X_OK : cstring -> bool.
Variable readdir : cstring -> option (list cstring).
Variable fopen : cstring -> option FILE_.
Variable popen : list (cstring * cstring) -> cstring -> option FILE_.
Variable indeterminate_mode : Z.

Local Abbreviation handle_request_ :=
  (handle_request WHITESPACE chomp BUFSIZ RootPath MimeTypesPath
     DefaultMimeType realpath stat access_X_OK readdir fopen popen
     indeterminate_mode).

(** The order of the tests in [handle_request]. *)
Lemma select_handler_order (path : cstring) (m : Z) :
  select_handler access_X_OK path m =
  if (S_ISDIR m =? 1)%Z then Browse
  else if access_X_OK path then Cgi
  else if (S_ISREG m =? 1)%Z then StaticFile
  else BadKind.
Proof. reflexivity. Qed.

(** C2: a resolved path that is a regular file the server may execute is
    handed to [handle_cgi_request], whatever its name, and the static-file
    handler is not run; the test for execute permission comes after the
    test for a directory and before the test for a regular file. *)
Theorem handle_request_executable_is_cgi
  (r r1 : Request) (uri path : cstring) (m : Z)
  (Hparse : parse_request WHITESPACE chomp r = Ret (0%Z, r1))
  (Huri : r_uri r1 = Some uri)
  (Hpath : determine_request_path BUFSIZ RootPath realpath uri = Ret (Some path))
  (Hstat : stat path = Some m)
  (Hreg : S_ISREG m = 1%Z)
  (Hexec : access_X_OK path = true) :
  select_handler access_X_OK path m = Cgi
  /\ handle_request_ r
     = (sr <- handle_cgi_request popen (set_path r1 (Some path)) ;;
        check_status sr)
  /\ (forall m', S_ISDIR m' = 1%Z -> select_handler access_X_OK path m' = Browse)
  /\ (forall path' m',
        select_handler access_X_OK path' m' = StaticFile ->
        access_X_OK path' = false /\ S_ISREG m' = 1%Z).
Proof.
  assert (Hsel : select_handler access_X_OK path m = Cgi).
  { unfold select_handler. rewrite (S_ISREG_not_DIR m Hreg), Hexec. reflexivity. }
  split; [exact Hsel|split; [|split]].
  - unfold handle_request. rewrite Hparse. cbn [bind Z.ltb Z.compare].
    rewrite Huri. cbn [percent_s bind]. rewrite Hpath. cbn [bind].
    rewrite Hstat. cbn [bind]. rewrite Hsel. reflexivity.
  - intros m' Hd. unfold select_handler. now rewrite Hd.
  - intros path' m'. unfold select_handler.
    destruct (S_ISDIR m' =? 1)%Z; [discriminate|].
    destruct (access_X_OK path'); [discriminate|].
    destruct (Z.eqb_spec (S_ISREG m') 1); [|discriminate].
    now split.
Qed.

End DispatchFacts.

(** ** Runs on the sample site *)

Lemma RootPath_is_string : ~ In NUL Sample.RootPath.
Proof. cbn. intuition discriminate. Qed.

Lemma determine_request_path_leaves_root_witness :
  determine_request_path Sample.BUFSIZ Sample.RootPath Sample.realpath
    (cs "/../www-private/key.pem")
  = Ret (Some (cs "/srv/www-private/key.pem"))
  /\ descendant Sample.RootPath (cs "/srv/www-private/key.pem") = false.
Proof.
  apply (determine_request_path_leaves_root Sample.BUFSIZ Sample.RootPath
           Sample.realpath RootPath_is_string
           (cs "/srv") (cs "www") (cs "-private") (cs "/key.pem")
           (cs "/../www-private/key.pem")).
  - reflexivity.
  - split; [discriminate|cbn; intuition discriminate].
  - split; [discriminate|cbn; intuition discriminate].
  - right. now exists (cs "key.pem").
  - vm_compute. reflexivity.
  - split; vm_compute; lia.
Defined.

Lemma handle_request_executable_is_cgi_witness :
  select_handler Sample.access_X_OK (cs "/srv/www/hello.cgi") 0x81ED = Cgi
  /\ Sample.handle_request'
       (Sample.connection [cs "GET /hello.cgi?x=1 HTTP/1.0" ++ CRLF;
                           cs "Host: localhost" ++ CRLF; CRLF])
     = (sr <- handle_cgi_request Sample.popen
                (set_path
                   (MkRequest (cs "127.0.0.1") (cs "50000") (MkFILE [] [])
                      (Some (cs "GET")) (Some (cs "/hello.cgi")) None
                      (Some (cs "x=1"))
                      [MkHeader (cs "Host") (cs "localhost")])
                   (Some (cs "/srv/www/hello.cgi"))) ;;
        check_status sr).
Proof.
  pose proof (handle_request_executable_is_cgi
                Sample.WHITESPACE Sample.chomp Sample.BUFSIZ Sample.RootPath
                Sample.MimeTypesPath Sample.DefaultMimeType Sample.realpath
                Sample.stat Sample.access_X_OK Sample.readdir Sample.fopen
                Sample.popen Sample.indeterminate_mode
                (Sample.connection [cs "GET /hello.cgi?x=1 HTTP/1.0" ++ CRLF;
                                    cs "Host: localhost" ++ CRLF; CRLF])
                (MkRequest (cs "127.0.0.1") (cs "50000") (MkFILE [] [])
                   (Some (cs "GET")) (Some (cs "/hello.cgi")) None
                   (Some (cs "x=1"))
                   [MkHeader (cs "Host") (cs "localhost")])
                (cs "/hello.cgi") (cs "/srv/www/hello.cgi") 0x81ED%Z
                ltac:(vm_compute; reflexivity) eq_refl
                ltac:(vm_compute; reflexivity) ltac:(vm_compute; reflexivity)
                eq_refl ltac:(vm_compute; reflexivity)) as H.
  exact (conj (proj1 H) (proj1 (proj2 H))).
Defined.

Lemma parse_request_headers_requires_header_witness :
  fst (parse_request_headers Sample.chomp
         (Sample.connection [CRLF; cs "Host: localhost" ++ CRLF]))
  = (-1)%Z.
Proof.
  apply (proj1 (proj2 (parse_request_headers_requires_header Sample.chomp
                         (Sample.connection [CRLF; cs "Host: localhost" ++ CRLF])
                         eq_refl)) CRLF [cs "Host: localhost" ++ CRLF]
           eq_refl).
  vm_compute. lia.
Defined.

Lemma handle_error_response_witness :
  exists r',
    handle_error (Sample.connection []) HTTP_STATUS_NOT_FOUND
    = Ret (HTTP_STATUS_NOT_FOUND, r')
    /\ written (r_stream r')
       = cs "HTTP/1.0 404 Not Found" ++ CRLF
         ++ cs "Content-Type: text/html" ++ CRLF
         ++ CRLF
         ++ cs "<html><body><h1><strong>404 Not Found</strong></h1>"
         ++ cs "<h2>Good Try!</h2><center><img src=" ++ [DQUOTE]
         ++ cs "https://www.dailydot.com/wp-content/uploads/2019/04/winnie-the-pooh-1024x512.jpg"
         ++ [DQUOTE] ++ cs "></center></html></body>".
Proof.
  destruct (handle_error_response (Sample.connection [])
              HTTP_STATUS_NOT_FOUND "404 Not Found"
              ltac:(right; left; reflexivity))
    as (r' & Hrun & Hwritten & _).
  exists r'. split; [exact Hrun|]. rewrite Hwritten. reflexivity.
Defined.

Lemma lexicographic_sample :
  StronglySorted lexicographic
    [cs ".."; cs "archive.tar.gz"; cs "hello.cgi"; cs "index.html";
     cs "locked.txt"; cs "notes"].
Proof.
  repeat constructor;
    repeat first [apply lex_end | apply lex_same | apply lex_less; cbn; lia].
Qed.

Lemma handle_browse_request_listing_witness :
  (exists r',
      handle_browse_request Sample.readdir
        (set_path (set_uri (Sample.connection []) (Some (cs "/")))
           (Some (cs "/srv/www")))
      = Ret (HTTP_STATUS_OK, r')
      /\ written (r_stream r')
         = cs "HTTP/1.0 200 OK" ++ CRLF
           ++ cs "Content-Type: text/html" ++ CRLF ++ CRLF
           ++ cs "<ul>" ++ [LF]
           ++ cs "<li><a href=" ++ [DQUOTE] ++ cs "/.." ++ [DQUOTE]
           ++ cs ">..</a></li>" ++ [LF]
           ++ cs "<li><a href=" ++ [DQUOTE] ++ cs "/archive.tar.gz" ++ [DQUOTE]
           ++ cs ">archive.tar.gz</a></li>" ++ [LF]
           ++ cs "<li><a href=" ++ [DQUOTE] ++ cs "/hello.cgi" ++ [DQUOTE]
           ++ cs ">hello.cgi</a></li>" ++ [LF]
           ++ cs "<li><a href=" ++ [DQUOTE] ++ cs "/index.html" ++ [DQUOTE]
           ++ cs ">index.html</a></li>" ++ [LF]
           ++ cs "<li><a href=" ++ [DQUOTE] ++ cs "/locked.txt" ++ [DQUOTE]
           ++ cs ">locked.txt</a></li>" ++ [LF]
           ++ cs "<li><a href=" ++ [DQUOTE] ++ cs "/notes" ++ [DQUOTE]
           ++ cs ">notes</a></li>" ++ [LF]
           ++ cs "</ul>" ++ [LF])
  /\ (exists r',
        handle_browse_request Sample.readdir
          (set_path (set_uri (Sample.connection []) (Some (cs "/notes")))
             (Some (cs "/srv/www/notes")))
        = Ret (HTTP_STATUS_OK, r')
        /\ written (r_stream r')
           = cs "HTTP/1.0 200 OK" ++ CRLF
             ++ cs "Content-Type: text/html" ++ CRLF ++ CRLF
             ++ cs "<ul>" ++ [LF]
             ++ cs "<li><a href=" ++ [DQUOTE] ++ cs "/notes/.." ++ [DQUOTE]
             ++ cs ">..</a></li>" ++ [LF]
             ++ cs "<li><a href=" ++ [DQUOTE] ++ cs "/notes/todo.txt"
             ++ [DQUOTE] ++ cs ">todo.txt</a></li>" ++ [LF]
             ++ cs "</ul>" ++ [LF]).
Proof.
  split.
  - destruct (handle_browse_request_listing Sample.readdir
                (set_path (set_uri (Sample.connection []) (Some (cs "/")))
                   (Some (cs "/srv/www")))
                (cs "/srv/www") (cs "/")
                [cs "notes"; cs "."; cs "index.html"; cs "locked.txt";
                 cs "hello.cgi"; cs ".."; cs "archive.tar.gz"]
                [cs ".."; cs "archive.tar.gz"; cs "hello.cgi"; cs "index.html";
                 cs "locked.txt"; cs "notes"]
                eq_refl eq_refl eq_refl
                ltac:(repeat constructor; cbn; intuition discriminate)
                (qsort_permutation alphasort
                   [cs "notes"; cs "index.html"; cs "locked.txt";
                    cs "hello.cgi"; cs ".."; cs "archive.tar.gz"])
                lexicographic_sample)
      as (r' & Hrun & Hwritten & _).
    exists r'. split; [exact Hrun|]. rewrite Hwritten. reflexivity.
  - destruct (handle_browse_request_listing Sample.readdir
                (set_path (set_uri (Sample.connection []) (Some (cs "/notes")))
                   (Some (cs "/srv/www/notes")))
                (cs "/srv/www/notes") (cs "/notes")
                [cs "."; cs ".."; cs "todo.txt"]
                [cs ".."; cs "todo.txt"]
                eq_refl eq_refl eq_refl
                ltac:(repeat constructor; cbn; intuition discriminate)
                (Permutation_refl _)
                ltac:(repeat constructor; apply lex_less; cbn; lia))
      as (r' & Hrun & Hwritten & _).
    exists r'. split; [exact Hrun|]. rewrite Hwritten. reflexivity.
Defined.

(** ** The C string functions *)

Lemma from_app (skip l : list ascii) : from (skip ++ l) (length skip) = l.
Proof. unfold from. induction skip; cbn; auto. Qed.

Lemma peek_app (skip l : list ascii) (k : nat) :
  peek (skip ++ l) (length skip + k) = peek l k.
Proof. unfold peek. induction skip; cbn; auto. Qed.

Lemma peek_app0 (skip l : list ascii) :
  peek (skip ++ l) (length skip) = peek l 0.
Proof. rewrite <- (Nat.add_0_r (length skip)). apply peek_app. Qed.

Lemma poke_app (skip l : list ascii) (c x : ascii) :
  poke (skip ++ c :: l) (length skip) x = skip ++ x :: l.
Proof.
  unfold poke. rewrite firstn_app, Nat.sub_diag, firstn_all, skipn_app.
  rewrite Nat.sub_diag, skipn_all. cbn. now rewrite app_nil_r.
Qed.

Lemma peek_end (tl : list ascii) : ends_string tl -> peek tl 0 = NUL.
Proof. destruct tl; cbn; auto. Qed.

Lemma strspn_app (delim pre tl : cstring) :
  delim_chars delim pre ->
  strspn (pre ++ tl) delim = length pre + strspn tl delim.
Proof.
  induction 1 as [|c pre [Hc Hd] _ IH]; cbn; [reflexivity|].
  now rewrite Hc, Hd, IH.
Qed.

Lemma strcspn_app (delim tok tl : cstring) :
  token_chars delim tok ->
  strcspn (tok ++ tl) delim = length tok + strcspn tl delim.
Proof.
  induction 1 as [|c tok [Hc Hd] _ IH]; cbn; [reflexivity|].
  now rewrite Hc, Hd, IH.
Qed.

Lemma strspn_end (delim tl : cstring) : ends_string tl -> strspn tl delim = 0.
Proof. destruct tl; cbn; [reflexivity|]. now intros ->. Qed.

Lemma strcspn_end (delim tl : cstring) : ends_string tl -> strcspn tl delim = 0.
Proof. destruct tl; cbn; [reflexivity|]. now intros ->. Qed.

Lemma strspn_token (delim tok tl : cstring) :
  token_chars delim tok -> tok <> [] -> strspn (tok ++ tl) delim = 0.
Proof.
  intros Ht Hne. destruct Ht as [|c tok [Hc Hd] _]; [contradiction|].
  cbn. now rewrite Hd, andb_false_r.
Qed.

Lemma c_str_app (s tl : list ascii) :
  Forall (fun c => is_nul c = false) s -> ends_string tl -> c_str (s ++ tl) = s.
Proof.
  induction 1 as [|c s Hc _ IH]; intros Htl; cbn.
  - destruct tl; cbn; [reflexivity|]. cbn in Htl. now subst.
  - now rewrite Hc, IH.
Qed.

Lemma token_chars_string (delim s : cstring) :
  token_chars delim s -> Forall (fun c => is_nul c = false) s.
Proof. apply Forall_impl. tauto. Qed.

Lemma delim_chars_string (delim s : cstring) :
  delim_chars delim s -> Forall (fun c => is_nul c = false) s.
Proof. apply Forall_impl. tauto. Qed.

Lemma str_at_app (skip s tl : list ascii) :
  Forall (fun c => is_nul c = false) s -> ends_string tl ->
  str_at (skip ++ s ++ tl) (length skip) = s.
Proof. intros. unfold str_at. rewrite from_app. now apply c_str_app. Qed.

(** [strtok] finds no token: only delimiters are left. *)
Lemma strtok_none (delim skip pre tl : list ascii) (str : option ptr) (sv : ptr) :
  delim_chars delim pre -> ends_string tl ->
  strtok_start str (TokState (skip ++ pre ++ tl) sv) = length skip ->
  strtok str delim (TokState (skip ++ pre ++ tl) sv)
  = (None, TokState (skip ++ pre ++ tl) (length skip + length pre)).
Proof.
  intros Hpre Htl Hs. unfold strtok. cbn [tok_buf].
  unfold strtok_start in Hs. rewrite Hs.
  rewrite from_app, (strspn_app delim pre tl Hpre), (strspn_end delim tl Htl).
  rewrite Nat.add_0_r, app_assoc, <- length_app, peek_app0, (peek_end tl Htl).
  reflexivity.
Qed.

(** [strtok] finds the last token of the string. *)
Lemma strtok_last (delim skip pre tok tl : list ascii) (str : option ptr) (sv : ptr) :
  delim_chars delim pre -> token_chars delim tok -> tok <> [] ->
  ends_string tl ->
  strtok_start str (TokState (skip ++ pre ++ tok ++ tl) sv) = length skip ->
  strtok str delim (TokState (skip ++ pre ++ tok ++ tl) sv)
  = (Some (length skip + length pre),
     TokState (skip ++ pre ++ tok ++ tl)
       (length skip + length pre + length tok)).
Proof.
  intros Hpre Htok Hne Htl Hs. unfold strtok. cbn [tok_buf].
  unfold strtok_start in Hs. rewrite Hs.
  rewrite from_app, (strspn_app delim pre _ Hpre), (strspn_token delim tok tl Htok Hne).
  rewrite Nat.add_0_r.
  replace (skip ++ pre ++ tok ++ tl) with ((skip ++ pre) ++ tok ++ tl)
    by now rewrite <- app_assoc.
  rewrite <- length_app, peek_app0, from_app.
  destruct tok as [|c tok]; [contradiction|].
  pose proof (Forall_inv Htok) as [Hc _].
  cbn [app peek nth]. rewrite Hc.
  change (c :: tok ++ tl) with ((c :: tok) ++ tl).
  rewrite (strcspn_app delim (c :: tok) tl Htok), (strcspn_end delim tl Htl).
  rewrite Nat.add_0_r.
  replace ((skip ++ pre) ++ (c :: tok) ++ tl)
    with (((skip ++ pre) ++ c :: tok) ++ tl) by now rewrite <- !app_assoc.
  rewrite <- length_app, peek_app0, (peek_end tl Htl). cbn [is_nul].
  rewrite !length_app. reflexivity.
Qed.

(** [strtok] finds a token that a delimiter follows: the delimiter is
    overwritten and the scan resumes after it. *)
Lemma strtok_more (delim skip pre tok tl : list ascii) (c : ascii)
  (str : option ptr) (sv : ptr) :
  delim_chars delim pre -> token_chars delim tok -> tok <> [] ->
  is_nul c = false -> char_in c delim = true ->
  strtok_start str (TokState (skip ++ pre ++ tok ++ c :: tl) sv) = length skip ->
  strtok str delim (TokState (skip ++ pre ++ tok ++ c :: tl) sv)
  = (Some (length skip + length pre),
     TokState (skip ++ pre ++ tok ++ NUL :: tl)
       (S (length skip + length pre + length tok))).
Proof.
  intros Hpre Htok Hne Hc Hd Hs. unfold strtok. cbn [tok_buf].
  unfold strtok_start in Hs. rewrite Hs.
  rewrite from_app, (strspn_app delim pre _ Hpre),
    (strspn_token delim tok (c :: tl) Htok Hne).
  rewrite Nat.add_0_r.
  replace (skip ++ pre ++ tok ++ c :: tl) with ((skip ++ pre) ++ tok ++ c :: tl)
    by now rewrite <- app_assoc.
  rewrite <- length_app, peek_app0, from_app.
  destruct tok as [|t tok]; [contradiction|].
  pose proof (Forall_inv Htok) as [Ht _].
  cbn [app peek nth]. rewrite Ht.
  change (t :: tok ++ c :: tl) with ((t :: tok) ++ c :: tl).
  rewrite (strcspn_app delim (t :: tok) (c :: tl) Htok).
  cbn [strcspn]. rewrite Hc, Hd. cbn [orb]. rewrite Nat.add_0_r.
  replace ((skip ++ pre) ++ (t :: tok) ++ c :: tl)
    with (((skip ++ pre) ++ t :: tok) ++ c :: tl) by now rewrite <- !app_assoc.
  rewrite <- length_app, peek_app0. cbn [peek nth]. rewrite Hc.
  rewrite poke_app, !length_app, <- !app_assoc. reflexivity.
Qed.

(** ** The request line *)

Lemma c_str_string (l : list ascii) : Forall (fun c => is_nul c = false) (c_str l).
Proof.
  induction l as [|c l IH]; cbn; [constructor|].
  destruct (is_nul c) eqn:E; constructor; assumption.
Qed.

(** The array [fgets] fills: the string read, its terminator, and what
    follows. *)
Lemma fgets_array (l : list ascii) :
  exists junk, l ++ [NUL] = c_str l ++ NUL :: junk.
Proof.
  induction l as [|c l [junk IH]]; cbn.
  - now exists [].
  - destruct (is_nul c) eqn:E.
    + apply is_nul_true in E. subst. now exists (l ++ [NUL]).
    + exists junk. now rewrite IH.
Qed.

Lemma index_of_found (c : ascii) (u tl : list ascii) :
  Forall (fun x => is_nul x = false /\ x <> c) u ->
  is_nul c = false ->
  index_of c (u ++ c :: tl) = Some (length u).
Proof.
  intros Hu Hc. induction Hu as [|x u [Hx Hne] _ IH]; cbn.
  - now rewrite Hc, Ascii.eqb_refl.
  - rewrite Hx. destruct (Ascii.eqb_spec x c); [contradiction|].
    now rewrite IH.
Qed.

Lemma index_of_absent (c : ascii) (u tl : list ascii) :
  Forall (fun x => is_nul x = false /\ x <> c) u ->
  ends_string tl ->
  index_of c (u ++ tl) = None.
Proof.
  intros Hu Htl. induction Hu as [|x u [Hx Hne] _ IH]; cbn.
  - destruct tl; cbn; [reflexivity|]. cbn in Htl. now subst.
  - rewrite Hx. destruct (Ascii.eqb_spec x c); [contradiction|].
    now rewrite IH.
Qed.

Section RequestLine.

Variable WHITESPACE : cstring.

Local Abbreviation parse_request_method_ := (parse_request_method WHITESPACE).


(** A line with a method and no request target: -1. *)
Lemma parse_request_method_no_target
  (r : Request) (l pre method post : cstring) (rest : list cstring) :
  pending (r_stream r) = l :: rest ->
  c_str l = pre ++ method ++ post ->
  delim_chars WHITESPACE pre -> token_chars WHITESPACE method -> method <> [] ->
  delim_chars WHITESPACE post ->
  parse_request_method_ r
  = Ret ((-1)%Z,
         set_method (set_stream r (MkFILE rest (written (r_stream r))))
           (Some method)).
Proof.
  intros Hl Hs Hpre Hm Hne Hpost.
  unfold parse_request_method, fgets. rewrite Hl.
  destruct (fgets_array l) as [junk ->]. rewrite Hs.
  destruct post as [|c post].
  - rewrite app_nil_r.
    pose proof (strtok_last WHITESPACE [] pre method (NUL :: junk) (Some 0) 0
                  Hpre Hm Hne eq_refl eq_refl) as H1.
    cbn [app length Nat.add] in H1. rewrite <- !app_assoc. rewrite H1.
    cbn [option_map strdup bind load tok_buf].
    pose proof (strtok_none WHITESPACE (pre ++ method) [] (NUL :: junk) None
                  (length pre + length method) (Forall_nil _) eq_refl) as H2.
    cbn [app] in H2. rewrite <- !app_assoc in H2. rewrite H2.
    2:{ cbn. now rewrite length_app. }
    pose proof (str_at_app pre method (NUL :: junk)
                  (token_chars_string _ _ Hm) eq_refl) as H3.
    rewrite H3. reflexivity.
  - pose proof (Forall_inv Hpost) as [Hc Hd].
    pose proof (Forall_inv_tail Hpost) as Hpost'.
    pose proof (strtok_more WHITESPACE [] pre method (post ++ NUL :: junk) c
                  (Some 0) 0 Hpre Hm Hne Hc Hd eq_refl) as H1.
    cbn [app length Nat.add] in H1. rewrite <- !app_assoc. cbn [app].
    rewrite H1. cbn [option_map strdup bind load tok_buf].
    pose proof (strtok_none WHITESPACE (pre ++ method ++ [NUL]) post
                  (NUL :: junk) None (S (length pre + length method))
                  Hpost' eq_refl) as H2.
    rewrite <- !app_assoc in H2. cbn [app] in H2. rewrite H2.
    2:{ cbn. rewrite !length_app. cbn. lia. }
    pose proof (str_at_app pre method (NUL :: post ++ NUL :: junk)
                  (token_chars_string _ _ Hm) eq_refl) as H3.
    rewrite H3. reflexivity.
Qed.

(** A first line made of whitespace only has no method token: [strtok]
    returns a null pointer and [strdup] is called on it. *)
Lemma parse_request_method_blank
  (r : Request) (l : cstring) (rest : list cstring)
  (Hline : pending (r_stream r) = l :: rest)
  (Hblank : delim_chars WHITESPACE (c_str l)) :
  parse_request_method_ r = Undefined NullArgument.
Proof.
  unfold parse_request_method, fgets. rewrite Hline.
  destruct (fgets_array l) as [junk ->].
  pose proof (strtok_none WHITESPACE [] (c_str l) (NUL :: junk) (Some 0) 0
                Hblank eq_refl eq_refl) as H1.
  cbn [app] in H1. rewrite H1. reflexivity.
Qed.

End RequestLine.

Lemma str_at_eq (b : list ascii) (p : nat) (skip s tl : list ascii) :
  b = skip ++ s ++ tl -> p = length skip ->
  Forall (fun c => is_nul c = false) s -> ends_string tl ->
  str_at b p = s.
Proof. intros -> ->. apply str_at_app. Qed.

Lemma poke_eq (b : list ascii) (p : nat) (skip l : list ascii) (c x : ascii) :
  b = skip ++ c :: l -> p = length skip -> poke b p x = skip ++ x :: l.
Proof. intros -> ->. apply poke_app. Qed.

Lemma strtok_none_at (delim b skip pre tl : list ascii) (str : option nat)
  (sv : nat) :
  b = skip ++ pre ++ tl ->
  delim_chars delim pre -> ends_string tl ->
  strtok_start str (TokState b sv) = length skip ->
  strtok str delim (TokState b sv)
  = (None, TokState b (length skip + length pre)).
Proof. intros ->. apply strtok_none. Qed.

Lemma strtok_last_at (delim b skip pre tok tl : list ascii) (str : option nat)
  (sv : nat) :
  b = skip ++ pre ++ tok ++ tl ->
  delim_chars delim pre -> token_chars delim tok -> tok <> [] ->
  ends_string tl ->
  strtok_start str (TokState b sv) = length skip ->
  strtok str delim (TokState b sv)
  = (Some (length skip + length pre),
     TokState b (length skip + length pre + length tok)).
Proof. intros ->. apply strtok_last. Qed.

Lemma strtok_more_at (delim b skip pre tok tl : list ascii) (c : ascii)
  (str : option nat) (sv : nat) :
  b = skip ++ pre ++ tok ++ c :: tl ->
  delim_chars delim pre -> token_chars delim tok -> tok <> [] ->
  is_nul c = false -> char_in c delim = true ->
  strtok_start str (TokState b sv) = length skip ->
  strtok str delim (TokState b sv)
  = (Some (length skip + length pre),
     TokState (skip ++ pre ++ tok ++ NUL :: tl)
       (S (length skip + length pre + length tok))).
Proof. intros ->. apply strtok_more. Qed.

Section RequestTarget.

Variable WHITESPACE : cstring.

Local Abbreviation parse_request_method_ := (parse_request_method WHITESPACE).

(** A request line [METHOD TARGET VERSION]: two tokens, each followed by a
    whitespace character, then the rest of the line. *)
Variables method target version : cstring.
Variables sp1 sp2 : ascii.

Hypothesis method_token : token_chars WHITESPACE method.
Hypothesis method_not_empty : method <> [].
Hypothesis target_token : token_chars WHITESPACE target.
Hypothesis target_not_empty : target <> [].
Hypothesis sp1_space : is_nul sp1 = false /\ char_in sp1 WHITESPACE = true.
Hypothesis sp2_space : is_nul sp2 = false /\ char_in sp2 WHITESPACE = true.

Variable r : Request.
Variable rest : list cstring.

Hypothesis first_line :
  pending (r_stream r) = (method ++ sp1 :: target ++ sp2 :: version) :: rest.

(** The state after the two [strtok] calls on the line. *)
Lemma request_line_tokens :
  exists junk,
    (method ++ sp1 :: target ++ sp2 :: version) ++ [NUL]
    = method ++ sp1 :: target ++ sp2 :: junk
    /\ strtok (Some 0) WHITESPACE
         (TokState (method ++ sp1 :: target ++ sp2 :: junk) 0)
       = (Some 0, TokState (method ++ NUL :: target ++ sp2 :: junk)
                    (S (length method)))
    /\ strtok None WHITESPACE
         (TokState (method ++ NUL :: target ++ sp2 :: junk) (S (length method)))
       = (Some (S (length method)),
          TokState (method ++ NUL :: target ++ NUL :: junk)
            (S (S (length method) + length target))).
Proof.
  exists (version ++ [NUL]). split; [|split].
  - now rewrite <- !app_assoc; cbn; rewrite <- !app_assoc.
  - destruct sp1_space as [Hc Hd].
    exact (strtok_more WHITESPACE [] [] method _ sp1 (Some 0) 0
             (Forall_nil _) method_token method_not_empty Hc Hd eq_refl).
  - destruct sp2_space as [Hc Hd].
    pose proof (strtok_more WHITESPACE (method ++ [NUL]) [] target
                  (version ++ [NUL]) sp2 None (S (length method))
                  (Forall_nil _) target_token target_not_empty Hc Hd) as H2.
    rewrite <- !app_assoc in H2. cbn [app] in H2.
    rewrite H2; [|cbn; rewrite length_app; cbn; lia].
    rewrite length_app. cbn [length]. rewrite !Nat.add_0_r, Nat.add_1_r.
    reflexivity.
Qed.

Lemma no_question_mark (u : cstring) :
  Forall (fun c => is_nul c = false) u -> ~ In "?" u ->
  Forall (fun x => is_nul x = false /\ x <> "?") u.
Proof.
  intros Hs Hq. rewrite Forall_forall in *. intros x Hx. split; [auto|].
  intros ->. contradiction.
Qed.

Lemma question_mark_token (u : cstring) :
  Forall (fun c => is_nul c = false) u -> ~ In "?" u -> token_chars ["?"] u.
Proof.
  intros Hs Hq. unfold token_chars. rewrite Forall_forall in *.
  intros x Hx. split; [auto|]. cbn. rewrite orb_false_r.
  apply Ascii.eqb_neq. intros ->. contradiction.
Qed.

(** A target without [?] is the URI, and the query is empty. *)
Lemma parse_request_method_no_query :
  ~ In "?" target ->
  parse_request_method_ r
  = Ret (0%Z,
         set_query
           (set_uri
              (set_method (set_stream r (MkFILE rest (written (r_stream r))))
                 (Some method))
              (Some target))
           (Some [])).
Proof.
  intros Hq. destruct request_line_tokens as (junk & Hb & H1 & H2).
  unfold parse_request_method, fgets. rewrite first_line, Hb, H1.
  cbn [option_map strdup bind load tok_buf].
  rewrite H2. cbn [tok_buf tok_save].
  pose proof (token_chars_string _ _ target_token) as Ht.
  pose proof (token_chars_string _ _ method_token) as Hm.
  assert (Hfrom : from (method ++ NUL :: target ++ NUL :: junk) (S (length method))
                  = target ++ NUL :: junk).
  { pose proof (from_app (method ++ [NUL]) (target ++ NUL :: junk)) as H.
    rewrite <- app_assoc, length_app in H. cbn in H.
    now rewrite Nat.add_1_r in H. }
  unfold strchr. rewrite Hfrom.
  rewrite (index_of_absent "?" target (NUL :: junk)
             (no_question_mark target Ht Hq) eq_refl).
  cbn [option_map strdup bind load tok_buf].
  pose proof (str_at_app [] method (NUL :: target ++ sp2 :: junk) Hm eq_refl) as H3.
  cbn [app length] in H3. rewrite H3.
  unfold str_at. rewrite Hfrom.
  rewrite (c_str_app target (NUL :: junk) Ht eq_refl). reflexivity.
Qed.

(** A target [u?q] with [u] not empty: the URI is what precedes the first
    [?] and the query all that follows it. *)
Lemma parse_request_method_query (u q : cstring) :
  target = u ++ "?" :: q -> ~ In "?" u -> u <> [] ->
  parse_request_method_ r
  = Ret (0%Z,
         set_query
           (set_uri
              (set_method (set_stream r (MkFILE rest (written (r_stream r))))
                 (Some method))
              (Some u))
           (Some q)).
Proof.
  intros Htarget Hq Hne. destruct request_line_tokens as (junk & Hb & H1 & H2).
  unfold parse_request_method, fgets. rewrite first_line, Hb, H1.
  cbn [option_map strdup bind load tok_buf].
  rewrite H2. cbn [tok_buf tok_save].
  pose proof (token_chars_string _ _ target_token) as Ht.
  pose proof (token_chars_string _ _ method_token) as Hm.
  pose proof (str_at_app [] method (NUL :: target ++ sp2 :: junk) Hm eq_refl) as H3.
  cbn [app length] in H3. rewrite H3. clear H3.
  rewrite Htarget in Ht |- *.
  assert (Hu : Forall (fun c => is_nul c = false) u)
    by (apply Forall_app in Ht; tauto).
  assert (Hqs : Forall (fun c => is_nul c = false) q).
  { apply Forall_app in Ht. destruct Ht as [_ Ht]. now inversion Ht. }
  assert (Hfrom : from (method ++ NUL :: (u ++ "?" :: q) ++ NUL :: junk)
                    (S (length method))
                  = u ++ "?" :: q ++ NUL :: junk).
  { pose proof (from_app (method ++ [NUL]) ((u ++ "?" :: q) ++ NUL :: junk)) as H.
    rewrite <- !app_assoc, length_app in H. cbn in H.
    rewrite Nat.add_1_r in H. now rewrite <- app_assoc. }
  unfold strchr. rewrite Hfrom.
  rewrite (index_of_found "?" u (q ++ NUL :: junk)
             (no_question_mark u Hu Hq) eq_refl).
  cbn [option_map].
  replace (method ++ NUL :: (u ++ "?" :: q) ++ NUL :: junk)
    with ((method ++ NUL :: u) ++ "?" :: q ++ NUL :: junk)
    by (repeat (rewrite <- ?app_assoc; cbn [app]); reflexivity).
  replace (S (length method) + length u) with (length (method ++ NUL :: u))
    by (rewrite length_app; cbn; lia).
  rewrite poke_app.
  pose proof (strtok_last ["?"] (method ++ [NUL]) [] u (NUL :: q ++ NUL :: junk)
                (Some (S (length method)))
                (S (S (length method) + length (u ++ "?" :: q)))
                (Forall_nil _) (question_mark_token u Hu Hq) Hne eq_refl) as H4.
  rewrite <- !app_assoc in H4. cbn [app] in H4.
  rewrite <- !app_assoc. cbn [app].
  rewrite H4; [|cbn; rewrite length_app; cbn; lia].
  cbn [option_map strdup bind load tok_buf].
  rewrite (str_at_eq _ _ (method ++ [NUL]) u (NUL :: q ++ NUL :: junk));
    [|list_shape|list_length|exact Hu|exact eq_refl].
  rewrite (str_at_eq _ _ (method ++ NUL :: u ++ [NUL]) q (NUL :: junk));
    [|list_shape|list_length|exact Hqs|exact eq_refl].
  reflexivity.
Qed.

(** C4, where the code departs from it: for a target that begins with
    [?], the text before the first [?] is empty, [strtok(uri, "?")] finds
    no token in it and returns a null pointer, and [strdup] is called on
    that pointer instead of storing an empty URI. *)
Theorem parse_request_method_empty_uri (q : cstring) :
  target = "?" :: q ->
  parse_request_method_ r = Undefined NullArgument.
Proof.
  intros Htarget. destruct request_line_tokens as (junk & Hb & H1 & H2).
  unfold parse_request_method, fgets. rewrite first_line, Hb, H1.
  cbn [option_map strdup bind load tok_buf].
  rewrite H2. cbn [tok_buf tok_save].
  rewrite Htarget.
  assert (Hfrom : from (method ++ NUL :: ("?" :: q) ++ NUL :: junk)
                    (S (length method))
                  = "?" :: q ++ NUL :: junk).
  { pose proof (from_app (method ++ [NUL]) (("?" :: q) ++ NUL :: junk)) as H.
    rewrite <- !app_assoc, length_app in H. cbn in H.
    now rewrite Nat.add_1_r in H. }
  assert (Hi : index_of "?" ("?" :: q ++ NUL :: junk) = Some 0) by reflexivity.
  unfold strchr. rewrite Hfrom, Hi. cbn [option_map].
  rewrite (poke_eq _ _ (method ++ [NUL]) (q ++ NUL :: junk) "?" NUL);
    [|list_shape|list_length].
  rewrite (strtok_none_at ["?"] _ (method ++ [NUL]) [] (NUL :: q ++ NUL :: junk));
    [|list_shape|constructor|exact eq_refl|cbn; list_length].
  reflexivity.
Qed.

End RequestTarget.

(** ** Tokens of a line *)

Lemma tokens_from_run (delim tok : cstring) :
  Forall (fun c => char_in c delim = false) tok ->
  forall cur rest,
    tokens_from delim cur (tok ++ rest) = tokens_from delim (cur ++ tok) rest.
Proof.
  induction 1 as [|c tok Hc _ IH]; intros cur rest; cbn.
  - now rewrite app_nil_r.
  - rewrite Hc, IH, <- app_assoc. reflexivity.
Qed.

Lemma tokens_delims (delim pre s : cstring) :
  delim_chars delim pre -> tokens delim (pre ++ s) = tokens delim s.
Proof.
  unfold tokens. induction 1 as [|c pre [_ Hd] _ IH]; cbn; [reflexivity|].
  now rewrite Hd.
Qed.

Lemma token_chars_not_delim (delim tok : cstring) :
  token_chars delim tok -> Forall (fun c => char_in c delim = false) tok.
Proof. apply Forall_impl. tauto. Qed.

Lemma tokens_last (delim tok : cstring) :
  token_chars delim tok -> tok <> [] -> tokens delim tok = [tok].
Proof.
  intros Ht Hne. unfold tokens.
  rewrite <- (app_nil_r tok) at 1.
  rewrite (tokens_from_run delim tok (token_chars_not_delim _ _ Ht)). cbn.
  destruct tok; [contradiction|reflexivity].
Qed.

Lemma tokens_more (delim tok s : cstring) (c : ascii) :
  token_chars delim tok -> tok <> [] -> char_in c delim = true ->
  tokens delim (tok ++ c :: s) = tok :: tokens delim s.
Proof.
  intros Ht Hne Hc. unfold tokens.
  rewrite (tokens_from_run delim tok (token_chars_not_delim _ _ Ht)). cbn.
  rewrite Hc. destruct tok; [contradiction|reflexivity].
Qed.

(** A string starts with a run of token characters that ends the string
    or stops at a delimiter. *)
Lemma token_run (delim s : cstring) :
  Forall (fun c => is_nul c = false) s ->
  exists tok rest,
    s = tok ++ rest /\ token_chars delim tok
    /\ (rest = []
        \/ exists c s', rest = c :: s' /\ is_nul c = false
                        /\ char_in c delim = true
                        /\ Forall (fun c => is_nul c = false) s').
Proof.
  induction 1 as [|c s Hc Hs (tok & rest & -> & Ht & Hrest)].
  - exists [], []. repeat split; [constructor|now left].
  - destruct (char_in c delim) eqn:Hd.
    + exists [], (c :: tok ++ rest). repeat split; [constructor|].
      right. exists c, (tok ++ rest). repeat split; assumption.
    + exists (c :: tok), rest. repeat split; [|exact Hrest].
      constructor; [now split|assumption].
Qed.

Lemma token_view_of (delim s : cstring) :
  Forall (fun c => is_nul c = false) s -> token_view delim s.
Proof.
  induction 1 as [|c s Hc Hs IH].
  - apply NoToken; [constructor|reflexivity].
  - destruct (char_in c delim) eqn:Hd.
    + assert (Hpre : forall pre, delim_chars delim pre -> delim_chars delim (c :: pre))
        by (intros pre Hp; constructor; [now split|exact Hp]).
      assert (Ht : tokens delim (c :: s) = tokens delim s)
        by (apply (tokens_delims delim [c] s); constructor; [now split|constructor]).
      destruct IH as [Hall Htok | pre tok -> Hp Htk Hne Htok
                     | pre tok s' d -> Hp Htk Hne Hd1 Hd2 Hs' Htok].
      * apply NoToken; [now apply Hpre|now rewrite Ht].
      * apply (LastToken delim _ (c :: pre) tok); auto. now rewrite Ht.
      * apply (MoreTokens delim _ (c :: pre) tok s' d); auto. now rewrite Ht.
    + destruct (token_run delim (c :: s)) as (tok & rest & Heq & Ht & Hrest);
        [now constructor|].
      assert (Hne : tok <> []).
      { intros ->. cbn in Heq. destruct Hrest as [->|(d & s' & -> & _ & Hd' & _)];
          [discriminate|]. injection Heq as <- _. congruence. }
      rewrite Heq.
      destruct Hrest as [->|(d & s' & -> & Hd1 & Hd2 & Hs')].
      * rewrite app_nil_r. apply (LastToken delim tok [] tok); auto; [constructor|].
        now apply tokens_last.
      * apply (MoreTokens delim _ [] tok s' d); auto; [constructor|].
        now apply tokens_more.
Qed.

(** ** Mime types *)

Lemma peek_line (l : list ascii) : peek (l ++ [NUL]) 0 = hd NUL l.
Proof. now destruct l. Qed.

Section MimeRules.

Variable WHITESPACE : cstring.

(** One line of the rules file: the mime type when the line is a rule for
    the extension, the next line otherwise. *)
Lemma scan_mimetypes_line (l : cstring) (rest : list cstring) (ext : cstring) :
  scan_mimetypes WHITESPACE (l :: rest) ext
  = if rule_for WHITESPACE ext l then Ret (rule_mimetype WHITESPACE l)
    else scan_mimetypes WHITESPACE rest ext.
Proof.
  cbn [scan_mimetypes]. unfold rule_for, rule_mimetype, rules_line.
  rewrite peek_line.
  destruct (Ascii.eqb (hd NUL l) "#" || Ascii.eqb (hd NUL l) LF); [reflexivity|].
  cbn [negb andb].
  destruct (fgets_array l) as [junk ->].
  pose proof (c_str_string l) as Hs.
  destruct (token_view_of WHITESPACE (c_str l) Hs)
    as [Hall Htok | pre tok Heq Hp Htk Hne Htok
       | pre tok s' d Heq Hp Htk Hne Hd1 Hd2 Hs' Htok]; rewrite Htok.
  - (* no token *)
    rewrite (strtok_none_at WHITESPACE _ [] (c_str l) (NUL :: junk));
      [|list_shape|exact Hall|exact eq_refl|reflexivity].
    rewrite (strtok_none_at WHITESPACE _ (c_str l) [] (NUL :: junk));
      [|list_shape|constructor|exact eq_refl|reflexivity].
    reflexivity.
  - (* one token *)
    rewrite Heq.
    rewrite (strtok_last_at WHITESPACE _ [] pre tok (NUL :: junk));
      [|list_shape|exact Hp|exact Htk|exact Hne|exact eq_refl|reflexivity].
    rewrite (strtok_none_at WHITESPACE _ (pre ++ tok) [] (NUL :: junk));
      [|list_shape|constructor|exact eq_refl|cbn; list_length].
    reflexivity.
  - (* a token and more *)
    rewrite Heq.
    rewrite (strtok_more_at WHITESPACE _ [] pre tok (s' ++ NUL :: junk) d);
      [|list_shape|exact Hp|exact Htk|exact Hne|exact Hd1|exact Hd2|reflexivity].
    cbn [app length Nat.add].
    assert (Hfirst :
      forall tl sv, strtok (Some 0) WHITESPACE
                      (TokState (pre ++ tok ++ NUL :: tl) sv)
                 = (Some (length pre),
                    TokState (pre ++ tok ++ NUL :: tl) (length pre + length tok))).
    { intros tl sv.
      rewrite (strtok_last_at WHITESPACE _ [] pre tok (NUL :: tl));
        [reflexivity|list_shape|exact Hp|exact Htk|exact Hne|exact eq_refl
        |reflexivity]. }
    destruct (token_view_of WHITESPACE s' Hs')
      as [Hall2 Htok2 | pre2 tok2 Heq2 Hp2 Htk2 Hne2 Htok2
         | pre2 tok2 s2 d2 Heq2 Hp2 Htk2 Hne2 Hd21 Hd22 Hs2 Htok2]; rewrite Htok2.
    + rewrite (strtok_none_at WHITESPACE _ (pre ++ tok ++ [NUL]) s' (NUL :: junk));
        [|list_shape|exact Hall2|exact eq_refl|cbn; list_length].
      reflexivity.
    + rewrite Heq2.
      rewrite (strtok_last_at WHITESPACE _ (pre ++ tok ++ [NUL]) pre2 tok2
                 (NUL :: junk));
        [|list_shape|exact Hp2|exact Htk2|exact Hne2|exact eq_refl
         |cbn; list_length].
      cbn [tok_buf].
      rewrite (str_at_eq _ _ (pre ++ tok ++ [NUL] ++ pre2) tok2 (NUL :: junk));
        [|list_shape|list_length|exact (token_chars_string _ _ Htk2)
         |exact eq_refl].
      destruct (streq tok2 ext); [|reflexivity].
      replace (pre ++ tok ++ NUL :: (pre2 ++ tok2) ++ NUL :: junk)
        with (pre ++ tok ++ NUL :: ((pre2 ++ tok2) ++ NUL :: junk)) by reflexivity.
      rewrite Hfirst. cbn [option_map strdup bind load tok_buf].
      rewrite (str_at_eq _ _ pre tok (NUL :: (pre2 ++ tok2) ++ NUL :: junk));
        [|list_shape|reflexivity|exact (token_chars_string _ _ Htk)
         |exact eq_refl].
      reflexivity.
    + rewrite Heq2.
      rewrite (strtok_more_at WHITESPACE _ (pre ++ tok ++ [NUL]) pre2 tok2
                 (s2 ++ NUL :: junk) d2);
        [|list_shape|exact Hp2|exact Htk2|exact Hne2|exact Hd21|exact Hd22
         |cbn; list_length].
      cbn [tok_buf].
      rewrite (str_at_eq _ _ (pre ++ tok ++ [NUL] ++ pre2) tok2
                 (NUL :: s2 ++ NUL :: junk));
        [|list_shape|list_length|exact (token_chars_string _ _ Htk2)
         |exact eq_refl].
      destruct (streq tok2 ext); [|reflexivity].
      replace ((pre ++ tok ++ [NUL]) ++ pre2 ++ tok2 ++ NUL :: s2 ++ NUL :: junk)
        with (pre ++ tok ++ NUL :: (pre2 ++ tok2 ++ NUL :: s2 ++ NUL :: junk))
        by list_shape.
      rewrite Hfirst. cbn [option_map strdup bind load tok_buf].
      rewrite (str_at_eq _ _ pre tok
                 (NUL :: pre2 ++ tok2 ++ NUL :: s2 ++ NUL :: junk));
        [|list_shape|reflexivity|exact (token_chars_string _ _ Htk)
         |exact eq_refl].
      reflexivity.
Qed.

(** The scan returns the mime type of the first rule for the extension. *)
Lemma scan_mimetypes_lookup (lines : list cstring) (ext : cstring) :
  scan_mimetypes WHITESPACE lines ext
  = Ret (lookup_mimetype WHITESPACE lines ext).
Proof.
  induction lines as [|l rest IH]; [reflexivity|].
  rewrite scan_mimetypes_line. unfold lookup_mimetype. cbn [find].
  destruct (rule_for WHITESPACE ext l); [reflexivity|exact IH].
Qed.

End MimeRules.

(** ** Extensions *)

Lemma in_split_last (x : ascii) (l : list ascii) :
  In x l -> exists l1 l2, l = l1 ++ x :: l2 /\ ~ In x l2.
Proof.
  induction l as [|y l IH]; [contradiction|].
  intros Hin.
  destruct (in_dec ascii_dec x l) as [Hl|Hl].
  - destruct (IH Hl) as (l1 & l2 & -> & Hn). now exists (y :: l1), l2.
  - destruct Hin as [->|Hin]; [|contradiction]. now exists [], l.
Qed.

Lemma in_split_first (x : ascii) (l : list ascii) :
  In x l -> exists l1 l2, l = l1 ++ x :: l2 /\ ~ In x l1.
Proof.
  induction l as [|y l IH]; [contradiction|].
  intros Hin.
  destruct (ascii_dec y x) as [->|Hne].
  - now exists [], l.
  - destruct Hin as [->|Hin]; [contradiction|].
    destruct (IH Hin) as (l1 & l2 & -> & Hn). exists (y :: l1), l2.
    split; [reflexivity|]. intros [H|H]; [congruence|contradiction].
Qed.

Lemma rindex_of_absent (c : ascii) (l : list ascii) :
  ~ In c l -> rindex_of c l = None.
Proof.
  induction l as [|x l IH]; intros Hn; cbn; [reflexivity|].
  destruct (is_nul x); [reflexivity|].
  rewrite IH by (intros H; apply Hn; now right).
  destruct (Ascii.eqb_spec x c) as [->|]; [|reflexivity].
  exfalso. apply Hn. now left.
Qed.

Lemma rindex_of_last (c : ascii) (l1 l2 : list ascii) :
  Forall (fun x => is_nul x = false) (l1 ++ c :: l2) -> ~ In c l2 ->
  rindex_of c (l1 ++ c :: l2) = Some (length l1).
Proof.
  intros Hs Hn. induction l1 as [|x l1 IH]; cbn in *.
  - rewrite (Forall_inv Hs), (rindex_of_absent c l2 Hn), Ascii.eqb_refl.
    reflexivity.
  - rewrite (Forall_inv Hs), (IH (Forall_inv_tail Hs)). reflexivity.
Qed.

Lemma split_on_first (sep : ascii) (a b : cstring) :
  ~ In sep a ->
  forall cur, split_on sep cur (a ++ sep :: b) = (cur ++ a) :: split_on sep [] b.
Proof.
  induction a as [|c a IH]; intros Hn cur; cbn.
  - now rewrite Ascii.eqb_refl, app_nil_r.
  - destruct (Ascii.eqb_spec c sep) as [->|Hne]; [exfalso; apply Hn; now left|].
    rewrite IH by (intros H; apply Hn; now right).
    now rewrite <- app_assoc.
Qed.

Lemma split_on_not_nil (sep : ascii) (l cur : cstring) : split_on sep cur l <> [].
Proof.
  revert cur. induction l as [|c l IH]; intros cur; cbn; [discriminate|].
  destruct (Ascii.eqb c sep); [discriminate|apply IH].
Qed.

Lemma last_split_on (sep : ascii) (x base d : cstring) :
  forall cur,
    last (split_on sep cur (x ++ sep :: base)) d = last (split_on sep [] base) d.
Proof.
  induction x as [|c x IH]; intros cur; cbn [app split_on].
  - rewrite Ascii.eqb_refl.
    pose proof (split_on_not_nil sep base []) as Hne.
    cbn [last]. destruct (split_on sep [] base); [contradiction|reflexivity].
  - destruct (Ascii.eqb c sep).
    + pose proof (split_on_not_nil sep (x ++ sep :: base) []) as Hne.
      cbn [last]. rewrite <- (IH []).
      destruct (split_on sep [] (x ++ sep :: base)); [contradiction|reflexivity].
    + apply IH.
Qed.

Lemma basename_last (dir base : cstring) :
  ~ In "/" base -> basename (dir ++ "/" :: base) = base.
Proof.
  intros Hn. unfold basename.
  rewrite last_split_on, (split_on_absent "/" base Hn). reflexivity.
Qed.

Lemma spec_extension_none (dir base : cstring) :
  ~ In "/" base -> ~ In "." base ->
  spec_extension (dir ++ "/" :: base) = None.
Proof.
  intros Hs Hd. unfold spec_extension.
  rewrite (basename_last dir base Hs), (split_on_absent "." base Hd).
  reflexivity.
Qed.

Lemma spec_extension_single (dir a e : cstring) :
  ~ In "/" (a ++ "." :: e) -> ~ In "." a -> ~ In "." e ->
  spec_extension (dir ++ "/" :: a ++ "." :: e) = Some e.
Proof.
  intros Hs Ha He. unfold spec_extension.
  rewrite (basename_last dir _ Hs), (split_on_first "." a e Ha),
    (split_on_absent "." e He).
  reflexivity.
Qed.

Lemma spec_extension_last (dir stem e : cstring) :
  ~ In "/" (stem ++ "." :: e) -> ~ In "." e ->
  spec_extension (dir ++ "/" :: stem ++ "." :: e) = Some e.
Proof.
  intros Hs He. unfold spec_extension.
  rewrite (basename_last dir _ Hs), split_on_app, (split_on_absent "." e He).
  rewrite rev_app_distr. cbn [rev app].
  pose proof (split_on_not_nil "." stem []) as Hne.
  destruct (split_on "." [] stem) as [|x l] using rev_ind; [contradiction|].
  now rewrite rev_app_distr.
Qed.

Section MimeFacts.

Variable WHITESPACE : cstring.
Variables MimeTypesPath DefaultMimeType : cstring.
Variable fopen : cstring -> option FILE_.

Local Abbreviation determine_mimetype_ :=
  (determine_mimetype WHITESPACE MimeTypesPath DefaultMimeType fopen).

(** No [.] after the last [/]: the default. *)
Lemma determine_mimetype_no_extension (dir base : cstring) :
  Forall (fun c => is_nul c = false) (dir ++ "/" :: base) ->
  ~ In "/" base -> ~ In "." base ->
  determine_mimetype_ (dir ++ "/" :: base) = Ret DefaultMimeType.
Proof.
  intros Hs Hn Hd. unfold determine_mimetype, strrchr, from. cbn [skipn].
  rewrite (rindex_of_last "/" dir base Hs Hn). cbn [option_map].
  rewrite Nat.add_0_l. unfold strchr.
  fold (from (dir ++ "/" :: base) (length dir)). rewrite from_app.
  assert (Hb : Forall (fun x => is_nul x = false /\ x <> ".") ("/" :: base)).
  { apply Forall_app in Hs. destruct Hs as [_ Hs].
    rewrite Forall_forall in *. intros x Hx. split; [auto|].
    intros ->. destruct Hx as [Hx|Hx]; [discriminate|contradiction]. }
  rewrite <- (app_nil_r ("/" :: base)).
  rewrite (index_of_absent "." _ [] Hb I). reflexivity.
Qed.

(** The extension the code looks up is what follows the first [.] after
    the last [/]. *)
Lemma determine_mimetype_first_dot (dir a e : cstring) :
  Forall (fun c => is_nul c = false) (dir ++ "/" :: a ++ "." :: e) ->
  ~ In "/" (a ++ "." :: e) -> ~ In "." a ->
  determine_mimetype_ (dir ++ "/" :: a ++ "." :: e)
  = Ret match fopen MimeTypesPath with
        | Some fs =>
            match lookup_mimetype WHITESPACE (pending fs) e with
            | Some m => m
            | None => DefaultMimeType
            end
        | None => DefaultMimeType
        end.
Proof.
  intros Hs Hn Hd. unfold determine_mimetype, strrchr, from. cbn [skipn].
  rewrite (rindex_of_last "/" dir _ Hs Hn). cbn [option_map].
  rewrite Nat.add_0_l. unfold strchr.
  fold (from (dir ++ "/" :: a ++ "." :: e) (length dir)). rewrite from_app.
  assert (Hb : Forall (fun x => is_nul x = false /\ x <> ".") ("/" :: a)).
  { apply Forall_app in Hs. destruct Hs as [_ Hs].
    change ("/" :: a ++ "." :: e) with (("/" :: a) ++ "." :: e) in Hs.
    apply Forall_app in Hs. destruct Hs as [Hs _].
    rewrite Forall_forall in *. intros x Hx. split; [auto|].
    intros ->. destruct Hx as [Hx|Hx]; [discriminate|contradiction]. }
  change ("/" :: a ++ "." :: e) with (("/" :: a) ++ "." :: e).
  rewrite (index_of_found "." _ e Hb eq_refl). cbn [option_map].
  destruct (fopen MimeTypesPath) as [fs|]; [|reflexivity].
  rewrite (str_at_eq _ _ (dir ++ "/" :: a ++ ["."]) e []);
    [|list_shape|list_length| |exact I].
  - rewrite scan_mimetypes_lookup. cbn [bind].
    destruct (lookup_mimetype WHITESPACE (pending fs) e); reflexivity.
  - replace (dir ++ "/" :: a ++ "." :: e) with ((dir ++ "/" :: a ++ ["."]) ++ e)
      in Hs by list_shape.
    apply Forall_app in Hs. tauto.
Qed.

(** Where the code agrees with the specification: on every path with a
    [/] whose last name has at most one [.]. *)
Lemma determine_mimetype_single_dot (path : cstring)
  (Hstring : ~ In NUL path)
  (Hslash : In "/" path)
  (Hdots : count_occ ascii_dec (basename path) "." <= 1) :
  determine_mimetype_ path
  = Ret (spec_mimetype WHITESPACE DefaultMimeType
           (option_map pending (fopen MimeTypesPath)) path).
Proof.
  destruct (in_split_last "/" path Hslash) as (dir & base & -> & Hn).
  rewrite (basename_last dir base Hn) in Hdots.
  assert (Hs : Forall (fun c => is_nul c = false) (dir ++ "/" :: base)).
  { rewrite Forall_forall. intros x Hx. apply is_nul_false. intros ->.
    contradiction. }
  unfold spec_mimetype.
  destruct (in_dec ascii_dec "." base) as [Hin|Hout].
  - destruct (in_split_first "." base Hin) as (a & e & -> & Ha).
    assert (He : ~ In "." e).
    { rewrite count_occ_app in Hdots. cbn in Hdots.
      destruct (ascii_dec "." "."); [|congruence].
      intros He. apply (count_occ_In ascii_dec) in He. lia. }
    rewrite (determine_mimetype_first_dot dir a e Hs Hn Ha).
    rewrite (spec_extension_single dir a e Hn Ha He).
    destruct (fopen MimeTypesPath) as [fs|]; reflexivity.
  - rewrite (determine_mimetype_no_extension dir base Hs Hn Hout).
    rewrite (spec_extension_none dir base Hn Hout). reflexivity.
Qed.

(** C5, where the code departs from it: the extension is found with
    [strchr] from the last [/], which stops at the first [.] of the last
    name, not at the last one.  For a name with two dots or more, such as
    [archive.tar.gz], the extension after the last [.] is [gz], but what
    is looked up in the rules is [tar.gz]: when the rules give a mime type
    to [gz] and none to [tar.gz], the specification answers with that mime
    type and [determine_mimetype] with the default. *)
Theorem determine_mimetype_not_last_dot
  (dir a m e t : cstring) (fs : FILE_)
  (Hstring : ~ In NUL (dir ++ "/" :: a ++ "." :: m ++ "." :: e))
  (Hbase : ~ In "/" (a ++ "." :: m ++ "." :: e))
  (Ha : ~ In "." a) (He : ~ In "." e)
  (Hopen : fopen MimeTypesPath = Some fs)
  (Hrule : lookup_mimetype WHITESPACE (pending fs) e = Some t)
  (Hnone : lookup_mimetype WHITESPACE (pending fs) (m ++ "." :: e) = None)
  (Hother : t <> DefaultMimeType) :
  spec_extension (dir ++ "/" :: a ++ "." :: m ++ "." :: e) = Some e
  /\ spec_mimetype WHITESPACE DefaultMimeType
       (option_map pending (fopen MimeTypesPath))
       (dir ++ "/" :: a ++ "." :: m ++ "." :: e)
     = t
  /\ determine_mimetype_ (dir ++ "/" :: a ++ "." :: m ++ "." :: e)
     = Ret DefaultMimeType
  /\ determine_mimetype_ (dir ++ "/" :: a ++ "." :: m ++ "." :: e)
     <> Ret (spec_mimetype WHITESPACE DefaultMimeType
               (option_map pending (fopen MimeTypesPath))
               (dir ++ "/" :: a ++ "." :: m ++ "." :: e)).
Proof.
  assert (Hext : spec_extension (dir ++ "/" :: a ++ "." :: m ++ "." :: e)
                 = Some e).
  { replace (a ++ "." :: m ++ "." :: e) with ((a ++ "." :: m) ++ "." :: e)
      in * by list_shape.
    apply spec_extension_last; assumption. }
  assert (Hspec : spec_mimetype WHITESPACE DefaultMimeType
                    (option_map pending (fopen MimeTypesPath))
                    (dir ++ "/" :: a ++ "." :: m ++ "." :: e) = t).
  { unfold spec_mimetype. rewrite Hext, Hopen. cbn [option_map].
    now rewrite Hrule. }
  assert (Hcode : determine_mimetype_ (dir ++ "/" :: a ++ "." :: m ++ "." :: e)
                  = Ret DefaultMimeType).
  { rewrite (determine_mimetype_first_dot dir a (m ++ "." :: e));
      [now rewrite Hopen, Hnone| |exact Hbase|exact Ha].
    rewrite Forall_forall. intros x Hx. apply is_nul_false. intros ->.
    contradiction. }
  split; [exact Hext|]. split; [exact Hspec|]. split; [exact Hcode|].
  rewrite Hcode, Hspec. intros E. injection E as E. now apply Hother.
Qed.

End MimeFacts.

(** ** Header lines *)

Section HeaderLines.

Variable chomp : cstring -> cstring.

(** A line without [:] gives no header: the loop leaves at [goto fail]. *)
Lemma parse_header_line_no_colon (l : cstring) :
  ~ In ":" (c_str l) -> parse_header_line chomp (l ++ [NUL]) = None.
Proof.
  intros Hn. unfold parse_header_line.
  destruct (fgets_array l) as [junk ->].
  pose proof (c_str_string l) as Hs.
  assert (Ht : token_chars [":"] (c_str l)).
  { unfold token_chars. rewrite Forall_forall in *. intros x Hx.
    split; [auto|]. cbn. rewrite orb_false_r. apply Ascii.eqb_neq.
    intros ->. contradiction. }
  destruct (c_str l) as [|c s] eqn:E.
  - rewrite (strtok_none_at [":"] _ [] [] (NUL :: junk));
      [reflexivity|list_shape|constructor|exact eq_refl|reflexivity].
  - rewrite (strtok_last_at [":"] _ [] [] (c :: s) (NUL :: junk));
      [|list_shape|constructor|exact Ht|discriminate|exact eq_refl|reflexivity].
    rewrite (strtok_none_at [":"] _ (c :: s) [] (NUL :: junk));
      [reflexivity|list_shape|constructor|exact eq_refl|cbn; list_length].
Qed.

(** The loop fails at a line without [:] that it reaches, and reads no
    further. *)
Lemma parse_headers_loop_no_colon (before : list cstring) (l : cstring)
  (rest : list cstring) (w : list ascii) :
  Forall (fun b => 2 < strlen (b ++ [NUL]) 0) before ->
  2 < strlen (l ++ [NUL]) 0 -> ~ In ":" (c_str l) ->
  forall trailer headers,
    fst (fst (parse_headers_loop chomp (before ++ l :: rest) w trailer headers))
    = false
    /\ (Forall (fun b => parse_header_line chomp (b ++ [NUL]) <> None) before ->
        snd (fst (parse_headers_loop chomp (before ++ l :: rest) w trailer
                    headers))
        = MkFILE rest w).
Proof.
  intros Hbefore Hlen Hn.
  induction Hbefore as [|b before Hb _ IH]; intros trailer headers;
    cbn [app parse_headers_loop].
  - destruct (Nat.ltb_spec 2 (strlen (l ++ [NUL]) 0)); [|lia].
    rewrite (parse_header_line_no_colon l Hn). now split.
  - destruct (Nat.ltb_spec 2 (strlen (b ++ [NUL]) 0)); [|lia].
    destruct (parse_header_line chomp (b ++ [NUL])) as [curr|] eqn:E.
    + destruct (IH (S trailer) (firstn trailer headers ++ [curr])) as [H1 H2].
      split; [exact H1|]. intros Hall. apply H2. exact (Forall_inv_tail Hall).
    + split; [reflexivity|]. intros Hall. now destruct (Forall_inv Hall).
Qed.

(** X4: a line of the header block that is longer than a line terminator
    and holds no [:] makes [parse_request_headers] return -1, wherever it
    stands in the block: as its first line or after any number of header
    lines.  When the lines before it are well-formed headers, the stream
    is left just after that line: nothing behind it is read. *)
Theorem parse_request_headers_no_colon (r : Request)
  (before : list cstring) (l : cstring) (rest : list cstring)
  (Hpending : pending (r_stream r) = before ++ l :: rest)
  (Hbefore : Forall (fun b => 2 < strlen (b ++ [NUL]) 0) before)
  (Hlen : 2 < strlen (l ++ [NUL]) 0)
  (Hcolon : ~ In ":" (c_str l)) :
  fst (parse_request_headers chomp r) = (-1)%Z
  /\ (Forall (fun b => parse_header_line chomp (b ++ [NUL]) <> None) before ->
      pending (r_stream (snd (parse_request_headers chomp r))) = rest).
Proof.
  destruct (parse_headers_loop_no_colon before l rest (written (r_stream r))
              Hbefore Hlen Hcolon 0 (r_headers r)) as [H1 H2].
  unfold parse_request_headers. rewrite Hpending.
  destruct (parse_headers_loop _ _ _ _ _) as [[ended stream] headers].
  cbn [fst snd] in H1, H2. subst ended. split; [reflexivity|].
  intros Hall. rewrite (H2 Hall). reflexivity.
Qed.

(** C3, where the code departs from it: the value is the second token cut
    out by [strtok(NULL, ":")], so it stops at the second [:] of the line,
    and a [:] that starts the line is skipped.  [Host: localhost:8888] is
    stored with the value [localhost], and [:a:b] as the header [a] with
    the value [b]. *)
Theorem parse_header_line_stops_at_second_colon :
  parse_header_line chomp (cs "Host: localhost:8888" ++ CRLF ++ [NUL])
  = Some (MkHeader (cs "Host") (chomp (cs "localhost")))
  /\ parse_header_line chomp (cs ":a:b" ++ CRLF ++ [NUL])
     = Some (MkHeader (cs "a") (chomp (cs "b" ++ CRLF)))
  /\ r_headers
       (snd (parse_request_headers chomp
               (accept_request (cs "127.0.0.1") (cs "50000")
                  [cs "Host: localhost:8888" ++ CRLF; CRLF])))
     = [MkHeader (cs "Host") (chomp (cs "localhost"))].
Proof. repeat split. Qed.

End HeaderLines.

(** ** Malformed request lines *)

Section MalformedFacts.

Variable WHITESPACE : cstring.
Variable chomp : cstring -> cstring.
Variable BUFSIZ : nat.
Variables RootPath MimeTypesPath DefaultMimeType : cstring.
Variable realpath : cstring -> option cstring.
Variable stat : cstring -> option Z.
Variable access_X_OK : cstring -> bool.
Variable readdir : cstring -> option (list cstring).
Variable fopen : cstring -> option FILE_.
Variable popen : list (cstring * cstring) -> cstring -> option FILE_.
Variable indeterminate_mode : Z.

Local Abbreviation handle_request_ :=
  (handle_request WHITESPACE chomp BUFSIZ RootPath MimeTypesPath
     DefaultMimeType realpath stat access_X_OK readdir fopen popen
     indeterminate_mode).

(** When [parse_request] fails, the answer is the 400 page. *)
Lemma handle_request_parse_failure (r r1 : Request) (ret : Z) :
  parse_request WHITESPACE chomp r = Ret (ret, r1) -> (ret < 0)%Z ->
  handle_request_ r
  = Ret (HTTP_STATUS_BAD_REQUEST,
         write (error_response (cs "400 Bad Request")) r1).
Proof.
  intros Hp Hret. unfold handle_request. rewrite Hp. cbn [bind].
  destruct (Z.ltb_spec ret 0); [|lia].
  rewrite (handle_error_enum r1 HTTP_STATUS_BAD_REQUEST). reflexivity.
Qed.


(** X8: on a first line that holds a method and no request target,
    [handle_request] returns BAD_REQUEST, and what it has written to the
    stream is exactly the 400 page.  The method has been stored, the line
    has been read and whatever follows it is left unread in the stream. *)
Theorem handle_request_no_target
  (r : Request) (l pre method post : cstring) (rest : list cstring)
  (Hline : pending (r_stream r) = l :: rest)
  (Hshape : c_str l = pre ++ method ++ post)
  (Hpre : delim_chars WHITESPACE pre)
  (Hmethod : token_chars WHITESPACE method /\ method <> [])
  (Hpost : delim_chars WHITESPACE post) :
  exists r',
    handle_request_ r = Ret (HTTP_STATUS_BAD_REQUEST, r')
    /\ written (r_stream r')
       = written (r_stream r) ++ error_response (cs "400 Bad Request")
    /\ pending (r_stream r') = rest
    /\ r_method r' = Some method
    /\ r_uri r' = r_uri r /\ r_query r' = r_query r
    /\ r_path r' = r_path r /\ r_headers r' = r_headers r
    /\ r_host r' = r_host r /\ r_port r' = r_port r.
Proof.
  destruct Hmethod as [Hm Hne].
  exists (write (error_response (cs "400 Bad Request"))
            (set_method (set_stream r (MkFILE rest (written (r_stream r))))
               (Some method))).
  split; [|repeat split].
  apply (handle_request_parse_failure r _ (-1)%Z); [|lia].
  unfold parse_request.
  now rewrite (parse_request_method_no_target WHITESPACE r l pre method post
                 rest Hline Hshape Hpre Hm Hne Hpost).
Qed.

(** C6, where the code departs from it: when the first line holds
    whitespace only (a bare line terminator, say), there is no method
    token, [strtok] returns a null pointer and [strdup] is called on it
    before the test that was meant to catch it; neither -1 nor a 400
    answer is produced. *)
Theorem handle_request_blank_line
  (r : Request) (l : cstring) (rest : list cstring)
  (Hline : pending (r_stream r) = l :: rest)
  (Hblank : delim_chars WHITESPACE (c_str l)) :
  parse_request_method WHITESPACE r = Undefined NullArgument
  /\ parse_request WHITESPACE chomp r = Undefined NullArgument
  /\ handle_request_ r = Undefined NullArgument.
Proof.
  pose proof (parse_request_method_blank WHITESPACE r l rest Hline Hblank) as H.
  split; [exact H|]. split.
  - unfold parse_request. now rewrite H.
  - unfold handle_request, parse_request. now rewrite H.
Qed.

End MalformedFacts.

(** ** More runs on the sample site *)

Lemma handle_request_blank_line_witness :
  Sample.handle_request' (Sample.connection [[LF]]) = Undefined NullArgument.
Proof.
  apply (handle_request_blank_line Sample.WHITESPACE Sample.chomp Sample.BUFSIZ
           Sample.RootPath Sample.MimeTypesPath Sample.DefaultMimeType
           Sample.realpath Sample.stat Sample.access_X_OK Sample.readdir
           Sample.fopen Sample.popen Sample.indeterminate_mode
           (Sample.connection [[LF]]) [LF] [] eq_refl).
  repeat constructor.
Defined.

Lemma parse_request_method_empty_uri_witness :
  parse_request_method Sample.WHITESPACE
    (Sample.connection [cs "GET ?a=b HTTP/1.0" ++ CRLF])
  = Undefined NullArgument.
Proof.
  apply (parse_request_method_empty_uri Sample.WHITESPACE
           (cs "GET") (cs "?a=b") (cs "HTTP/1.0" ++ CRLF) " " " "
           ltac:(repeat constructor) ltac:(discriminate)
           ltac:(repeat constructor) ltac:(discriminate)
           ltac:(repeat constructor) ltac:(repeat constructor)
           (Sample.connection [cs "GET ?a=b HTTP/1.0" ++ CRLF]) []
           eq_refl (cs "a=b") eq_refl).
Defined.

Lemma determine_mimetype_not_last_dot_witness :
  spec_extension (cs "/srv/www/archive.tar.gz") = Some (cs "gz")
  /\ spec_mimetype Sample.WHITESPACE Sample.DefaultMimeType
       (option_map pending (Sample.fopen Sample.MimeTypesPath))
       (cs "/srv/www/archive.tar.gz")
     = cs "application/gzip"
  /\ Sample.determine_mimetype' (cs "/srv/www/archive.tar.gz")
     = Ret (cs "text/plain").
Proof.
  destruct (determine_mimetype_not_last_dot Sample.WHITESPACE
              Sample.MimeTypesPath Sample.DefaultMimeType Sample.fopen
              (cs "/srv/www") (cs "archive") (cs "tar") (cs "gz")
              (cs "application/gzip")
              (MkFILE [cs "# MIME types" ++ [LF];
                       [LF];
                       cs "text/html" ++ [TAB; TAB] ++ cs "html htm" ++ [LF];
                       cs "application/gzip" ++ [TAB] ++ cs "gz" ++ [LF];
                       cs "text/plain txt" ++ [LF]] [])
              ltac:(cbn; intuition discriminate)
              ltac:(cbn; intuition discriminate)
              ltac:(cbn; intuition discriminate)
              ltac:(cbn; intuition discriminate)
              eq_refl eq_refl eq_refl ltac:(discriminate))
    as (H1 & H2 & H3 & _).
  exact (conj H1 (conj H2 H3)).
Defined.

(** ** What a header line is split into *)

Lemma whitespace_run_string (v tl : list ascii) :
  ends_string tl -> whitespace_run (v ++ tl) = whitespace_run v.
Proof.
  intros Htl. induction v as [|c v IH]; cbn.
  - destruct tl as [|x tl]; [reflexivity|]. cbn in Htl. subst. reflexivity.
  - now rewrite IH.
Qed.

Lemma whitespace_run_le (v : list ascii) : whitespace_run v <= length v.
Proof.
  induction v as [|c v IH]; cbn; [lia|].
  destruct (_ || _); cbn; lia.
Qed.

Lemma colon_free_token (s : cstring) :
  Forall (fun c => is_nul c = false) s -> ~ In ":" s -> token_chars [":"] s.
Proof.
  intros Hs Hn. unfold token_chars. rewrite Forall_forall in *.
  intros x Hx. split; [auto|]. cbn. rewrite orb_false_r.
  apply Ascii.eqb_neq. intros ->. contradiction.
Qed.

Section HeaderFields.

Variable chomp : cstring -> cstring.

(** X3: A line [name:value] or [name:value:more]: the header has the text
    before the first [:] as its name and, as its value, the text between
    the first [:] and the second (or the end of the line), without the
    whitespace that starts it and after [chomp]. *)
Lemma parse_header_line_fields (l name v more : cstring) :
  c_str l = name ++ ":" :: v ++ more ->
  name <> [] -> ~ In ":" name -> v <> [] -> ~ In ":" v ->
  (more = [] \/ exists more', more = ":" :: more') ->
  parse_header_line chomp (l ++ [NUL])
  = Some (MkHeader name (chomp (trim_leading_whitespace v))).
Proof.
  intros Hl Hname Hn Hv Hvn Hmore. unfold parse_header_line.
  destruct (fgets_array l) as [junk ->].
  pose proof (c_str_string l) as Hs. rewrite Hl in Hs |- *.
  apply Forall_app in Hs. destruct Hs as [Hsn Hs].
  apply Forall_inv_tail in Hs. apply Forall_app in Hs. destruct Hs as [Hsv Hsm].
  rewrite (strtok_more_at [":"] _ [] [] name (v ++ more ++ NUL :: junk) ":");
    [|list_shape|constructor|exact (colon_free_token name Hsn Hn)|exact Hname
     |reflexivity|reflexivity|reflexivity].
  cbn [app length Nat.add].
  assert (Hfin : forall tl, ends_string tl ->
            MkHeader (str_at (name ++ NUL :: v ++ tl) 0)
              (chomp (str_at (name ++ NUL :: v ++ tl)
                        (skip_whitespace (name ++ NUL :: v ++ tl)
                           (S (length name)))))
            = MkHeader name (chomp (trim_leading_whitespace v))).
  { intros tl Htl.
    assert (Hfrom : from (name ++ NUL :: v ++ tl) (S (length name)) = v ++ tl).
    { pose proof (from_app (name ++ [NUL]) (v ++ tl)) as H.
      rewrite <- app_assoc, length_app in H. cbn in H.
      now rewrite Nat.add_1_r in H. }
    unfold skip_whitespace. rewrite Hfrom, (whitespace_run_string v tl Htl).
    pose proof (whitespace_run_le v) as Hle.
    rewrite (str_at_eq _ 0 [] name (NUL :: v ++ tl));
      [|list_shape|reflexivity|exact Hsn|reflexivity].
    rewrite (str_at_eq _ _ (name ++ NUL :: firstn (whitespace_run v) v)
               (skipn (whitespace_run v) v) tl).
    - reflexivity.
    - rewrite <- (firstn_skipn (whitespace_run v) v) at 1. list_shape.
    - rewrite length_app. cbn [length]. rewrite length_firstn. lia.
    - rewrite <- (firstn_skipn (whitespace_run v) v) in Hsv.
      apply Forall_app in Hsv. tauto.
    - exact Htl. }
  assert (Hp : length (name ++ [NUL]) + length (@nil ascii) = S (length name))
    by list_length.
  destruct Hmore as [->|(more' & ->)].
  - rewrite (strtok_last_at [":"] _ (name ++ [NUL]) [] v (NUL :: junk));
      [|list_shape|constructor|exact (colon_free_token v Hsv Hvn)|exact Hv
       |reflexivity|cbn; list_length].
    cbn [tok_buf]. rewrite Hp. f_equal.
    exact (Hfin (NUL :: junk) eq_refl).
  - rewrite (strtok_more_at [":"] _ (name ++ [NUL]) [] v
               (more' ++ NUL :: junk) ":");
      [|list_shape|constructor|exact (colon_free_token v Hsv Hvn)|exact Hv
       |reflexivity|reflexivity|cbn; list_length].
    cbn [tok_buf]. rewrite Hp. f_equal.
    replace ((name ++ [NUL]) ++ [] ++ v ++ NUL :: more' ++ NUL :: junk)
      with (name ++ NUL :: v ++ NUL :: more' ++ NUL :: junk) by list_shape.
    exact (Hfin (NUL :: more' ++ NUL :: junk) eq_refl).
Qed.

End HeaderFields.

(** ** Command-line options *)

Module OptionsFacts.

Import Options.

(** The two arguments of a setting are consumed and the setting applied;
    the scan goes on with what follows. *)
Lemma parse_options_spell (s : setting) (rest : list cstring) (g : Globals) :
  parse_options (spell s ++ rest) g = parse_options rest (apply g s).
Proof. destruct s as [[|]| | | |]; reflexivity. Qed.

Lemma parse_options_settings (settings : list setting) (tail : list cstring) :
  forall g,
    parse_options (concat (map spell settings) ++ tail) g
    = parse_options tail (fold_left apply settings g).
Proof.
  induction settings as [|s settings IH]; intros g; [reflexivity|].
  cbn [map concat fold_left]. rewrite <- app_assoc, parse_options_spell.
  apply IH.
Qed.

(** X22: Settings spelled on the command line are all accepted and applied
    from left to right, a later one overriding an earlier one; the scan
    stops at the first argument that is not an option (a single character
    or no leading [-]), and neither it nor what follows it is looked
    at. *)
Theorem parse_options_accepts_settings
  (settings : list setting) (tail : list cstring) (g : Globals)
  (Htail : match tail with [] => True | a :: _ => is_option a = false end) :
  parse_options (concat (map spell settings) ++ tail) g
  = Ret (Returns (true, fold_left apply settings g)).
Proof.
  rewrite parse_options_settings.
  destruct tail as [|a t]; [reflexivity|]. cbn [parse_options].
  now rewrite Htail.
Qed.

(** X23: An option that ends the command line without its value: for [-m],
    [-M], [-p] and [-r] the global becomes the null pointer [argv[argc]]
    and the command line is accepted; for [-c] the null pointer is
    compared with [strcmp]. *)
Theorem parse_options_missing_value (settings : list setting) (g : Globals) :
  parse_options (concat (map spell settings) ++ [cs "-m"]) g
  = Ret (Returns (true, set_MimeTypesPath (fold_left apply settings g) None))
  /\ parse_options (concat (map spell settings) ++ [cs "-M"]) g
     = Ret (Returns (true, set_DefaultMimeType (fold_left apply settings g) None))
  /\ parse_options (concat (map spell settings) ++ [cs "-p"]) g
     = Ret (Returns (true, set_Port (fold_left apply settings g) None))
  /\ parse_options (concat (map spell settings) ++ [cs "-r"]) g
     = Ret (Returns (true, set_RootPath (fold_left apply settings g) None))
  /\ parse_options (concat (map spell settings) ++ [cs "-c"]) g
     = Undefined NullArgument.
Proof. rewrite !parse_options_settings. repeat split. Qed.

(** The letters [parse_options] knows. *)
Lemma unknown_letter (c : ascii) :
  ~ In c ["c"; "h"; "m"; "M"; "p"; "r"] ->
  Ascii.eqb c "c" = false /\ Ascii.eqb c "h" = false /\ Ascii.eqb c "m" = false
  /\ Ascii.eqb c "M" = false /\ Ascii.eqb c "p" = false
  /\ Ascii.eqb c "r" = false.
Proof.
  intros H. repeat split; apply Ascii.eqb_neq; intros ->; apply H; cbn; tauto.
Qed.

(** X24: A command line is refused at the first option whose letter is not
    known, and at a [-c] whose value is neither [single] nor [forking];
    [-h] ends the process with [EXIT_SUCCESS].  In each case the settings
    before it have already been assigned to the globals and what follows
    is not looked at. *)
Theorem parse_options_stops (settings : list setting) (arg : cstring)
  (rest : list cstring) (g : Globals)
  (Hoption : is_option arg = true) :
  (~ In (nth 1 arg NUL) ["c"; "h"; "m"; "M"; "p"; "r"] ->
   parse_options (concat (map spell settings) ++ arg :: rest) g
   = Ret (Returns (false, fold_left apply settings g)))
  /\ (forall v rest',
        nth 1 arg NUL = "c" -> rest = v :: rest' ->
        v <> cs "single" -> v <> cs "forking" ->
        parse_options (concat (map spell settings) ++ arg :: rest) g
        = Ret (Returns (false, fold_left apply settings g)))
  /\ (nth 1 arg NUL = "h" ->
      parse_options (concat (map spell settings) ++ arg :: rest) g
      = Ret (Exits EXIT_SUCCESS)).
Proof.
  rewrite parse_options_settings. cbn [parse_options]. rewrite Hoption.
  split; [|split].
  - intros Hc. destruct (unknown_letter _ Hc) as (-> & -> & -> & -> & -> & ->).
    reflexivity.
  - intros v rest' -> -> Hs Hf. cbn [Ascii.eqb Bool.eqb].
    destruct (streq v (cs "single")) eqn:E1; [apply streq_true in E1; contradiction|].
    destruct (streq v (cs "forking")) eqn:E2; [apply streq_true in E2; contradiction|].
    reflexivity.
  - intros ->. reflexivity.
Qed.

End OptionsFacts.

(** ** Skipping characters *)

Lemma peek_from (b : list ascii) (s k : nat) :
  nth k (from b s) NUL = peek b (s + k).
Proof.
  unfold from, peek. revert b. induction s as [|s IH]; intros b; cbn.
  - reflexivity.
  - destruct b as [|c b]; cbn; [now destruct k|apply IH].
Qed.

Lemma whitespace_run_spec (l : list ascii) :
  (forall k, k < whitespace_run l -> is_space (nth k l NUL) = true)
  /\ is_space (nth (whitespace_run l) l NUL) = false
  /\ whitespace_run l <= length (c_str l).
Proof.
  induction l as [|c l (IH1 & IH2 & IH3)]; cbn [whitespace_run].
  - repeat split; [intros k Hk; inversion Hk|cbn; lia].
  - fold (is_space c). destruct (is_space c) eqn:E.
    + repeat split.
      * intros [|k] Hk; cbn; [exact E|apply IH1; lia].
      * exact IH2.
      * cbn [c_str]. destruct (is_nul c) eqn:En.
        -- apply is_nul_true in En. subst. discriminate.
        -- cbn. lia.
    + repeat split; [intros k Hk; inversion Hk|exact E|lia].
Qed.

(** X9: [skip_whitespace] returns the first position at or after [s] whose
    character is not a blank, carriage return, tab or line feed: all that
    it steps over is whitespace, what it stops at is not, it does not go
    past the terminator of the string, and applied again it stays
    there. *)
Theorem skip_whitespace_first_non_space (b : list ascii) (s : nat) :
  s <= skip_whitespace b s
  /\ (forall i, s <= i -> i < skip_whitespace b s -> is_space (peek b i) = true)
  /\ is_space (peek b (skip_whitespace b s)) = false
  /\ skip_whitespace b s <= s + strlen b s
  /\ skip_whitespace b (skip_whitespace b s) = skip_whitespace b s.
Proof.
  unfold skip_whitespace, strlen, str_at.
  destruct (whitespace_run_spec (from b s)) as (H1 & H2 & H3).
  rewrite peek_from in H2.
  repeat split.
  - lia.
  - intros i Hs Hi. replace i with (s + (i - s)) by lia.
    rewrite <- peek_from. apply H1. lia.
  - exact H2.
  - lia.
  - set (p := s + whitespace_run (from b s)) in *.
    destruct (whitespace_run_spec (from b p)) as (H4 & _ & _).
    destruct (whitespace_run (from b p)) as [|n]; [lia|].
    specialize (H4 0 ltac:(lia)). rewrite peek_from, Nat.add_0_r in H4.
    congruence.
Qed.

Lemma blank_offset_none (l : list ascii) : ~ In " " l -> blank_offset l = None.
Proof.
  induction l as [|c l IH]; intros Hn; cbn; [reflexivity|].
  destruct (Ascii.eqb_spec c " ") as [->|]; [exfalso; apply Hn; now left|].
  rewrite IH; [reflexivity|]. intros H. apply Hn. now right.
Qed.

Lemma blank_offset_first (l tl : list ascii) :
  ~ In " " l -> blank_offset (l ++ " " :: tl) = Some (length l).
Proof.
  induction l as [|c l IH]; intros Hn; cbn; [reflexivity|].
  destruct (Ascii.eqb_spec c " ") as [->|]; [exfalso; apply Hn; now left|].
  rewrite IH; [reflexivity|]. intros H. apply Hn. now right.
Qed.

(** X10: [skip_nonwhitespace] looks for a blank and for nothing else.  The
    pointer it returns is that of the first blank of the array at or after
    [s]; when the string at [s] holds no blank, the scan goes over its
    terminator: it returns a pointer past the end of the string if a blank
    lies further in the array, and leaves the array if none does. *)
Theorem skip_nonwhitespace_ignores_terminator
  (before str after : list ascii)
  (Hstr : ~ In " " str) :
  (forall mid tl,
      ~ In " " mid ->
      skip_nonwhitespace (before ++ str ++ NUL :: mid ++ " " :: tl)
        (length before)
      = Ret (length before + length str + 1 + length mid))
  /\ (~ In " " after ->
      skip_nonwhitespace (before ++ str ++ NUL :: after) (length before)
      = Undefined BufferOverflow)
  /\ (forall tl,
        skip_nonwhitespace (before ++ str ++ " " :: tl) (length before)
        = Ret (length before + length str)).
Proof.
  unfold skip_nonwhitespace. split; [|split].
  - intros mid tl Hmid. rewrite from_app.
    replace (str ++ NUL :: mid ++ " " :: tl)
      with ((str ++ NUL :: mid) ++ " " :: tl) by list_shape.
    rewrite blank_offset_first.
    + f_equal. list_length.
    + rewrite in_app_iff. intros [H|[H|H]]; [contradiction|discriminate|contradiction].
  - intros Hafter. rewrite from_app, blank_offset_none; [reflexivity|].
    rewrite in_app_iff. intros [H|[H|H]]; [contradiction|discriminate|contradiction].
  - intros tl. rewrite from_app, (blank_offset_first str tl Hstr). reflexivity.
Qed.

(** ** What parsing leaves behind *)

Section ParseRequestFacts.

Variable WHITESPACE : cstring.
Variable chomp : cstring -> cstring.

Lemma only_reads_trans (a b c : Request) :
  only_reads a b -> only_reads b c -> only_reads a c.
Proof.
  intros (H1 & H2 & H3 & H4 & l1 & H5) (K1 & K2 & K3 & K4 & l2 & K5).
  repeat split; try congruence.
  exists (l1 ++ l2). rewrite H5, K5. now rewrite app_assoc.
Qed.

Lemma parse_request_method_reads (r r1 : Request) (ret : Z) :
  parse_request_method WHITESPACE r = Ret (ret, r1) ->
  only_reads r r1
  /\ r_headers r1 = r_headers r
  /\ (ret = 0%Z \/ ret = (-1)%Z)
  /\ (ret = 0%Z ->
      exists m u q,
        r_method r1 = Some m /\ r_uri r1 = Some u /\ r_query r1 = Some q).
Proof.
  unfold parse_request_method, fgets.
  destruct (pending (r_stream r)) as [|l rest] eqn:Hp.
  - intros H. injection H as <- <-. repeat split; try tauto.
    + exists []. now rewrite Hp.
    + discriminate.
  - destruct (strtok (Some 0) WHITESPACE _) as [[method|] st]; cbn [option_map strdup bind];
      [|discriminate].
    destruct (strtok None WHITESPACE st) as [[uri|] st1].
    + destruct (strchr (tok_buf st1) uri "?") as [q|].
      * destruct (strtok (Some uri) ["?"] _) as [[realURI|] st2];
          cbn [option_map strdup bind]; [|discriminate].
        intros H. injection H as <- <-. cbn. repeat split; try tauto.
        -- exists [l]. now rewrite Hp.
        -- intros _. do 3 eexists. repeat split; reflexivity.
      * cbn [option_map strdup bind].
        intros H. injection H as <- <-. cbn. repeat split; try tauto.
        -- exists [l]. now rewrite Hp.
        -- intros _. do 3 eexists. repeat split; reflexivity.
    + intros H. injection H as <- <-. cbn. repeat split; try tauto.
      * exists [l]. now rewrite Hp.
      * discriminate.
Qed.

Lemma parse_headers_loop_reads (lines : list cstring) (w : list ascii) :
  forall trailer headers,
    written (snd (fst (parse_headers_loop chomp lines w trailer headers))) = w
    /\ exists consumed,
         lines = consumed
                 ++ pending (snd (fst (parse_headers_loop chomp lines w trailer
                                         headers))).
Proof.
  induction lines as [|l rest IH]; intros trailer headers;
    cbn [parse_headers_loop].
  - split; [reflexivity|]. now exists [].
  - destruct (2 <? strlen (l ++ [NUL]) 0).
    + destruct (parse_header_line chomp (l ++ [NUL])) as [curr|].
      * destruct (IH (S trailer) (firstn trailer headers ++ [curr]))
          as (H1 & consumed & H2).
        split; [exact H1|]. exists (l :: consumed). cbn. now f_equal.
      * split; [reflexivity|]. now exists [l].
    + split; [reflexivity|]. now exists [l].
Qed.

Lemma parse_request_headers_reads (r : Request) :
  only_reads r (snd (parse_request_headers chomp r))
  /\ r_method (snd (parse_request_headers chomp r)) = r_method r
  /\ r_uri (snd (parse_request_headers chomp r)) = r_uri r
  /\ r_query (snd (parse_request_headers chomp r)) = r_query r.
Proof.
  unfold parse_request_headers.
  destruct (parse_headers_loop_reads (pending (r_stream r))
              (written (r_stream r)) 0 (r_headers r)) as (H1 & consumed & H2).
  destruct (parse_headers_loop _ _ _ _ _) as [[ended stream] headers].
  cbn [fst snd] in H1, H2.
  assert (H : only_reads r (set_headers (set_stream r stream) headers)).
  { repeat split; [exact H1|]. exists consumed. exact H2. }
  destruct ended; [destruct headers|]; cbn; repeat split; try apply H.
Qed.

Lemma parse_request_headers_result (r : Request) :
  (fst (parse_request_headers chomp r) = 0%Z
   /\ r_headers (snd (parse_request_headers chomp r)) <> [])
  \/ fst (parse_request_headers chomp r) = (-1)%Z.
Proof.
  unfold parse_request_headers.
  destruct (parse_headers_loop _ _ _ _ _) as [[ended stream] headers].
  destruct ended; [destruct headers|]; cbn; [now right| |now right].
  left. split; [reflexivity|discriminate].
Qed.

(** What [parse_request] returns and what it leaves of the request. *)
Lemma parse_request_result (r r1 : Request) (ret : Z)
  (Hparse : parse_request WHITESPACE chomp r = Ret (ret, r1)) :
  (ret = 0%Z \/ ret = (-1)%Z)
  /\ only_reads r r1
  /\ (ret = 0%Z ->
      (exists m u q,
          r_method r1 = Some m /\ r_uri r1 = Some u /\ r_query r1 = Some q)
      /\ r_headers r1 <> []).
Proof.
  unfold parse_request in Hparse.
  destruct (parse_request_method WHITESPACE r) as [[ret0 r0]|] eqn:Hm;
    [|discriminate].
  cbn [bind] in Hparse.
  destruct (parse_request_method_reads r r0 ret0 Hm) as (Hr & Hh & Hret & Hset).
  destruct (Z.ltb_spec ret0 0) as [Hneg|Hpos].
  - injection Hparse as <- <-. repeat split; try tauto; try apply Hr; discriminate.
  - assert (Hz : ret0 = 0%Z) by lia.
    destruct (Hset Hz) as (m & u & q & Em & Eu & Eq).
    pose proof (parse_request_headers_reads r0) as (Hr1 & Km & Ku & Kq).
    pose proof (parse_request_headers_result r0) as Hres.
    destruct (parse_request_headers chomp r0) as [ret1 r2].
    cbn [fst snd] in *.
    destruct (Z.ltb_spec ret1 0) as [Hneg1|Hpos1]; injection Hparse as <- <-.
    + split; [now right|]. split; [exact (only_reads_trans _ _ _ Hr Hr1)|].
      discriminate.
    + split; [now left|]. split; [exact (only_reads_trans _ _ _ Hr Hr1)|].
      intros _. split.
      * exists m, u, q. rewrite Km, Ku, Kq. auto.
      * destruct Hres as [[_ Hne]|Hneg]; [exact Hne|lia].
Qed.

(** X5: [parse_request] returns 0 or -1 and only reads: it writes nothing to
    the connection, keeps the client's address and the path, and moves
    forward in the stream.  When it returns 0, the method, the URI and the
    query are all set (the query to an empty string when the target has
    none) and at least one header is stored, so the handlers never meet a
    null pointer there. *)
Theorem parse_request_leaves (r r1 : Request) (ret : Z)
  (Hparse : parse_request WHITESPACE chomp r = Ret (ret, r1)) :
  (ret = 0%Z \/ ret = (-1)%Z)
  /\ only_reads r r1
  /\ (ret = 0%Z ->
      (exists m u q,
          r_method r1 = Some m /\ r_uri r1 = Some u /\ r_query r1 = Some q)
      /\ r_headers r1 <> []).
Proof. exact (parse_request_result r r1 ret Hparse). Qed.

End ParseRequestFacts.

(** ** The header block *)

Section HeaderBlock.

Variable chomp : cstring -> cstring.

Lemma parse_headers_loop_block (lines : list cstring) (w : list ascii)
  (after : list cstring) :
  header_lines chomp lines ->
  match after with
  | [] => True
  | blank :: _ => strlen (blank ++ [NUL]) 0 <= 2
  end ->
  forall trailer headers0,
    length headers0 = trailer ->
    exists headers,
      Forall2 (fun l h => parse_header_line chomp (l ++ [NUL]) = Some h)
        lines headers
      /\ parse_headers_loop chomp (lines ++ after) w trailer headers0
         = (true, MkFILE (tl after) w, headers0 ++ headers).
Proof.
  intros Hlines Hafter. induction Hlines as [|l lines [Hlen Hparse] _ IH];
    intros trailer headers0 Htr.
  - exists []. split; [constructor|]. rewrite app_nil_r. cbn [app].
    destruct after as [|blank body]; cbn [parse_headers_loop tl]; [reflexivity|].
    destruct (Nat.ltb_spec 2 (strlen (blank ++ [NUL]) 0)); [lia|reflexivity].
  - cbn [app parse_headers_loop].
    destruct (Nat.ltb_spec 2 (strlen (l ++ [NUL]) 0)); [|lia].
    destruct (parse_header_line chomp (l ++ [NUL])) as [h|] eqn:E;
      [|contradiction].
    destruct (IH (S trailer) (firstn trailer headers0 ++ [h])) as (hs & H2 & Hloop).
    { rewrite length_app, firstn_all2 by lia. cbn. lia. }
    exists (h :: hs). split; [constructor; assumption|].
    rewrite Hloop, firstn_all2 by lia. now rewrite <- app_assoc.
Qed.

(** X2: A header block is read whole and nothing more: one header is stored
    per line, in the order of the lines and with repeated names kept, the
    blank line that ends the block (or the end of the stream) stops the
    loop, and the stream is left at the first line after the blank
    line. *)
Theorem parse_request_headers_block
  (r : Request) (lines after : list cstring)
  (Hnew : r_headers r = [])
  (Hstream : pending (r_stream r) = lines ++ after)
  (Hlines : header_lines chomp lines)
  (Hsome : lines <> [])
  (Hafter : match after with
            | [] => True
            | blank :: _ => strlen (blank ++ [NUL]) 0 <= 2
            end) :
  exists headers,
    Forall2 (fun l h => parse_header_line chomp (l ++ [NUL]) = Some h)
      lines headers
    /\ parse_request_headers chomp r
       = (0%Z,
          set_headers
            (set_stream r (MkFILE (tl after) (written (r_stream r))))
            headers).
Proof.
  destruct (parse_headers_loop_block lines (written (r_stream r)) after
              Hlines Hafter 0 [] eq_refl) as (headers & H2 & Hloop).
  exists headers. split; [exact H2|].
  unfold parse_request_headers. rewrite Hstream, Hnew, Hloop. cbn [app].
  destruct H2 as [|l h lines' hs' _ _]; [contradiction|]. reflexivity.
Qed.

End HeaderBlock.

(** ** The content type of a file *)

Section MimeTotal.

Variable WHITESPACE : cstring.
Variables MimeTypesPath DefaultMimeType : cstring.
Variable fopen : cstring -> option FILE_.

Local Abbreviation determine_mimetype_ :=
  (determine_mimetype WHITESPACE MimeTypesPath DefaultMimeType fopen).

(** Where a mime type found in the rules comes from. *)
Lemma lookup_mimetype_origin (lines : list cstring) (ext m : cstring) :
  lookup_mimetype WHITESPACE lines ext = Some m ->
  exists l,
    In l lines /\ rules_line l = true
    /\ hd_error (tokens WHITESPACE (c_str l)) = Some m.
Proof.
  unfold lookup_mimetype.
  destruct (find (rule_for WHITESPACE ext) lines) as [l|] eqn:E; [|discriminate].
  intros Hm. apply find_some in E. destruct E as [Hin Hrule].
  unfold rule_for in Hrule. apply andb_true_iff in Hrule.
  exists l. repeat split; [exact Hin|tauto|exact Hm].
Qed.

(** What [determine_mimetype] returns on a path with a [/]. *)
Lemma determine_mimetype_result (path : cstring)
  (Hstring : ~ In NUL path) (Hslash : In "/" path) :
  exists m,
    determine_mimetype_ path = Ret m
    /\ (m = DefaultMimeType
        \/ exists fs l,
             fopen MimeTypesPath = Some fs /\ In l (pending fs)
             /\ rules_line l = true
             /\ hd_error (tokens WHITESPACE (c_str l)) = Some m).
Proof.
  destruct (in_split_last "/" path Hslash) as (dir & base & -> & Hn).
  assert (Hs : Forall (fun c => is_nul c = false) (dir ++ "/" :: base)).
  { rewrite Forall_forall. intros x Hx. apply is_nul_false. intros ->.
    contradiction. }
  destruct (in_dec ascii_dec "." base) as [Hin|Hout].
  - destruct (in_split_first "." base Hin) as (a & e & -> & Ha).
    rewrite (determine_mimetype_first_dot WHITESPACE MimeTypesPath
               DefaultMimeType fopen dir a e Hs Hn Ha).
    destruct (fopen MimeTypesPath) as [fs|]; [|eexists; split; [reflexivity|now left]].
    destruct (lookup_mimetype WHITESPACE (pending fs) e) as [m|] eqn:E;
      [|eexists; split; [reflexivity|now left]].
    exists m. split; [reflexivity|]. right.
    destruct (lookup_mimetype_origin _ _ _ E) as (l & H1 & H2 & H3).
    exists fs, l. auto.
  - rewrite (determine_mimetype_no_extension WHITESPACE MimeTypesPath
               DefaultMimeType fopen dir base Hs Hn Hout).
    eexists. split; [reflexivity|now left].
Qed.

(** X11: On every path that holds a [/], as all paths from [realpath] do,
    [determine_mimetype] returns, and what it returns is the default mime
    type or the first token of a line of the rules file that is neither a
    comment nor blank. *)
Theorem determine_mimetype_returns (path : cstring)
  (Hstring : ~ In NUL path) (Hslash : In "/" path) :
  exists m,
    determine_mimetype_ path = Ret m
    /\ (m = DefaultMimeType
        \/ exists fs l,
             fopen MimeTypesPath = Some fs /\ In l (pending fs)
             /\ rules_line l = true
             /\ hd_error (tokens WHITESPACE (c_str l)) = Some m).
Proof. exact (determine_mimetype_result path Hstring Hslash). Qed.

(** X12: The extension that is looked up is all that follows the first [.] of
    the last name: for a name with several dots it is the whole suffix,
    [tar.gz] for [archive.tar.gz], and a rule for the last part alone is
    not consulted. *)
Theorem determine_mimetype_whole_suffix (dir a e : cstring)
  (Hstring : ~ In NUL (dir ++ "/" :: a ++ "." :: e))
  (Hbase : ~ In "/" (a ++ "." :: e))
  (Hfirst : ~ In "." a) :
  determine_mimetype_ (dir ++ "/" :: a ++ "." :: e)
  = Ret match fopen MimeTypesPath with
        | Some fs =>
            match lookup_mimetype WHITESPACE (pending fs) e with
            | Some m => m
            | None => DefaultMimeType
            end
        | None => DefaultMimeType
        end.
Proof.
  apply determine_mimetype_first_dot; [|exact Hbase|exact Hfirst].
  rewrite Forall_forall. intros x Hx. apply is_nul_false. intros ->.
  contradiction.
Qed.


End MimeTotal.

(** ** Scripts *)

Lemma c_str_terminated (l : list ascii) : c_str (l ++ [NUL]) = c_str l.
Proof.
  induction l as [|c l IH]; cbn; [reflexivity|].
  destruct (is_nul c); [reflexivity|now rewrite IH].
Qed.

Lemma write_nil (r : Request) : write [] r = r.
Proof.
  unfold write, set_stream, fputs. rewrite app_nil_r.
  now destruct r as [? ? [? ?] ? ? ? ? ?].
Qed.

Lemma copy_lines (lines : list cstring) :
  forall r,
    fold_left (fun r l => write (c_str (l ++ [NUL])) r) lines r
    = write (concat (map c_str lines)) r.
Proof.
  induction lines as [|l lines IH]; intros r; cbn [fold_left map concat].
  - now rewrite write_nil.
  - now rewrite IH, write_write, c_str_terminated.
Qed.

Section Cgi.

Variable popen : list (cstring * cstring) -> cstring -> option FILE_.


End Cgi.

(** ** The answers of [handle_request] *)

Lemma S_ISDIR_cases (m : Z) : S_ISDIR m = 1%Z \/ S_ISDIR m = 0%Z.
Proof. unfold S_ISDIR. destruct (_ =? _)%Z; auto. Qed.

Lemma S_ISREG_cases (m : Z) : S_ISREG m = 1%Z \/ S_ISREG m = 0%Z.
Proof. unfold S_ISREG. destruct (_ =? _)%Z; auto. Qed.

(** A status other than OK is answered with its page. *)
Lemma check_status_error (s : Status) (r : Request) :
  s <> HTTP_STATUS_OK ->
  check_status (s, r) = Ret (s, write (error_response (status_line_of s)) r).
Proof.
  intros Hs. unfold check_status. rewrite (handle_error_enum r s).
  destruct s; [contradiction| | |]; reflexivity.
Qed.

Lemma check_status_ok (r : Request) :
  check_status (HTTP_STATUS_OK, r) = Ret (HTTP_STATUS_OK, r).
Proof. reflexivity. Qed.

Section Answers.

Variable WHITESPACE : cstring.
Variable chomp : cstring -> cstring.
Variable BUFSIZ : nat.
Variables RootPath MimeTypesPath DefaultMimeType : cstring.
Variable realpath : cstring -> option cstring.
Variable stat : cstring -> option Z.
Variable access_X_OK : cstring -> bool.
Variable readdir : cstring -> option (list cstring).
Variable fopen : cstring -> option FILE_.
Variable popen : list (cstring * cstring) -> cstring -> option FILE_.
Variable indeterminate_mode : Z.

Local Abbreviation handle_request_ :=
  (handle_request WHITESPACE chomp BUFSIZ RootPath MimeTypesPath
     DefaultMimeType realpath stat access_X_OK readdir fopen popen
     indeterminate_mode).
Local Abbreviation determine_request_path_ :=
  (determine_request_path BUFSIZ RootPath realpath).
Local Abbreviation handle_file_request_ :=
  (handle_file_request WHITESPACE MimeTypesPath DefaultMimeType fopen).




End Answers.

(** ** Error pages and what precedes them *)

Section Handlers.

Variable WHITESPACE : cstring.
Variables MimeTypesPath DefaultMimeType : cstring.
Variable readdir : cstring -> option (list cstring).
Variable fopen : cstring -> option FILE_.
Variable popen : list (cstring * cstring) -> cstring -> option FILE_.

(** A handler that does not return OK has not touched the request. *)
Lemma handle_browse_request_failure (r r' : Request) (s : Status) :
  handle_browse_request readdir r = Ret (s, r') ->
  s <> HTTP_STATUS_OK -> r' = r.
Proof.
  unfold handle_browse_request.
  destruct (r_path r) as [path|]; cbn [percent_s bind]; [|discriminate].
  destruct (scandir readdir path None (Some alphasort)) as [entries|].
  - destruct (r_uri _) as [uri|]; cbn [percent_s bind]; [|discriminate].
    intros H. injection H as <- _. contradiction.
  - intros H _. now injection H.
Qed.

Lemma handle_file_request_failure (r r' : Request) (s : Status) :
  handle_file_request WHITESPACE MimeTypesPath DefaultMimeType fopen r
  = Ret (s, r') ->
  s <> HTTP_STATUS_OK -> r' = r.
Proof.
  unfold handle_file_request.
  destruct (r_path r) as [path|]; cbn [percent_s bind]; [|discriminate].
  destruct (fopen path) as [fs|].
  - destruct (determine_mimetype _ _ _ _ path) as [m|]; cbn [bind];
      [|discriminate].
    intros H. injection H as <- _. contradiction.
  - intros H _. now injection H.
Qed.

Lemma handle_cgi_request_failure (r r' : Request) (s : Status) :
  handle_cgi_request popen r = Ret (s, r') ->
  s <> HTTP_STATUS_OK -> r' = r.
Proof.
  unfold handle_cgi_request.
  destruct (r_uri r) as [uri|]; cbn [percent_s bind]; [|discriminate].
  destruct (r_method r) as [method|]; cbn [percent_s bind]; [|discriminate].
  destruct (r_path r) as [path|]; cbn [percent_s bind]; [|discriminate].
  destruct (popen _ path) as [pfs|].
  - intros H. injection H as <- _. contradiction.
  - intros H _. now injection H.
Qed.

(** A handler only adds to what has been written. *)
Lemma handle_browse_request_appends (r r' : Request) (s : Status) :
  handle_browse_request readdir r = Ret (s, r') ->
  exists more, written (r_stream r') = written (r_stream r) ++ more.
Proof.
  unfold handle_browse_request.
  destruct (r_path r) as [path|]; cbn [percent_s bind]; [|discriminate].
  destruct (scandir readdir path None (Some alphasort)) as [entries|].
  - destruct (r_uri _) as [uri|]; cbn [percent_s bind]; [|discriminate].
    intros H. injection H as _ <-.
    rewrite browse_entries_listing, !write_write. eexists. apply written_write.
  - intros H. injection H as _ <-. exists []. now rewrite app_nil_r.
Qed.

Lemma handle_file_request_appends (r r' : Request) (s : Status) :
  handle_file_request WHITESPACE MimeTypesPath DefaultMimeType fopen r
  = Ret (s, r') ->
  exists more, written (r_stream r') = written (r_stream r) ++ more.
Proof.
  unfold handle_file_request.
  destruct (r_path r) as [path|]; cbn [percent_s bind]; [|discriminate].
  destruct (fopen path) as [fs|].
  - destruct (determine_mimetype _ _ _ _ path) as [m|]; cbn [bind];
      [|discriminate].
    intros H. injection H as _ <-.
    rewrite !write_write. eexists. apply written_write.
  - intros H. injection H as _ <-. exists []. now rewrite app_nil_r.
Qed.

Lemma handle_cgi_request_appends (r r' : Request) (s : Status) :
  handle_cgi_request popen r = Ret (s, r') ->
  exists more, written (r_stream r') = written (r_stream r) ++ more.
Proof.
  unfold handle_cgi_request.
  destruct (r_uri r) as [uri|]; cbn [percent_s bind]; [|discriminate].
  destruct (r_method r) as [method|]; cbn [percent_s bind]; [|discriminate].
  destruct (r_path r) as [path|]; cbn [percent_s bind]; [|discriminate].
  destruct (popen _ path) as [pfs|].
  - intros H. injection H as _ <-. rewrite copy_lines.
    eexists. apply written_write.
  - intros H. injection H as _ <-. exists []. now rewrite app_nil_r.
Qed.

End Handlers.

Lemma check_status_appends (sr : Status * Request) (s : Status) (r' : Request) :
  check_status sr = Ret (s, r') ->
  s = fst sr
  /\ exists more, written (r_stream r') = written (r_stream (snd sr)) ++ more.
Proof.
  destruct sr as [s0 r0]. cbn [fst snd].
  destruct (Status_eqb s0 HTTP_STATUS_OK) eqn:E.
  - destruct s0; try discriminate. rewrite check_status_ok.
    intros H. injection H as <- <-. split; [reflexivity|].
    exists []. now rewrite app_nil_r.
  - rewrite check_status_error by (intros ->; discriminate).
    intros H. injection H as <- <-. split; [reflexivity|].
    eexists. apply written_write.
Qed.

Section ErrorPages.

Variable WHITESPACE : cstring.
Variable chomp : cstring -> cstring.
Variable BUFSIZ : nat.
Variables RootPath MimeTypesPath DefaultMimeType : cstring.
Variable realpath : cstring -> option cstring.
Variable stat : cstring -> option Z.
Variable access_X_OK : cstring -> bool.
Variable readdir : cstring -> option (list cstring).
Variable fopen : cstring -> option FILE_.
Variable popen : list (cstring * cstring) -> cstring -> option FILE_.
Variable indeterminate_mode : Z.

Local Abbreviation handle_request_ :=
  (handle_request WHITESPACE chomp BUFSIZ RootPath MimeTypesPath
     DefaultMimeType realpath stat access_X_OK readdir fopen popen
     indeterminate_mode).
Local Abbreviation determine_request_path_ :=
  (determine_request_path BUFSIZ RootPath realpath).

(** X17: When [stat] succeeds on the resolved path and [handle_request]
    returns a status other than OK, what it has written to the stream is
    the error page of that status and nothing else: a handler that fails
    returns before it writes, so no status line or header of a response
    that was begun precedes the page. *)
Theorem handle_request_error_page (r r1 r' : Request) (ret : Z) (s : Status)
  (Hparse : parse_request WHITESPACE chomp r = Ret (ret, r1))
  (Hstat : forall uri path,
      r_uri r1 = Some uri ->
      determine_request_path_ uri = Ret (Some path) -> stat path <> None)
  (Hrun : handle_request_ r = Ret (s, r'))
  (Herror : s <> HTTP_STATUS_OK) :
  written (r_stream r')
  = written (r_stream r) ++ error_response (status_line_of s).
Proof.
  destruct (parse_request_result WHITESPACE chomp r r1 ret Hparse)
    as (_ & (_ & _ & _ & Hw & _) & _).
  unfold handle_request in Hrun. rewrite Hparse in Hrun. cbn [bind] in Hrun.
  destruct (ret <? 0)%Z.
  - rewrite (handle_error_enum r1 HTTP_STATUS_BAD_REQUEST) in Hrun.
    injection Hrun as <- <-. now rewrite written_write, Hw.
  - destruct (r_uri r1) as [uri|] eqn:Huri; cbn [percent_s bind] in Hrun;
      [|discriminate].
    destruct (determine_request_path_ uri) as [[path|]|] eqn:Hpath;
      cbn [bind] in Hrun; [| |discriminate].
    + destruct (stat path) as [m|] eqn:Hm;
        [|exfalso; exact (Hstat uri path eq_refl Hpath Hm)].
      cbn [bind] in Hrun.
      assert (Hfail : forall r2 x, r2 = set_path r1 (Some path) ->
                check_status (s, r2) = Ret (s, x) ->
                written (r_stream x)
                = written (r_stream r) ++ error_response (status_line_of s)).
      { intros r2 x -> H. rewrite check_status_error in H by exact Herror.
        injection H as <-. now rewrite written_write, <- Hw. }
      destruct (select_handler access_X_OK path m).
      * destruct (handle_browse_request readdir _) as [[s0 r0]|] eqn:E;
          cbn [bind] in Hrun; [|discriminate].
        destruct (check_status_appends _ _ _ Hrun) as [-> _]. cbn [fst] in *.
        apply (Hfail r0 r'); [|exact Hrun].
        exact (handle_browse_request_failure readdir _ _ _ E Herror).
      * destruct (handle_cgi_request popen _) as [[s0 r0]|] eqn:E;
          cbn [bind] in Hrun; [|discriminate].
        destruct (check_status_appends _ _ _ Hrun) as [-> _]. cbn [fst] in *.
        apply (Hfail r0 r'); [|exact Hrun].
        exact (handle_cgi_request_failure popen _ _ _ E Herror).
      * destruct (handle_file_request _ _ _ _ _) as [[s0 r0]|] eqn:E;
          cbn [bind] in Hrun; [|discriminate].
        destruct (check_status_appends _ _ _ Hrun) as [-> _]. cbn [fst] in *.
        apply (Hfail r0 r'); [|exact Hrun].
        exact (handle_file_request_failure _ _ _ _ _ _ _ E Herror).
      * rewrite (handle_error_enum _ HTTP_STATUS_BAD_REQUEST) in Hrun.
        cbn [bind] in Hrun. injection Hrun as <- <-.
        now rewrite written_write, <- Hw.
    + rewrite (handle_error_enum _ HTTP_STATUS_NOT_FOUND) in Hrun.
      cbn [bind] in Hrun. injection Hrun as <- <-.
      now rewrite written_write, <- Hw.
Qed.

(** X18: When [stat] fails on the resolved path, the 404 page is written and
    the request goes on: the tests read the mode that the failed call left
    in place, so a handler is still chosen and run, and what it writes
    follows the page.  With a mode that says neither directory nor regular
    file, an executable path is run as a script, and any other path gets
    the 400 page after the 404 page. *)
Theorem handle_request_stat_failure (r r1 : Request) (uri path : cstring)
  (Hparse : parse_request WHITESPACE chomp r = Ret (0%Z, r1))
  (Huri : r_uri r1 = Some uri)
  (Hpath : determine_request_path_ uri = Ret (Some path))
  (Hstat : stat path = None) :
  (forall s r',
      handle_request_ r = Ret (s, r') ->
      exists more,
        written (r_stream r')
        = written (r_stream r1) ++ error_response (cs "404 Not Found") ++ more)
  /\ (S_ISDIR indeterminate_mode = 0%Z -> access_X_OK path = true ->
      handle_request_ r
      = (sr <- handle_cgi_request popen
                 (write (error_response (cs "404 Not Found"))
                    (set_path r1 (Some path))) ;;
         check_status sr))
  /\ (S_ISDIR indeterminate_mode = 0%Z -> access_X_OK path = false ->
      S_ISREG indeterminate_mode = 0%Z ->
      handle_request_ r
      = Ret (HTTP_STATUS_BAD_REQUEST,
             write (error_response (cs "404 Not Found")
                    ++ error_response (cs "400 Bad Request"))
               (set_path r1 (Some path)))).
Proof.
  assert (Hd : handle_request_ r
               = let r2 := write (error_response (cs "404 Not Found"))
                             (set_path r1 (Some path)) in
                 match select_handler access_X_OK path indeterminate_mode with
                 | Browse => sr <- handle_browse_request readdir r2 ;;
                             check_status sr
                 | Cgi => sr <- handle_cgi_request popen r2 ;; check_status sr
                 | StaticFile =>
                     sr <- handle_file_request WHITESPACE MimeTypesPath
                             DefaultMimeType fopen r2 ;;
                     check_status sr
                 | BadKind =>
                     Ret (HTTP_STATUS_BAD_REQUEST,
                          write (error_response (cs "400 Bad Request")) r2)
                 end).
  { unfold handle_request. rewrite Hparse. cbn [bind Z.ltb Z.compare].
    rewrite Huri. cbn [percent_s bind]. rewrite Hpath. cbn [bind].
    rewrite Hstat, (handle_error_enum _ HTTP_STATUS_NOT_FOUND). cbn [bind].
    destruct (select_handler access_X_OK path indeterminate_mode);
      try reflexivity.
    now rewrite (handle_error_enum _ HTTP_STATUS_BAD_REQUEST). }
  cbv zeta in Hd. split; [|split].
  - intros s r' Hrun. rewrite Hd in Hrun.
    assert (Hafter : forall sr,
              (exists more,
                  written (r_stream (snd sr))
                  = written (r_stream
                               (write (error_response (cs "404 Not Found"))
                                  (set_path r1 (Some path)))) ++ more) ->
              check_status sr = Ret (s, r') ->
              exists more,
                written (r_stream r')
                = written (r_stream r1)
                  ++ error_response (cs "404 Not Found") ++ more).
    { intros sr [more1 H1] H2.
      destruct (check_status_appends _ _ _ H2) as [_ [more2 H3]].
      exists (more1 ++ more2). rewrite H3, H1, written_write.
      cbn [set_path r_stream]. now rewrite <- !app_assoc. }
    destruct (select_handler access_X_OK path indeterminate_mode).
    + destruct (handle_browse_request readdir _) as [[s0 r0]|] eqn:E;
        cbn [bind] in Hrun; [|discriminate].
      apply (Hafter (s0, r0)); [|exact Hrun].
      exact (handle_browse_request_appends readdir _ _ _ E).
    + destruct (handle_cgi_request popen _) as [[s0 r0]|] eqn:E;
        cbn [bind] in Hrun; [|discriminate].
      apply (Hafter (s0, r0)); [|exact Hrun].
      exact (handle_cgi_request_appends popen _ _ _ E).
    + destruct (handle_file_request _ _ _ _ _) as [[s0 r0]|] eqn:E;
        cbn [bind] in Hrun; [|discriminate].
      apply (Hafter (s0, r0)); [|exact Hrun].
      exact (handle_file_request_appends _ _ _ _ _ _ _ E).
    + injection Hrun as _ <-. eexists.
      rewrite !written_write. cbn [set_path r_stream].
      now rewrite <- !app_assoc.
  - intros Hdir Hx. rewrite Hd. unfold select_handler. now rewrite Hdir, Hx.
  - intros Hdir Hx Hreg. rewrite Hd. unfold select_handler.
    rewrite Hdir, Hx, Hreg. cbn [Z.eqb]. now rewrite write_write.
Qed.

End ErrorPages.

(** ** The arrays of [determine_request_path] *)

Lemma repeat_string (c : ascii) (n : nat) (P : ascii -> Prop) :
  P c -> Forall P (repeat c n).
Proof. intros H. induction n; cbn; constructor; assumption. Qed.

Section Overflow.

Variable WHITESPACE : cstring.
Variable chomp : cstring -> cstring.
Variable BUFSIZ : nat.
Variables RootPath MimeTypesPath DefaultMimeType : cstring.
Variable realpath : cstring -> option cstring.
Variable stat : cstring -> option Z.
Variable access_X_OK : cstring -> bool.
Variable readdir : cstring -> option (list cstring).
Variable fopen : cstring -> option FILE_.
Variable popen : list (cstring * cstring) -> cstring -> option FILE_.
Variable indeterminate_mode : Z.

Local Abbreviation handle_request_ :=
  (handle_request WHITESPACE chomp BUFSIZ RootPath MimeTypesPath
     DefaultMimeType realpath stat access_X_OK readdir fopen popen
     indeterminate_mode).

(** X19: [sprintf] writes the root and the URI into an array of [BUFSIZ]
    bytes without a bound, while the request line is read into an array
    of the same size.  As soon as the root has 16 characters or more, a
    request line short enough to be read whole carries a URI that, behind
    the root, does not fit: the write goes past the end of the array. *)
Theorem handle_request_overflows_path_array
  (Hblank : char_in " " WHITESPACE = true)
  (Hletters : Forall (fun c => char_in c WHITESPACE = false) (cs "GET/a"))
  (Hroot : 16 <= length RootPath)
  (Hfits : length RootPath < BUFSIZ) :
  exists line : cstring,
    length line < BUFSIZ
    /\ forall host port,
         handle_request_
           (accept_request host port [line; cs "Host: x" ++ CRLF; CRLF])
         = Undefined BufferOverflow.
Proof.
  set (n := BUFSIZ - length RootPath - 1).
  set (target := "/" :: repeat "a" n).
  exists (cs "GET" ++ " " :: target ++ " " :: cs "HTTP/1.0" ++ CRLF).
  split.
  - unfold target. cbn [cs list_ascii_of_string app length].
    rewrite length_app, repeat_length. cbn [length].
    change (length CRLF) with 2. unfold n. lia.
  - intros host port.
    assert (Hc : forall c, In c (cs "GET/a") -> char_in c WHITESPACE = false).
    { now apply Forall_forall. }
    assert (Htarget : token_chars WHITESPACE target).
    { unfold target. constructor.
      - split; [reflexivity|]. apply Hc. cbn. tauto.
      - apply repeat_string. split; [reflexivity|]. apply Hc. cbn. tauto. }
    assert (Hmethod : token_chars WHITESPACE (cs "GET")).
    { repeat constructor; apply Hc; cbn; tauto. }
    assert (Hq : ~ In "?" target).
    { unfold target. intros [H|H]; [discriminate|].
      apply repeat_spec in H. discriminate. }
    pose proof (parse_request_method_no_query WHITESPACE (cs "GET") target
                  (cs "HTTP/1.0" ++ CRLF) " " " " Hmethod ltac:(discriminate)
                  Htarget ltac:(discriminate) (conj eq_refl Hblank)
                  (conj eq_refl Hblank)
                  (accept_request host port
                     [cs "GET" ++ " " :: target ++ " " :: cs "HTTP/1.0" ++ CRLF;
                      cs "Host: x" ++ CRLF; CRLF])
                  [cs "Host: x" ++ CRLF; CRLF] eq_refl Hq) as Hm.
    unfold handle_request, parse_request.
    match goal with
    | |- context [parse_request_method ?w ?r] =>
        match type of Hm with
        | _ = ?rhs =>
            assert (Hm' : parse_request_method w r = rhs) by exact Hm;
            rewrite Hm'
        end
    end.
    cbn [bind Z.ltb Z.compare].
    assert (Hh : forall r0,
              pending (r_stream r0) = [cs "Host: x" ++ CRLF; CRLF] ->
              r_headers r0 = [] ->
              parse_request_headers chomp r0
              = (0%Z,
                 set_headers
                   (set_stream r0 (MkFILE [] (written (r_stream r0))))
                   [MkHeader (cs "Host") (chomp (cs "x" ++ CRLF))])).
    { intros r0 Hp Hn. unfold parse_request_headers. rewrite Hp, Hn.
      reflexivity. }
    rewrite Hh by reflexivity.
    cbn [bind Z.ltb Z.compare r_uri set_headers set_stream set_query set_uri
         percent_s].
    unfold determine_request_path.
    assert (Hlen : (BUFSIZ <=? length RootPath + length target) = true).
    { apply Nat.leb_le. unfold target. cbn [length]. rewrite repeat_length.
      unfold n. lia. }
    now rewrite Hlen.
Qed.

End Overflow.

(** ** The sequential server *)

Section SingleFacts.

Variable WHITESPACE : cstring.
Variable chomp : cstring -> cstring.
Variable BUFSIZ : nat.
Variables RootPath MimeTypesPath DefaultMimeType : cstring.
Variable realpath : cstring -> option cstring.
Variable stat : cstring -> option Z.
Variable access_X_OK : cstring -> bool.
Variable readdir : cstring -> option (list cstring).
Variable fopen : cstring -> option FILE_.
Variable popen : list (cstring * cstring) -> cstring -> option FILE_.
Variable indeterminate_mode : Z.

Local Abbreviation handle_request_ :=
  (handle_request WHITESPACE chomp BUFSIZ RootPath MimeTypesPath
     DefaultMimeType realpath stat access_X_OK readdir fopen popen
     indeterminate_mode).
Local Abbreviation single_server_ :=
  (single_server WHITESPACE chomp BUFSIZ RootPath MimeTypesPath
     DefaultMimeType realpath stat access_X_OK readdir fopen popen
     indeterminate_mode).

(** Connections served one after the other. *)
Lemma single_server_serves (requests : list Request)
  (answers : list (option (list ascii))) (then_ : list (option Request)) :
  Forall2 (fun r a => exists s r',
               handle_request_ r = Ret (s, r') /\ a = free_request r')
    requests answers ->
  single_server_ (map Some requests ++ then_)
  = ('(status, served) <- single_server_ then_ ;;
     Ret (status, answers ++ served)).
Proof.
  induction 1 as [|r a requests answers (s & r' & Hr & ->) _ IH];
    cbn [map app single_server].
  - destruct (single_server_ then_) as [[status served]|]; reflexivity.
  - rewrite Hr, IH. cbn [bind].
    destruct (single_server_ then_) as [[status served]|]; reflexivity.
Qed.

(** The server returns at a failed [accept_request] only. *)
Lemma single_server_returns (accepted : list (option Request)) :
  forall status served,
    single_server_ accepted = Ret (Some status, served) ->
    status = EXIT_FAILURE /\ In None accepted
    /\ length served < length accepted.
Proof.
  induction accepted as [|[r|] accepted IH]; intros status served;
    cbn [single_server].
  - discriminate.
  - destruct (handle_request_ r) as [[s r']|]; cbn [bind]; [|discriminate].
    destruct (single_server_ accepted) as [[status' served']|]; cbn [bind];
      [|discriminate].
    intros H. injection H as -> <-.
    destruct (IH status served' eq_refl) as (H1 & H2 & H3).
    split; [exact H1|]. split; [now right|]. cbn [length]. lia.
  - intros H. injection H as <- <-. split; [reflexivity|].
    split; [now left|]. cbn [length]. lia.
Qed.

(** X20: [single_server] handles the connections one at a time, in the
    order in which they are accepted: each is handled by [handle_request]
    on its own and closed before the next is accepted.  The client of a
    connection receives all that was written for it when its request was
    read to the end; with input left unread, what it receives is not
    determined.  The server does not return while connections come; the
    first [accept_request] that fails makes it return [EXIT_FAILURE], and
    no connection is accepted after that.  It returns in no other way:
    never with [EXIT_SUCCESS]. *)
Theorem single_server_stops_at_failed_accept
  (requests : list Request) (answers : list (option (list ascii)))
  (later : list (option Request))
  (Hserved : Forall2 (fun r a => exists s r',
                          handle_request_ r = Ret (s, r')
                          /\ a = match pending (r_stream r') with
                                 | [] => Some (written (r_stream r'))
                                 | _ :: _ => None
                                 end)
               requests answers) :
  single_server_ (map Some requests) = Ret (None, answers)
  /\ single_server_ (map Some requests ++ None :: later)
     = Ret (Some EXIT_FAILURE, answers)
  /\ (forall accepted status served,
        single_server_ accepted = Ret (Some status, served) ->
        status = EXIT_FAILURE /\ In None accepted
        /\ length served < length accepted).
Proof.
  split; [|split].
  - rewrite <- (app_nil_r (map Some requests)).
    rewrite (single_server_serves requests answers [] Hserved).
    cbn. now rewrite app_nil_r.
  - rewrite (single_server_serves requests answers (None :: later) Hserved).
    cbn. now rewrite app_nil_r.
  - exact single_server_returns.
Qed.

(** X21: One connection whose first line is blank stops the sequential server
    for all: [handle_request] calls [strdup] on a null pointer in the one
    process there is, so neither that connection nor any accepted after it
    is sure of an answer. *)
Theorem single_server_blank_line
  (requests : list Request) (answers : list (list ascii))
  (r : Request) (l : cstring) (rest : list cstring)
  (later : list (option Request))
  (Hserved : Forall2 (fun r a => exists s r',
                          handle_request_ r = Ret (s, r')
                          /\ a = written (r_stream r'))
               requests answers)
  (Hline : pending (r_stream r) = l :: rest)
  (Hblank : delim_chars WHITESPACE (c_str l)) :
  single_server_ (map Some requests ++ Some r :: later)
  = Undefined NullArgument.
Proof.
  assert (Hclosed : exists received,
             Forall2 (fun r a => exists s r',
                          handle_request_ r = Ret (s, r')
                          /\ a = free_request r')
               requests received).
  { clear Hline Hblank.
    induction Hserved as [|r0 a requests answers (s & r' & Hr & _) _ [received IH]].
    - exists []. constructor.
    - exists (free_request r' :: received). constructor; [|exact IH].
      now exists s, r'. }
  destruct Hclosed as [received Hclosed].
  rewrite (single_server_serves requests received (Some r :: later) Hclosed).
  cbn [single_server]. unfold handle_request, parse_request.
  now rewrite (parse_request_method_blank WHITESPACE r l rest Hline Hblank).
Qed.

End SingleFacts.

(** ** The request target *)

Section TargetSplit.

Variable WHITESPACE : cstring.
Variables method target version : cstring.
Variables sp1 sp2 : ascii.
Variable r : Request.
Variable rest : list cstring.

(** X1: On a request line [METHOD TARGET VERSION] whose target does not begin
    with [?], [parse_request_method] returns 0 and stores the method, as
    URI what precedes the first [?] of the target (the whole target when
    it has none), and as query all that follows that [?], later [?]
    included (the empty string when there is none); the stream is left
    after the line. *)
Theorem parse_request_method_splits_target
  (Hmethod : token_chars WHITESPACE method /\ method <> [])
  (Htarget : token_chars WHITESPACE target /\ target <> [])
  (Hsp1 : is_nul sp1 = false /\ char_in sp1 WHITESPACE = true)
  (Hsp2 : is_nul sp2 = false /\ char_in sp2 WHITESPACE = true)
  (Hline : pending (r_stream r)
           = (method ++ sp1 :: target ++ sp2 :: version) :: rest) :
  (~ In "?" target ->
   parse_request_method WHITESPACE r
   = Ret (0%Z,
          set_query
            (set_uri
               (set_method (set_stream r (MkFILE rest (written (r_stream r))))
                  (Some method))
               (Some target))
            (Some [])))
  /\ (forall u q,
        target = u ++ "?" :: q -> ~ In "?" u -> u <> [] ->
        parse_request_method WHITESPACE r
        = Ret (0%Z,
               set_query
                 (set_uri
                    (set_method
                       (set_stream r (MkFILE rest (written (r_stream r))))
                       (Some method))
                    (Some u))
                 (Some q))).
Proof.
  destruct Hmethod as [Hm Hmne]. destruct Htarget as [Ht Htne]. split.
  - exact (parse_request_method_no_query WHITESPACE method target version
             sp1 sp2 Hm Hmne Ht Htne Hsp1 Hsp2 r rest Hline).
  - exact (parse_request_method_query WHITESPACE method target version
             sp1 sp2 Hm Hmne Ht Htne Hsp1 Hsp2 r rest Hline).
Qed.

End TargetSplit.

(** ** Further runs on the sample site *)

Lemma parse_options_accepts_settings_witness :
  Options.parse_options
    [cs "-p"; cs "8080"; cs "-c"; cs "forking"; cs "-p"; cs "9000";
     cs "www"; cs "-x"]
    Options.initial
  = Ret (Options.Returns
           (true,
            Options.set_Port
              (Options.set_mode Options.initial Options.FORKING)
              (Some (cs "9000")))).
Proof.
  apply (OptionsFacts.parse_options_accepts_settings
           [Options.ListenPort (cs "8080"); Options.Mode Options.FORKING;
            Options.ListenPort (cs "9000")]
           [cs "www"; cs "-x"] Options.initial).
  reflexivity.
Defined.

Lemma parse_options_stops_witness :
  Options.parse_options [cs "-r"; cs "/tmp"; cs "-x"; cs "-p"; cs "1"]
    Options.initial
  = Ret (Options.Returns
           (false, Options.set_RootPath Options.initial (Some (cs "/tmp")))).
Proof.
  apply (proj1 (OptionsFacts.parse_options_stops
                  [Options.Root (cs "/tmp")] (cs "-x") [cs "-p"; cs "1"]
                  Options.initial eq_refl)).
  cbn. intuition discriminate.
Defined.

Lemma skip_nonwhitespace_ignores_terminator_witness :
  skip_nonwhitespace (cs "GET" ++ NUL :: cs "/x" ++ " " :: cs "HTTP/1.0") 0
  = Ret 6.
Proof.
  apply (proj1 (skip_nonwhitespace_ignores_terminator [] (cs "GET") []
                  ltac:(cbn; intuition discriminate))
           (cs "/x") (cs "HTTP/1.0")).
  cbn. intuition discriminate.
Defined.

Lemma parse_request_leaves_witness :
  (0 = 0 \/ 0 = -1)%Z
  /\ only_reads
       (Sample.connection [cs "GET /index.html HTTP/1.0" ++ CRLF;
                           cs "Host: localhost" ++ CRLF; CRLF; cs "body"])
       (MkRequest (cs "127.0.0.1") (cs "50000") (MkFILE [cs "body"] [])
          (Some (cs "GET")) (Some (cs "/index.html")) None (Some [])
          [MkHeader (cs "Host") (cs "localhost")]).
Proof.
  pose proof (parse_request_leaves Sample.WHITESPACE Sample.chomp
                (Sample.connection [cs "GET /index.html HTTP/1.0" ++ CRLF;
                                    cs "Host: localhost" ++ CRLF; CRLF;
                                    cs "body"])
                (MkRequest (cs "127.0.0.1") (cs "50000") (MkFILE [cs "body"] [])
                   (Some (cs "GET")) (Some (cs "/index.html")) None (Some [])
                   [MkHeader (cs "Host") (cs "localhost")])
                0%Z ltac:(vm_compute; reflexivity)) as H.
  exact (conj (proj1 H) (proj1 (proj2 H))).
Defined.

Lemma parse_request_headers_block_witness :
  exists headers,
    Forall2 (fun l h => parse_header_line Sample.chomp (l ++ [NUL]) = Some h)
      [cs "Host: localhost" ++ CRLF; cs "Accept: a" ++ CRLF;
       cs "Accept: b" ++ CRLF]
      headers
    /\ parse_request_headers Sample.chomp
         (Sample.connection [cs "Host: localhost" ++ CRLF;
                             cs "Accept: a" ++ CRLF; cs "Accept: b" ++ CRLF;
                             CRLF; cs "body"])
       = (0%Z,
          set_headers
            (set_stream
               (Sample.connection [cs "Host: localhost" ++ CRLF;
                                   cs "Accept: a" ++ CRLF;
                                   cs "Accept: b" ++ CRLF; CRLF; cs "body"])
               (MkFILE [cs "body"] []))
            headers).
Proof.
  apply (parse_request_headers_block Sample.chomp
           (Sample.connection [cs "Host: localhost" ++ CRLF;
                               cs "Accept: a" ++ CRLF; cs "Accept: b" ++ CRLF;
                               CRLF; cs "body"])
           [cs "Host: localhost" ++ CRLF; cs "Accept: a" ++ CRLF;
            cs "Accept: b" ++ CRLF]
           [CRLF; cs "body"] eq_refl eq_refl).
  - repeat constructor; try (vm_compute; lia); discriminate.
  - discriminate.
  - vm_compute. lia.
Defined.

Lemma slash_in_index : In "/" (cs "/srv/www/index.html").
Proof. cbn. tauto. Qed.

Lemma index_is_string : ~ In NUL (cs "/srv/www/index.html").
Proof. cbn. intuition discriminate. Qed.

Lemma determine_mimetype_returns_witness :
  exists m,
    Sample.determine_mimetype' (cs "/srv/www/index.html") = Ret m
    /\ (m = Sample.DefaultMimeType
        \/ exists fs l,
             Sample.fopen Sample.MimeTypesPath = Some fs /\ In l (pending fs)
             /\ rules_line l = true
             /\ hd_error (tokens Sample.WHITESPACE (c_str l)) = Some m).
Proof.
  exact (determine_mimetype_returns Sample.WHITESPACE Sample.MimeTypesPath
           Sample.DefaultMimeType Sample.fopen (cs "/srv/www/index.html")
           index_is_string slash_in_index).
Defined.

Lemma determine_mimetype_whole_suffix_witness :
  Sample.determine_mimetype' (cs "/srv/www/archive.tar.gz")
  = Ret (cs "text/plain").
Proof.
  apply (determine_mimetype_whole_suffix Sample.WHITESPACE
           Sample.MimeTypesPath Sample.DefaultMimeType Sample.fopen
           (cs "/srv/www") (cs "archive") (cs "tar.gz")).
  - cbn. intuition discriminate.
  - cbn. intuition discriminate.
  - cbn. intuition discriminate.
Defined.





Lemma handle_request_error_page_witness :
  Sample.stat (cs "/srv/www/locked.txt") = Some 0x8000%Z
  /\ Sample.fopen (cs "/srv/www/locked.txt") = None
  /\ Sample.handle_request'
       (Sample.connection [cs "GET /locked.txt HTTP/1.0" ++ CRLF;
                           cs "Host: localhost" ++ CRLF; CRLF])
     = Ret (HTTP_STATUS_NOT_FOUND,
            MkRequest (cs "127.0.0.1") (cs "50000")
              (MkFILE [] (error_response (cs "404 Not Found")))
              (Some (cs "GET")) (Some (cs "/locked.txt"))
              (Some (cs "/srv/www/locked.txt")) (Some [])
              [MkHeader (cs "Host") (cs "localhost")])
  /\ written
       (r_stream
          (MkRequest (cs "127.0.0.1") (cs "50000")
             (MkFILE [] (error_response (cs "404 Not Found")))
             (Some (cs "GET")) (Some (cs "/locked.txt"))
             (Some (cs "/srv/www/locked.txt")) (Some [])
             [MkHeader (cs "Host") (cs "localhost")]))
     = [] ++ error_response (status_line_of HTTP_STATUS_NOT_FOUND).
Proof.
  split; [reflexivity|]. split; [reflexivity|].
  split; [vm_compute; reflexivity|].
  apply (handle_request_error_page
           Sample.WHITESPACE Sample.chomp Sample.BUFSIZ Sample.RootPath
           Sample.MimeTypesPath Sample.DefaultMimeType Sample.realpath
           Sample.stat Sample.access_X_OK Sample.readdir Sample.fopen
           Sample.popen Sample.indeterminate_mode
           (Sample.connection [cs "GET /locked.txt HTTP/1.0" ++ CRLF;
                               cs "Host: localhost" ++ CRLF; CRLF])
           (MkRequest (cs "127.0.0.1") (cs "50000") (MkFILE [] [])
              (Some (cs "GET")) (Some (cs "/locked.txt")) None
              (Some []) [MkHeader (cs "Host") (cs "localhost")])
           _ 0%Z HTTP_STATUS_NOT_FOUND).
  - vm_compute. reflexivity.
  - intros uri path Hu Hp. injection Hu as <-. vm_compute in Hp.
    injection Hp as <-. discriminate.
  - vm_compute. reflexivity.
  - discriminate.
Defined.

Lemma handle_request_stat_failure_witness :
  handle_request Sample.WHITESPACE Sample.chomp Sample.BUFSIZ Sample.RootPath
    Sample.MimeTypesPath Sample.DefaultMimeType Sample.realpath
    (fun _ => None) Sample.access_X_OK Sample.readdir Sample.fopen
    Sample.popen 0%Z
    (Sample.connection [cs "GET /index.html HTTP/1.0" ++ CRLF;
                        cs "Host: localhost" ++ CRLF; CRLF])
  = Ret (HTTP_STATUS_BAD_REQUEST,
         write (error_response (cs "404 Not Found")
                ++ error_response (cs "400 Bad Request"))
           (MkRequest (cs "127.0.0.1") (cs "50000") (MkFILE [] [])
              (Some (cs "GET")) (Some (cs "/index.html"))
              (Some (cs "/srv/www/index.html")) (Some [])
              [MkHeader (cs "Host") (cs "localhost")])).
Proof.
  apply (proj2 (proj2 (handle_request_stat_failure
                  Sample.WHITESPACE Sample.chomp Sample.BUFSIZ Sample.RootPath
                  Sample.MimeTypesPath Sample.DefaultMimeType Sample.realpath
                  (fun _ => None) Sample.access_X_OK Sample.readdir
                  Sample.fopen Sample.popen 0%Z
                  (Sample.connection [cs "GET /index.html HTTP/1.0" ++ CRLF;
                                      cs "Host: localhost" ++ CRLF; CRLF])
                  (MkRequest (cs "127.0.0.1") (cs "50000") (MkFILE [] [])
                     (Some (cs "GET")) (Some (cs "/index.html")) None
                     (Some []) [MkHeader (cs "Host") (cs "localhost")])
                  (cs "/index.html") (cs "/srv/www/index.html")
                  ltac:(vm_compute; reflexivity) eq_refl
                  ltac:(vm_compute; reflexivity) eq_refl))).
  - reflexivity.
  - vm_compute. reflexivity.
  - reflexivity.
Defined.

Lemma handle_request_overflows_path_array_witness :
  exists line : cstring,
    length line < 64
    /\ forall host port,
         handle_request Sample.WHITESPACE Sample.chomp 64
           (cs "/home/spidey/site/www") Sample.MimeTypesPath
           Sample.DefaultMimeType Sample.realpath Sample.stat
           Sample.access_X_OK Sample.readdir Sample.fopen Sample.popen
           Sample.indeterminate_mode
           (accept_request host port [line; cs "Host: x" ++ CRLF; CRLF])
         = Undefined BufferOverflow.
Proof.
  apply (handle_request_overflows_path_array
           Sample.WHITESPACE Sample.chomp 64 (cs "/home/spidey/site/www")
           Sample.MimeTypesPath Sample.DefaultMimeType Sample.realpath
           Sample.stat Sample.access_X_OK Sample.readdir Sample.fopen
           Sample.popen Sample.indeterminate_mode).
  - reflexivity.
  - repeat constructor.
  - vm_compute. lia.
  - vm_compute. lia.
Defined.

Lemma single_server_stops_at_failed_accept_witness :
  single_server Sample.WHITESPACE Sample.chomp Sample.BUFSIZ Sample.RootPath
    Sample.MimeTypesPath Sample.DefaultMimeType Sample.realpath Sample.stat
    Sample.access_X_OK Sample.readdir Sample.fopen Sample.popen
    Sample.indeterminate_mode
    (map Some
       [Sample.connection [cs "GET /index.html HTTP/1.0" ++ CRLF;
                           cs "Host: localhost" ++ CRLF; CRLF];
        Sample.connection [cs "GET /missing.txt HTTP/1.0" ++ CRLF;
                           cs "Host: localhost" ++ CRLF; CRLF];
        Sample.connection [cs "POST /index.html HTTP/1.0" ++ CRLF;
                           cs "Host: localhost" ++ CRLF; CRLF; cs "a=b"]]
     ++ None :: [Some (Sample.connection [])])
  = Ret (Some EXIT_FAILURE,
         [Some (cs "HTTP/1.0 200 OK" ++ CRLF
                ++ cs "Content-Type: text/html" ++ CRLF ++ CRLF
                ++ cs "<h1>Hello</h1>" ++ [LF]);
          Some (error_response (cs "404 Not Found"));
          None]).
Proof.
  apply (proj1 (proj2 (single_server_stops_at_failed_accept
                  Sample.WHITESPACE Sample.chomp Sample.BUFSIZ Sample.RootPath
                  Sample.MimeTypesPath Sample.DefaultMimeType Sample.realpath
                  Sample.stat Sample.access_X_OK Sample.readdir Sample.fopen
                  Sample.popen Sample.indeterminate_mode
                  [Sample.connection [cs "GET /index.html HTTP/1.0" ++ CRLF;
                                      cs "Host: localhost" ++ CRLF; CRLF];
                   Sample.connection [cs "GET /missing.txt HTTP/1.0" ++ CRLF;
                                      cs "Host: localhost" ++ CRLF; CRLF];
                   Sample.connection [cs "POST /index.html HTTP/1.0" ++ CRLF;
                                      cs "Host: localhost" ++ CRLF; CRLF;
                                      cs "a=b"]]
                  [Some (cs "HTTP/1.0 200 OK" ++ CRLF
                         ++ cs "Content-Type: text/html" ++ CRLF ++ CRLF
                         ++ cs "<h1>Hello</h1>" ++ [LF]);
                   Some (error_response (cs "404 Not Found"));
                   None]
                  [Some (Sample.connection [])]
                  ltac:(repeat constructor; do 2 eexists;
                        (split; [reflexivity|reflexivity]))))).
Defined.

Lemma single_server_blank_line_witness :
  single_server Sample.WHITESPACE Sample.chomp Sample.BUFSIZ Sample.RootPath
    Sample.MimeTypesPath Sample.DefaultMimeType Sample.realpath Sample.stat
    Sample.access_X_OK Sample.readdir Sample.fopen Sample.popen
    Sample.indeterminate_mode
    (map Some [Sample.connection []]
     ++ Some (Sample.connection [[LF]])
        :: [Some (Sample.connection
                    [cs "GET /index.html HTTP/1.0" ++ CRLF;
                     cs "Host: localhost" ++ CRLF; CRLF])])
  = Undefined NullArgument.
Proof.
  apply (single_server_blank_line
           Sample.WHITESPACE Sample.chomp Sample.BUFSIZ Sample.RootPath
           Sample.MimeTypesPath Sample.DefaultMimeType Sample.realpath
           Sample.stat Sample.access_X_OK Sample.readdir Sample.fopen
           Sample.popen Sample.indeterminate_mode
           [Sample.connection []]
           [error_response (cs "400 Bad Request")]
           (Sample.connection [[LF]]) [LF] []).
  - repeat constructor.
    exists HTTP_STATUS_BAD_REQUEST,
      (write (error_response (cs "400 Bad Request")) (Sample.connection [])).
    split; vm_compute; reflexivity.
  - reflexivity.
  - repeat constructor.
Defined.

Lemma parse_request_method_splits_target_witness :
  parse_request_method Sample.WHITESPACE
    (Sample.connection [cs "GET /search?q=a?b HTTP/1.0" ++ CRLF])
  = Ret (0%Z,
         MkRequest (cs "127.0.0.1") (cs "50000") (MkFILE [] [])
           (Some (cs "GET")) (Some (cs "/search")) None (Some (cs "q=a?b")) []).
Proof.
  apply (proj2 (parse_request_method_splits_target Sample.WHITESPACE
                  (cs "GET") (cs "/search?q=a?b") (cs "HTTP/1.0" ++ CRLF)
                  " " " "
                  (Sample.connection [cs "GET /search?q=a?b HTTP/1.0" ++ CRLF])
                  []
                  ltac:(split; [repeat constructor|discriminate])
                  ltac:(split; [repeat constructor|discriminate])
                  ltac:(split; reflexivity) ltac:(split; reflexivity)
                  eq_refl)
           (cs "/search") (cs "q=a?b") eq_refl).
  - cbn. intuition discriminate.
  - discriminate.
Defined.


Lemma handle_request_no_target_witness :
  exists r',
    Sample.handle_request' (Sample.connection [cs "GET" ++ [LF]])
    = Ret (HTTP_STATUS_BAD_REQUEST, r')
    /\ written (r_stream r') = error_response (cs "400 Bad Request")
    /\ pending (r_stream r') = []
    /\ r_method r' = Some (cs "GET").
Proof.
  destruct (handle_request_no_target
              Sample.WHITESPACE Sample.chomp Sample.BUFSIZ Sample.RootPath
              Sample.MimeTypesPath Sample.DefaultMimeType Sample.realpath
              Sample.stat Sample.access_X_OK Sample.readdir Sample.fopen
              Sample.popen Sample.indeterminate_mode
              (Sample.connection [cs "GET" ++ [LF]])
              (cs "GET" ++ [LF]) [] (cs "GET") [LF] []
              eq_refl eq_refl ltac:(constructor)
              ltac:(split; [repeat constructor|discriminate])
              ltac:(repeat constructor))
    as (r' & H1 & H2 & H3 & H4 & _).
  exists r'. auto.
Defined.

Lemma parse_header_line_fields_witness :
  parse_header_line Sample.chomp
    (cs "Accept: text/html" ++ CRLF ++ [NUL])
  = Some (MkHeader (cs "Accept")
            (Sample.chomp
               (trim_leading_whitespace (cs " text/html" ++ CRLF)))).
Proof.
  apply (parse_header_line_fields Sample.chomp
           (cs "Accept: text/html" ++ CRLF) (cs "Accept")
           (cs " text/html" ++ CRLF) []).
  - reflexivity.
  - discriminate.
  - cbn. intuition discriminate.
  - discriminate.
  - cbn. intuition discriminate.
  - now left.
Defined.

Lemma parse_request_headers_no_colon_witness :
  fst (parse_request_headers Sample.chomp
         (Sample.connection [cs "Host: localhost" ++ CRLF;
                             cs "Accept: text/html" ++ CRLF;
                             cs "User-Agent curl" ++ CRLF;
                             cs "Connection: close" ++ CRLF; CRLF]))
  = (-1)%Z
  /\ pending
       (r_stream
          (snd (parse_request_headers Sample.chomp
                  (Sample.connection [cs "Host: localhost" ++ CRLF;
                                      cs "Accept: text/html" ++ CRLF;
                                      cs "User-Agent curl" ++ CRLF;
                                      cs "Connection: close" ++ CRLF; CRLF]))))
     = [cs "Connection: close" ++ CRLF; CRLF].
Proof.
  destruct (parse_request_headers_no_colon Sample.chomp
              (Sample.connection [cs "Host: localhost" ++ CRLF;
                                  cs "Accept: text/html" ++ CRLF;
                                  cs "User-Agent curl" ++ CRLF;
                                  cs "Connection: close" ++ CRLF; CRLF])
              [cs "Host: localhost" ++ CRLF; cs "Accept: text/html" ++ CRLF]
              (cs "User-Agent curl" ++ CRLF)
              [cs "Connection: close" ++ CRLF; CRLF]
              eq_refl
              ltac:(repeat constructor; vm_compute; lia)
              ltac:(vm_compute; lia)
              ltac:(cbn; intuition discriminate)) as [H1 H2].
  split; [exact H1|]. apply H2. repeat constructor; discriminate.
Defined.

(** ** A well-formed request *)

Lemma question_split (t : cstring) :
  ~ In "?" (before_question t)
  /\ (t = before_question t /\ after_question t = [] /\ ~ In "?" t
      \/ t = before_question t ++ "?" :: after_question t).
Proof.
  induction t as [|c t (IH1 & IH2)]; cbn.
  - split; [tauto|]. left. repeat split. tauto.
  - destruct (Ascii.eqb_spec c "?") as [->|Hne].
    + split; [cbn; tauto|]. now right.
    + split; [cbn; intros [H|H]; [congruence|contradiction]|].
      destruct IH2 as [(E1 & E2 & E3)|E].
      * left. repeat split; [now f_equal|exact E2|].
        intros [H|H]; [congruence|contradiction].
      * right. cbn. now f_equal.
Qed.

Section WellFormed.

Variable WHITESPACE : cstring.
Variable chomp : cstring -> cstring.
Variables method target version : cstring.
Variables sp1 sp2 : ascii.
Variable r : Request.
Variables lines after : list cstring.

(** X6: A request made of a line [METHOD TARGET VERSION], header lines and a
    blank line is parsed whole: [parse_request] returns 0, the method is
    stored, the target is split at its first [?] into URI and query, the
    headers are those of the lines in their order, nothing else of the
    request changes, and the stream is left at the first line of the
    body. *)
Theorem parse_request_well_formed
  (Hmethod : token_chars WHITESPACE method /\ method <> [])
  (Htarget : token_chars WHITESPACE target /\ before_question target <> [])
  (Hsp1 : is_nul sp1 = false /\ char_in sp1 WHITESPACE = true)
  (Hsp2 : is_nul sp2 = false /\ char_in sp2 WHITESPACE = true)
  (Hlines : header_lines chomp lines /\ lines <> [])
  (Hafter : match after with
            | [] => True
            | blank :: _ => strlen (blank ++ [NUL]) 0 <= 2
            end)
  (Hnew : r_headers r = [])
  (Hstream : pending (r_stream r)
             = (method ++ sp1 :: target ++ sp2 :: version) :: lines ++ after) :
  exists headers,
    Forall2 (fun l h => parse_header_line chomp (l ++ [NUL]) = Some h)
      lines headers
    /\ parse_request WHITESPACE chomp r
       = Ret (0%Z,
              MkRequest (r_host r) (r_port r)
                (MkFILE (tl after) (written (r_stream r)))
                (Some method) (Some (before_question target)) (r_path r)
                (Some (after_question target)) headers).
Proof.
  destruct Hmethod as [Hm Hmne]. destruct Htarget as [Ht Hune].
  destruct Hlines as [Hl Hlne].
  assert (Htne : target <> []) by (intros E; rewrite E in Hune; now apply Hune).
  assert (Hparse :
    parse_request_method WHITESPACE r
    = Ret (0%Z,
           set_query
             (set_uri
                (set_method
                   (set_stream r (MkFILE (lines ++ after) (written (r_stream r))))
                   (Some method))
                (Some (before_question target)))
             (Some (after_question target)))).
  { destruct (question_split target) as [Hb [(E1 & E2 & E3)|E]].
    - rewrite <- E1, E2.
      exact (parse_request_method_no_query WHITESPACE method target version
               sp1 sp2 Hm Hmne Ht Htne Hsp1 Hsp2 r (lines ++ after) Hstream E3).
    - exact (parse_request_method_query WHITESPACE method target version
               sp1 sp2 Hm Hmne Ht Htne Hsp1 Hsp2 r (lines ++ after) Hstream
               (before_question target) (after_question target) E Hb Hune). }
  destruct (parse_headers_loop_block chomp lines (written (r_stream r)) after
              Hl Hafter 0 [] eq_refl) as (headers & H2 & Hloop).
  exists headers. split; [exact H2|].
  unfold parse_request. rewrite Hparse. cbn [bind Z.ltb Z.compare].
  unfold parse_request_headers.
  cbn [r_stream r_headers set_query set_uri set_method set_stream pending
       written].
  rewrite Hnew, Hloop. cbn [app].
  destruct H2 as [|l h lines' hs' _ _]; [contradiction|]. reflexivity.
Qed.

End WellFormed.

Lemma parse_request_well_formed_witness :
  exists headers,
    Forall2 (fun l h => parse_header_line Sample.chomp (l ++ [NUL]) = Some h)
      [cs "Host: localhost" ++ CRLF; cs "Accept: a" ++ CRLF] headers
    /\ parse_request Sample.WHITESPACE Sample.chomp
         (Sample.connection [cs "GET /search?q=a?b HTTP/1.0" ++ CRLF;
                             cs "Host: localhost" ++ CRLF;
                             cs "Accept: a" ++ CRLF; CRLF; cs "body"])
       = Ret (0%Z,
              MkRequest (cs "127.0.0.1") (cs "50000") (MkFILE [cs "body"] [])
                (Some (cs "GET")) (Some (cs "/search")) None
                (Some (cs "q=a?b")) headers).
Proof.
  apply (parse_request_well_formed Sample.WHITESPACE Sample.chomp
           (cs "GET") (cs "/search?q=a?b") (cs "HTTP/1.0" ++ CRLF) " " " "
           (Sample.connection [cs "GET /search?q=a?b HTTP/1.0" ++ CRLF;
                               cs "Host: localhost" ++ CRLF;
                               cs "Accept: a" ++ CRLF; CRLF; cs "body"])
           [cs "Host: localhost" ++ CRLF; cs "Accept: a" ++ CRLF]
           [CRLF; cs "body"]).
  - split; [repeat constructor|discriminate].
  - split; [repeat constructor|discriminate].
  - split; reflexivity.
  - split; reflexivity.
  - split; [|discriminate].
    repeat constructor; try (vm_compute; lia); discriminate.
  - vm_compute. lia.
  - reflexivity.
  - reflexivity.
Defined.
